(** * qperf: the test-control plane of [src/qperf.c], embedded and verified

    The development follows the layout of [qperf.c]:

    - [Codec]   the wire codec ([enc_int], [dec_int], [enc_req], [dec_req],
                [enc_stat], [dec_stat], [enc_ustat], [dec_ustat]);
    - [Par]     the parameter table ([ParInfo], [par_set], [setp_u32],
                [setp_str], [par_use], [par_isset]) and the prologue of
                [client];
    - [Mesg]    deadline-bounded framed I/O ([send_recv_mesg]);
    - [Server]  the version gate of the accept loop in [server];
    - [Args]    the size argument parser ([arg_size]);
    - [Show]    [commify] and [nice_1024];
    - [Times]   the [/proc/stat] reader ([get_times]);
    - [Main]    [do_args], [client] and the exit status of [main];
    - [Buffer]  where the calls of [send_recv_mesg] put and take their
                bytes;
    - [Request] the request from [client_send_request] to the loop of
                [server];
    - [Driver], [Check], [Text], [Table]
                one option under [do_args], [opt_check] and [setv_u32],
                the string helpers with [left_to_send], and [place_show].

    Integers of the C program are [Z] with the wrap-around of their type
    written out where the code can reach it; byte buffers are lists of
    8-bit [Z]; C strings are [string] or [list ascii] without the
    terminating NUL, which reads past the end supply. *)

From Stdlib Require Import ZArith List String Ascii Lia Bool QArith.
From stdpp Require Import base list.
Import ListNotations.

Local Open Scope Z_scope.

(** ** Shared vocabulary *)

(** What a call that may leave the process produces: it returns, or the
    process ends through [die()] after a message on stderr
    ([error_die], [bug_die]), or it ends through [exit(status)].
    [Undefined] marks a step whose behaviour the C standard leaves
    undefined (a floating value converted to an integer type that cannot
    hold it); the model says nothing about what follows. *)
Inductive outcome (A : Type) : Type :=
| Ret (a : A)
| Die (msg : string)
| Exits (status : Z)
| Undefined.
Arguments Ret {A} a.
Arguments Die {A} msg.
Arguments Exits {A} status.
Arguments Undefined {A}.

(** Sequencing of calls that may end the process, with stdpp's notation
    [x ← c; k]. *)
#[global] Instance outcome_bind : MBind outcome :=
  fun A B (k : A -> outcome B) (c : outcome A) =>
    match c with
    | Ret a => k a
    | Die m => Die m
    | Exits s => Exits s
    | Undefined => Undefined
    end.

(** [isdigit] on the C locale. *)
Definition isdigit (c : ascii) : bool :=
  let n := nat_of_ascii c in (48 <=? n)%nat && (n <=? 57)%nat.

Definition digit_val (c : ascii) : Z := Z.of_nat (nat_of_ascii c) - 48.

(** [printf("%d")] and [printf("%lld")]: decimal digits, most significant
    first, with a minus sign for negative values. *)
Definition digit_char (d : Z) : ascii := ascii_of_nat (Z.to_nat (48 + d)).

Fixpoint fmt_digits (fuel : nat) (v : Z) (acc : list ascii) : list ascii :=
  match fuel with
  | O => acc
  | S fuel' =>
      let acc' := digit_char (v mod 10) :: acc in
      if v / 10 =? 0 then acc' else fmt_digits fuel' (v / 10) acc'
  end.

Definition fmt_d (v : Z) : list ascii :=
  if v <? 0
  then "-"%char :: fmt_digits 20 (- v) []
  else fmt_digits 20 v [].

Definition str (l : list ascii) : string := string_of_list_ascii l.

(** ** A. Wire codec *)

Module Codec.

(** [qperf.h], which declares [REQ], [STAT], [USTAT] and [STRSIZE], is not
    part of the sources at hand.  The codec only ever asks for
    [sizeof(field)], so the widths (in bytes) are parameters of the model.
    The fields that [ParInfo] reaches through a [uint32_t *] are four bytes
    wide by that cast. *)
Record SIZES : Type := {
  sizeof_ver_maj : nat;
  sizeof_ver_min : nat;
  sizeof_ver_inc : nat;
  sizeof_req_index : nat;
  STRSIZE : nat;
  sizeof_no_cpus : nat;
  sizeof_no_ticks : nat;
  sizeof_max_cqes : nat;
  sizeof_CLOCK : nat;
  sizeof_no_bytes : nat;
  sizeof_no_msgs : nat;
  sizeof_no_errs : nat
}.

Definition sizeof_uint32_t : nat := 4.

(** Modelled from the spec: [T_N], the number of tick categories of
    [qperf.h] (real, user, nice, kernel, idle, iowait, irq, softirq, steal);
    [qperf.c] names exactly these nine as [T_REAL] .. [T_STEAL]. *)
Definition T_N : nat := 9.

(** A field of [w] bytes holds a bit pattern, read as an unsigned number. *)
Definition fits (w : nat) (v : Z) : Prop := 0 <= v < 2 ^ (8 * Z.of_nat w).

(** The conversions around [enc_int]/[dec_int]: [dec_int] hands its
    [uint64_t] back as an [int64_t], and the assignment to the field keeps
    the low [w] bytes. *)
Definition to_int64 (x : Z) : Z := (x + 2 ^ 63) mod 2 ^ 64 - 2 ^ 63.
Definition store (w : nat) (x : Z) : Z := x mod 2 ^ (8 * Z.of_nat w).

(** The encode cursor [EncodePtr] is modelled by the bytes written so far,
    the decode cursor [DecodePtr] by the bytes still to be read. *)

(** [enc_int]: [while (n--) { *EncodePtr++ = l; l >>= 8; }] *)
Fixpoint enc_int (l : Z) (n : nat) (EncodePtr : list Z) : list Z :=
  match n with
  | O => EncodePtr
  | S n' => enc_int (Z.shiftr l 8) n' (EncodePtr ++ [l mod 256])
  end.

(** [dec_int]: [p] starts at [DecodePtr + n] (the cursor is advanced at
    once) and steps back one byte per iteration: the new [l] is [l << 8]
    or-ed with the byte masked by [0xFF].  The bytes are thus visited from
    the last one back to the first. *)
Fixpoint dec_loop (l : Z) (bytes_from_p : list Z) : Z :=
  match bytes_from_p with
  | [] => l
  | b :: bs => dec_loop (Z.lor (Z.shiftl l 8 mod 2 ^ 64) (Z.land b 255)) bs
  end.

Definition dec_int (n : nat) (DecodePtr : list Z) : Z * list Z :=
  (to_int64 (dec_loop 0 (rev (firstn n DecodePtr))), skipn n DecodePtr).

(** The bytes one [enc_int] contributes. *)
Definition bytes_of (l : Z) (n : nat) : list Z := enc_int l n [].

(** The number a little-endian byte string decodes to. *)
Definition le_val (bs : list Z) : Z := dec_loop 0 (rev bs).

(** [enc_str]/[dec_str]: [memcpy] of [n] bytes.  A [char\[STRSIZE\]] field is
    a list of [STRSIZE] bytes. *)
Definition enc_str (s : list Z) (n : nat) (EncodePtr : list Z) : list Z :=
  EncodePtr ++ firstn n s.

Definition dec_str (s : list Z) (n : nat) (DecodePtr : list Z)
  : list Z * list Z :=
  (firstn n DecodePtr ++ skipn n s, skipn n DecodePtr).

(** [REQ].  Every member that [qperf.c] names is here: the sixteen integers
    and [id] that [enc_req] walks through, and [rate], which the parameter
    table points at ([&Req.rate], [&RReq.rate], type ['p']). *)
Record REQ : Type := mkREQ {
  ver_maj : Z;
  ver_min : Z;
  ver_inc : Z;
  req_index : Z;
  flip : Z;
  access_recv : Z;
  affinity : Z;
  poll_mode : Z;
  port : Z;
  rd_atomic : Z;
  timeout : Z;
  msg_size : Z;
  mtu_size : Z;
  no_msgs : Z;
  sock_buf_size : Z;
  time : Z;
  id : list Z;
  rate : list Z
}.

Record USTAT : Type := mkUSTAT {
  no_bytes : Z;
  u_no_msgs : Z;
  no_errs : Z
}.

Record STAT : Type := mkSTAT {
  no_cpus : Z;
  no_ticks : Z;
  max_cqes : Z;
  time_s : list Z;
  time_e : list Z;
  s : USTAT;
  r : USTAT;
  rem_s : USTAT;
  rem_r : USTAT
}.

Section WithSizes.

Context (sz : SIZES).

Definition enc_req (host : REQ) (p : list Z) : list Z :=
  let p := enc_int (ver_maj host) (sizeof_ver_maj sz) p in
  let p := enc_int (ver_min host) (sizeof_ver_min sz) p in
  let p := enc_int (ver_inc host) (sizeof_ver_inc sz) p in
  let p := enc_int (req_index host) (sizeof_req_index sz) p in
  let p := enc_int (flip host) sizeof_uint32_t p in
  let p := enc_int (access_recv host) sizeof_uint32_t p in
  let p := enc_int (affinity host) sizeof_uint32_t p in
  let p := enc_int (poll_mode host) sizeof_uint32_t p in
  let p := enc_int (port host) sizeof_uint32_t p in
  let p := enc_int (rd_atomic host) sizeof_uint32_t p in
  let p := enc_int (timeout host) sizeof_uint32_t p in
  let p := enc_int (msg_size host) sizeof_uint32_t p in
  let p := enc_int (mtu_size host) sizeof_uint32_t p in
  let p := enc_int (no_msgs host) sizeof_uint32_t p in
  let p := enc_int (sock_buf_size host) sizeof_uint32_t p in
  let p := enc_int (time host) sizeof_uint32_t p in
  enc_str (id host) (STRSIZE sz) p.

(** [dec_req] assigns member by member into [*host]; a member it does not
    assign keeps what [host] held. *)
Definition dec_req (host : REQ) (p : list Z) : REQ * list Z :=
  let '(v_ver_maj, p) := dec_int (sizeof_ver_maj sz) p in
  let '(v_ver_min, p) := dec_int (sizeof_ver_min sz) p in
  let '(v_ver_inc, p) := dec_int (sizeof_ver_inc sz) p in
  let '(v_req_index, p) := dec_int (sizeof_req_index sz) p in
  let '(v_flip, p) := dec_int sizeof_uint32_t p in
  let '(v_access_recv, p) := dec_int sizeof_uint32_t p in
  let '(v_affinity, p) := dec_int sizeof_uint32_t p in
  let '(v_poll_mode, p) := dec_int sizeof_uint32_t p in
  let '(v_port, p) := dec_int sizeof_uint32_t p in
  let '(v_rd_atomic, p) := dec_int sizeof_uint32_t p in
  let '(v_timeout, p) := dec_int sizeof_uint32_t p in
  let '(v_msg_size, p) := dec_int sizeof_uint32_t p in
  let '(v_mtu_size, p) := dec_int sizeof_uint32_t p in
  let '(v_no_msgs, p) := dec_int sizeof_uint32_t p in
  let '(v_sock_buf_size, p) := dec_int sizeof_uint32_t p in
  let '(v_time, p) := dec_int sizeof_uint32_t p in
  let '(v_id, p) := dec_str (id host) (STRSIZE sz) p in
  ({| ver_maj := store (sizeof_ver_maj sz) v_ver_maj;
      ver_min := store (sizeof_ver_min sz) v_ver_min;
      ver_inc := store (sizeof_ver_inc sz) v_ver_inc;
      req_index := store (sizeof_req_index sz) v_req_index;
      flip := store sizeof_uint32_t v_flip;
      access_recv := store sizeof_uint32_t v_access_recv;
      affinity := store sizeof_uint32_t v_affinity;
      poll_mode := store sizeof_uint32_t v_poll_mode;
      port := store sizeof_uint32_t v_port;
      rd_atomic := store sizeof_uint32_t v_rd_atomic;
      timeout := store sizeof_uint32_t v_timeout;
      msg_size := store sizeof_uint32_t v_msg_size;
      mtu_size := store sizeof_uint32_t v_mtu_size;
      no_msgs := store sizeof_uint32_t v_no_msgs;
      sock_buf_size := store sizeof_uint32_t v_sock_buf_size;
      time := store sizeof_uint32_t v_time;
      id := v_id;
      rate := rate host |}, p).

Definition enc_ustat (host : USTAT) (p : list Z) : list Z :=
  let p := enc_int (no_bytes host) (sizeof_no_bytes sz) p in
  let p := enc_int (u_no_msgs host) (sizeof_no_msgs sz) p in
  enc_int (no_errs host) (sizeof_no_errs sz) p.

Definition dec_ustat (host : USTAT) (p : list Z) : USTAT * list Z :=
  let '(v_no_bytes, p) := dec_int (sizeof_no_bytes sz) p in
  let '(v_no_msgs, p) := dec_int (sizeof_no_msgs sz) p in
  let '(v_no_errs, p) := dec_int (sizeof_no_errs sz) p in
  ({| no_bytes := store (sizeof_no_bytes sz) v_no_bytes;
      u_no_msgs := store (sizeof_no_msgs sz) v_no_msgs;
      no_errs := store (sizeof_no_errs sz) v_no_errs |}, p).

(** [for (i = 0; i < T_N; ++i) enc_int(a\[i\], sizeof(a\[i\]));] with
    [left = T_N - i] iterations to go. *)
Fixpoint enc_clocks (a : list Z) (i left : nat) (p : list Z) : list Z :=
  match left with
  | O => p
  | S left' =>
      enc_clocks a (S i) left' (enc_int (nth i a 0) (sizeof_CLOCK sz) p)
  end.

(** [for (i = 0; i < T_N; ++i) a\[i\] = dec_int(sizeof(a\[i\]));] *)
Fixpoint dec_clocks (a : list Z) (i left : nat) (p : list Z)
  : list Z * list Z :=
  match left with
  | O => (a, p)
  | S left' =>
      let '(v, p) := dec_int (sizeof_CLOCK sz) p in
      dec_clocks (<[i := store (sizeof_CLOCK sz) v]> a) (S i) left' p
  end.

Definition enc_stat (host : STAT) (p : list Z) : list Z :=
  let p := enc_int (no_cpus host) (sizeof_no_cpus sz) p in
  let p := enc_int (no_ticks host) (sizeof_no_ticks sz) p in
  let p := enc_int (max_cqes host) (sizeof_max_cqes sz) p in
  let p := enc_clocks (time_s host) 0 T_N p in
  let p := enc_clocks (time_e host) 0 T_N p in
  let p := enc_ustat (s host) p in
  let p := enc_ustat (r host) p in
  let p := enc_ustat (rem_s host) p in
  enc_ustat (rem_r host) p.

Definition dec_stat (host : STAT) (p : list Z) : STAT * list Z :=
  let '(v_no_cpus, p) := dec_int (sizeof_no_cpus sz) p in
  let '(v_no_ticks, p) := dec_int (sizeof_no_ticks sz) p in
  let '(v_max_cqes, p) := dec_int (sizeof_max_cqes sz) p in
  let '(v_time_s, p) := dec_clocks (time_s host) 0 T_N p in
  let '(v_time_e, p) := dec_clocks (time_e host) 0 T_N p in
  let '(v_s, p) := dec_ustat (s host) p in
  let '(v_r, p) := dec_ustat (r host) p in
  let '(v_rem_s, p) := dec_ustat (rem_s host) p in
  let '(v_rem_r, p) := dec_ustat (rem_r host) p in
  ({| no_cpus := store (sizeof_no_cpus sz) v_no_cpus;
      no_ticks := store (sizeof_no_ticks sz) v_no_ticks;
      max_cqes := store (sizeof_max_cqes sz) v_max_cqes;
      time_s := v_time_s;
      time_e := v_time_e;
      s := v_s;
      r := v_r;
      rem_s := v_rem_s;
      rem_r := v_rem_r |}, p).

(** A [Req] whose members fit their declared widths. *)
Record req_fits (q : REQ) : Prop := {
  fits_ver_maj : fits (sizeof_ver_maj sz) (ver_maj q);
  fits_ver_min : fits (sizeof_ver_min sz) (ver_min q);
  fits_ver_inc : fits (sizeof_ver_inc sz) (ver_inc q);
  fits_req_index : fits (sizeof_req_index sz) (req_index q);
  fits_flip : fits sizeof_uint32_t (flip q);
  fits_access_recv : fits sizeof_uint32_t (access_recv q);
  fits_affinity : fits sizeof_uint32_t (affinity q);
  fits_poll_mode : fits sizeof_uint32_t (poll_mode q);
  fits_port : fits sizeof_uint32_t (port q);
  fits_rd_atomic : fits sizeof_uint32_t (rd_atomic q);
  fits_timeout : fits sizeof_uint32_t (timeout q);
  fits_msg_size : fits sizeof_uint32_t (msg_size q);
  fits_mtu_size : fits sizeof_uint32_t (mtu_size q);
  fits_no_msgs : fits sizeof_uint32_t (no_msgs q);
  fits_sock_buf_size : fits sizeof_uint32_t (sock_buf_size q);
  fits_time : fits sizeof_uint32_t (time q);
  fits_id : length (id q) = STRSIZE sz;
  fits_rate : length (rate q) = STRSIZE sz
}.

Record ustat_fits (u : USTAT) : Prop := {
  fits_no_bytes : fits (sizeof_no_bytes sz) (no_bytes u);
  fits_u_no_msgs : fits (sizeof_no_msgs sz) (u_no_msgs u);
  fits_no_errs : fits (sizeof_no_errs sz) (no_errs u)
}.

Record stat_fits (t : STAT) : Prop := {
  fits_no_cpus : fits (sizeof_no_cpus sz) (no_cpus t);
  fits_no_ticks : fits (sizeof_no_ticks sz) (no_ticks t);
  fits_max_cqes : fits (sizeof_max_cqes sz) (max_cqes t);
  fits_time_s : length (time_s t) = T_N
                /\ Forall (fits (sizeof_CLOCK sz)) (time_s t);
  fits_time_e : length (time_e t) = T_N
                /\ Forall (fits (sizeof_CLOCK sz)) (time_e t);
  fits_s : ustat_fits (s t);
  fits_r : ustat_fits (r t);
  fits_rem_s : ustat_fits (rem_s t);
  fits_rem_r : ustat_fits (rem_r t)
}.

(** Integer types of the C program are at most eight bytes wide. *)
Record sizes_ok : Prop := {
  ok_ver_maj : (sizeof_ver_maj sz <= 8)%nat;
  ok_ver_min : (sizeof_ver_min sz <= 8)%nat;
  ok_ver_inc : (sizeof_ver_inc sz <= 8)%nat;
  ok_req_index : (sizeof_req_index sz <= 8)%nat;
  ok_no_cpus : (sizeof_no_cpus sz <= 8)%nat;
  ok_no_ticks : (sizeof_no_ticks sz <= 8)%nat;
  ok_max_cqes : (sizeof_max_cqes sz <= 8)%nat;
  ok_CLOCK : (sizeof_CLOCK sz <= 8)%nat;
  ok_no_bytes : (sizeof_no_bytes sz <= 8)%nat;
  ok_no_msgs : (sizeof_no_msgs sz <= 8)%nat;
  ok_no_errs : (sizeof_no_errs sz <= 8)%nat
}.

End WithSizes.

(** [q] with another [rate]. *)
Definition with_rate (v : list Z) (q : REQ) : REQ :=
  {| ver_maj := ver_maj q; ver_min := ver_min q; ver_inc := ver_inc q;
     req_index := req_index q; flip := flip q;
     access_recv := access_recv q; affinity := affinity q;
     poll_mode := poll_mode q; port := port q; rd_atomic := rd_atomic q;
     timeout := timeout q; msg_size := msg_size q; mtu_size := mtu_size q;
     no_msgs := no_msgs q; sock_buf_size := sock_buf_size q; time := time q;
     id := id q; rate := v |}.

(** One choice of widths, for the examples: 16-bit version numbers and
    test index, 64-byte strings, 32-bit counts, 64-bit clocks and
    counters. *)
Definition sizes64 : SIZES :=
  {| sizeof_ver_maj := 2; sizeof_ver_min := 2; sizeof_ver_inc := 2;
     sizeof_req_index := 2; STRSIZE := 64;
     sizeof_no_cpus := 4; sizeof_no_ticks := 4; sizeof_max_cqes := 4;
     sizeof_CLOCK := 8;
     sizeof_no_bytes := 8; sizeof_no_msgs := 8; sizeof_no_errs := 8 |}.

(** A C string in a [char\[n\]]: its bytes, then NULs. *)
Definition chars (n : nat) (s : string) : list Z :=
  let b := map (fun c => Z.of_nat (nat_of_ascii c)) (list_ascii_of_string s) in
  firstn n (b ++ repeat 0 n).

(** The server's [Req] before any request: a zeroed static object. *)
Definition Req_zero (sz : SIZES) : REQ :=
  mkREQ 0 0 0 0 0 0 0 0 0 0 0 0 0 0 0 0
        (repeat 0 (STRSIZE sz)) (repeat 0 (STRSIZE sz)).

(** The request of [qperf host --rate 10 rc_bw] as the client holds it in
    [RReq]: version 0.2.0, test 11, two seconds, timeout 5, rate "10". *)
Definition RReq_rate10 : REQ :=
  mkREQ 0 2 0 11 0 0 0 0 0 0 5 0 0 0 0 2
        (chars 64 "") (chars 64 "10").

End Codec.

(** ** C. Parameter table *)

Module Par.

(** The indices of the table.  [PAR_INDEX] is declared in [qperf.h]; its
    enumerators are listed here in the order of the rows of [ParInfo],
    which the comment above that table and the check in [init_vars]
    require to be the order of their values. *)
Inductive PAR_INDEX : Type :=
| P_NULL
| L_ACCESS_RECV | R_ACCESS_RECV
| L_AFFINITY | R_AFFINITY
| L_FLIP | R_FLIP
| L_ID | R_ID
| L_MSG_SIZE | R_MSG_SIZE
| L_MTU_SIZE | R_MTU_SIZE
| L_NO_MSGS | R_NO_MSGS
| L_POLL_MODE | R_POLL_MODE
| L_PORT | R_PORT
| L_RATE | R_RATE
| L_RD_ATOMIC | R_RD_ATOMIC
| L_SOCK_BUF_SIZE | R_SOCK_BUF_SIZE
| L_TIME | R_TIME
| L_TIMEOUT | R_TIMEOUT.

Definition PAR_INDEX_eq_dec (i j : PAR_INDEX) : {i = j} + {i <> j}.
Proof. decide equality. Defined.

Definition index_eqb (i j : PAR_INDEX) : bool :=
  if PAR_INDEX_eq_dec i j then true else false.

(** The rows in table order; [P_N] is their number. *)
Definition indices : list PAR_INDEX :=
  [ P_NULL;
    L_ACCESS_RECV; R_ACCESS_RECV; L_AFFINITY; R_AFFINITY; L_FLIP; R_FLIP;
    L_ID; R_ID; L_MSG_SIZE; R_MSG_SIZE; L_MTU_SIZE; R_MTU_SIZE;
    L_NO_MSGS; R_NO_MSGS; L_POLL_MODE; R_POLL_MODE; L_PORT; R_PORT;
    L_RATE; R_RATE; L_RD_ATOMIC; R_RD_ATOMIC;
    L_SOCK_BUF_SIZE; R_SOCK_BUF_SIZE; L_TIME; R_TIME;
    L_TIMEOUT; R_TIMEOUT ].

Definition P_N : nat := length indices.

(** What [ptr] points at: a member of the global [Req] (the local side) or
    of the static [RReq] (the request that goes to the server). *)
Inductive GLOBAL : Type := G_Req | G_RReq.

Inductive MEMBER : Type :=
| M_access_recv | M_affinity | M_flip | M_id | M_msg_size | M_mtu_size
| M_no_msgs | M_poll_mode | M_port | M_rate | M_rd_atomic
| M_sock_buf_size | M_time | M_timeout.

Definition ADDR : Type := (GLOBAL * MEMBER)%type.

Definition ADDR_eq_dec (a b : ADDR) : {a = b} + {a <> b}.
Proof. repeat decide equality. Defined.

(** What a member holds: a [uint32_t] or the C string in a
    [char\[STRSIZE\]].  The two setters write through [ptr] without looking
    at the row's type; every call in [qperf.c] agrees with it. *)
Inductive VALUE : Type :=
| V_u32 (l : Z)
| V_str (s : string).

(** The columns of [PAR_INFO] that the initialiser of [ParInfo] fills and
    nothing assigns afterwards ... *)
Record PAR_ROW : Type := {
  index : PAR_INDEX;
  type : option ascii;
  ptr : option ADDR
}.

(** ... and the columns that change while the program runs. *)
Record PAR_INFO : Type := {
  name : option string;
  set : bool;
  used : bool;
  inuse : bool
}.

Definition row (i : PAR_INDEX) (t : ascii) (g : GLOBAL) (m : MEMBER) :=
  {| index := i; type := Some t; ptr := Some (g, m) |}.

(** [ParInfo\[i\]], static part: the row stored at position [i]. *)
Definition ParInfo_row (i : PAR_INDEX) : PAR_ROW :=
  match i with
  | P_NULL => {| index := P_NULL; type := None; ptr := None |}
  | L_ACCESS_RECV => row L_ACCESS_RECV "l" G_Req M_access_recv
  | R_ACCESS_RECV => row R_ACCESS_RECV "l" G_RReq M_access_recv
  | L_AFFINITY => row L_AFFINITY "l" G_Req M_affinity
  | R_AFFINITY => row R_AFFINITY "l" G_RReq M_affinity
  | L_FLIP => row L_FLIP "l" G_Req M_flip
  | R_FLIP => row R_FLIP "l" G_RReq M_flip
  | L_ID => row L_ID "p" G_Req M_id
  | R_ID => row R_ID "p" G_RReq M_id
  | L_MSG_SIZE => row L_MSG_SIZE "s" G_Req M_msg_size
  | R_MSG_SIZE => row R_MSG_SIZE "s" G_RReq M_msg_size
  | L_MTU_SIZE => row L_MTU_SIZE "s" G_Req M_mtu_size
  | R_MTU_SIZE => row R_MTU_SIZE "s" G_RReq M_mtu_size
  | L_NO_MSGS => row L_NO_MSGS "l" G_Req M_no_msgs
  | R_NO_MSGS => row R_NO_MSGS "l" G_RReq M_no_msgs
  | L_POLL_MODE => row L_POLL_MODE "l" G_Req M_poll_mode
  | R_POLL_MODE => row R_POLL_MODE "l" G_RReq M_poll_mode
  | L_PORT => row L_PORT "l" G_Req M_port
  | R_PORT => row R_PORT "l" G_RReq M_port
  | L_RATE => row L_RATE "p" G_Req M_rate
  | R_RATE => row R_RATE "p" G_RReq M_rate
  | L_RD_ATOMIC => row L_RD_ATOMIC "l" G_Req M_rd_atomic
  | R_RD_ATOMIC => row R_RD_ATOMIC "l" G_RReq M_rd_atomic
  | L_SOCK_BUF_SIZE => row L_SOCK_BUF_SIZE "s" G_Req M_sock_buf_size
  | R_SOCK_BUF_SIZE => row R_SOCK_BUF_SIZE "s" G_RReq M_sock_buf_size
  | L_TIME => row L_TIME "t" G_Req M_time
  | R_TIME => row R_TIME "t" G_RReq M_time
  | L_TIMEOUT => row L_TIMEOUT "t" G_Req M_timeout
  | R_TIMEOUT => row R_TIMEOUT "t" G_RReq M_timeout
  end.

(** The part of the process state the table functions touch: the four
    changing columns of every row, and the members of [Req] and [RReq]. *)
Record state : Type := {
  ParInfo : PAR_INDEX -> PAR_INFO;
  Mem : ADDR -> VALUE
}.

(** All columns zero, as the initialiser leaves them; no member set. *)
Definition ParInfo0 (_ : PAR_INDEX) : PAR_INFO :=
  {| name := None; set := false; used := false; inuse := false |}.

Definition Mem0 (a : ADDR) : VALUE :=
  match snd a with
  | M_id | M_rate => V_str EmptyString
  | _ => V_u32 0
  end.

Definition state0 : state := {| ParInfo := ParInfo0; Mem := Mem0 |}.

Definition upd_info (i : PAR_INDEX) (f : PAR_INFO -> PAR_INFO) (st : state)
  : state :=
  {| ParInfo := fun j => if PAR_INDEX_eq_dec i j
                         then f (ParInfo st j) else ParInfo st j;
     Mem := Mem st |}.

Definition write (a : option ADDR) (v : VALUE) (st : state) : state :=
  match a with
  | None => st
  | Some a =>
      {| ParInfo := ParInfo st;
         Mem := fun b => if ADDR_eq_dec a b then v else Mem st b |}
  end.

(** The member a row points at, read back. *)
Definition value (st : state) (i : PAR_INDEX) : option VALUE :=
  match ptr (ParInfo_row i) with
  | Some a => Some (Mem st a)
  | None => None
  end.

(** [par_info]: [p = &ParInfo\[index\]], with the check that the row found
    there carries this very index. *)
Definition par_info (i : PAR_INDEX) : outcome PAR_INDEX :=
  let p := i in
  if index_eqb i (index (ParInfo_row p))
  then Ret p
  else Die "internal error: par_info: table out of order".

(** [par_set]: the row to store through, or [None] for the null pointer. *)
Definition par_set (nm : option string) (i : PAR_INDEX) (st : state)
  : outcome (state * option PAR_INDEX) :=
  match par_info i with
  | Ret p =>
      if index_eqb i P_NULL then Ret (st, None)
      else
        match nm with
        | Some n =>
            let st := upd_info p (fun q =>
              {| name := Some n; set := true;
                 used := used q; inuse := inuse q |}) st in
            Ret (st, Some p)
        | None =>
            let st := upd_info p (fun q =>
              {| name := name q; set := set q;
                 used := true; inuse := true |}) st in
            match name (ParInfo st p) with
            | Some _ => Ret (st, None)
            | None => Ret (st, Some p)
            end
        end
  | Die m => Die m
  | Exits c => Exits c
  | Undefined => Undefined
  end.

(** [setp_u32]: the value arrives as a [uint32_t]. *)
Definition setp_u32 (nm : option string) (i : PAR_INDEX) (l : Z) (st : state)
  : outcome state :=
  match par_set nm i st with
  | Ret (st, None) => Ret st
  | Ret (st, Some p) => Ret (write (ptr (ParInfo_row p)) (V_u32 (l mod 2 ^ 32)) st)
  | Die m => Die m
  | Exits c => Exits c
  | Undefined => Undefined
  end.

Section WithSTRSIZE.

(** [STRSIZE] comes from [qperf.h]. *)
Variable STRSIZE : nat.

(** [setp_str]: [strcpy] after the length check. *)
Definition setp_str (nm : option string) (i : PAR_INDEX) (s : string)
  (st : state) : outcome state :=
  match par_set nm i st with
  | Ret (st, None) => Ret st
  | Ret (st, Some p) =>
      if (STRSIZE <=? String.length s)%nat
      then Die (s ++ ": too long")
      else Ret (write (ptr (ParInfo_row p)) (V_str s) st)
  | Die m => Die m
  | Exits c => Exits c
  | Undefined => Undefined
  end.

End WithSTRSIZE.

(** [par_use] *)
Definition par_use (i : PAR_INDEX) (st : state) : outcome state :=
  match par_info i with
  | Ret p =>
      Ret (upd_info p (fun q =>
        {| name := name q; set := set q; used := true; inuse := true |}) st)
  | Die m => Die m
  | Exits c => Exits c
  | Undefined => Undefined
  end.

(** [par_isset] *)
Definition par_isset (i : PAR_INDEX) (st : state) : outcome bool :=
  match par_info i with
  | Ret p => Ret (match name (ParInfo st p) with Some _ => true | None => false end)
  | Die m => Die m
  | Exits c => Exits c
  | Undefined => Undefined
  end.

(** The head of [client], up to the calls of [par_use]: what runs at every
    client test start before the request is stamped and the test body is
    entered.  The first loop clears [inuse] row by row. *)
Definition clear_inuse (st : state) : state :=
  fold_left (fun st i =>
    upd_info i (fun q =>
      {| name := name q; set := set q; used := used q; inuse := false |}) st)
    indices st.

Definition client_start (st : state) : outcome state :=
  let st := clear_inuse st in
  b ← par_isset L_NO_MSGS st;
  st ← (if negb b then setp_u32 None L_TIME 2 st else Ret st);
  b ← par_isset R_NO_MSGS st;
  st ← (if negb b then setp_u32 None R_TIME 2 st else Ret st);
  st ← setp_u32 None L_TIMEOUT 5 st;
  st ← setp_u32 None R_TIMEOUT 5 st;
  st ← par_use L_AFFINITY st;
  st ← par_use R_AFFINITY st;
  st ← par_use L_TIME st;
  par_use R_TIME st.

End Par.

(** ** B. Framed I/O *)

Module Mesg.

(** What the environment answers during one turn of the [while (len)] loop
    of [send_recv_mesg]: the clock read by [get_seconds()], the return of
    [select], whether [fd] is still in the set selected on, and the return
    of [read] or [write].  A turn that ends early leaves the later answers
    unused. *)
Record turn : Type := {
  now : Q;
  select_ret : Z;
  fd_isset : bool;
  func_ret : Z
}.

(** One call [func(fd, buf, len)]: where in the caller's buffer it starts,
    how many bytes it asks for and what it returns.  [buf] is passed as it
    came in on every turn, so [offset] is always 0. *)
Record io_call : Type := {
  offset : Z;
  count : Z;
  ret : Z
}.

(** A finished call: the value returned, the line written to stderr by
    [error] or [syserror] (the latter appends [strerror(errno)] when
    [errno] is set, which is left out), and the I/O calls made. *)
Record run : Type := {
  retval : Z;
  stderr : option string;
  calls : list io_call
}.

Definition failed (msg : string) (io : list io_call) : run :=
  {| retval := 0; stderr := Some msg; calls := io |}.

Definition action (sr : ascii) : string :=
  if Ascii.eqb sr "r" then "receive"%string else "send"%string.

(** The bytes moved by the calls of a run. *)
Definition transferred (io : list io_call) : Z :=
  fold_right (fun c acc => ret c + acc) 0 io.

Local Open Scope string_scope.
Local Open Scope Z_scope.

(** The loop, entered with [len] bytes to go.  [None]: the answers ran out
    before the loop was left.  [read] and [write] return at most the count
    they are given, so [len -= n] stays between 0 and the initial [len]
    and the [int] arithmetic never wraps. *)
Fixpoint mesg_loop (act item : string) (is_client : bool) (etime : Q)
  (len : Z) (io : list io_call) (env : list turn) {struct env}
  : option run :=
  if len =? 0 then Some {| retval := 1; stderr := None; calls := io |}
  else
    match env with
    | [] => None
    | t :: env' =>
        let time := (etime - now t)%Q in
        if Qle_bool time 0
        then Some (failed ("failed to " ++ act ++ " " ++ item
                           ++ ": timed out") io)
        else if select_ret t <? 0
        then Some (failed ("failed to " ++ act ++ " " ++ item
                           ++ ": select failed") io)
        else if negb (fd_isset t)
        then mesg_loop act item is_client etime len io env'
        else
          let n := func_ret t in
          let io := (io ++ [{| offset := 0; count := len; ret := n |}])%list in
          if n <? 0
          then Some (failed ("failed to " ++ act ++ " " ++ item) io)
          else if n =? 0
          then
            let side := if is_client then "server" else "client" in
            Some (failed ("failed to " ++ act ++ " " ++ item ++ ": "
                          ++ side ++ " not responding") io)
          else mesg_loop act item is_client etime (len - n) io env'
    end.

(** [send_recv_mesg(sr, item, fd, buf, len)].  [start] is the clock at
    entry, [Req_timeout] the value of [Req.timeout]. *)
Definition send_recv_mesg (Req_timeout : Z) (is_client : bool)
  (sr : ascii) (item : string) (len : Z) (start : Q) (env : list turn)
  : option run :=
  let etime := (start + inject_Z Req_timeout)%Q in
  mesg_loop (action sr) item is_client etime len [] env.

End Mesg.

(** ** F. The accept loop of the server *)

Module Server.

Import Codec.

Definition VER_MAJ : Z := 0.
Definition VER_MIN : Z := 2.
Definition VER_INC : Z := 0.

Local Open Scope string_scope.
Local Open Scope Z_scope.

(** [Tests], by name; the verbs tests are compiled in under
    [HAVE_LIBIBVERBS]. *)
Definition Tests (HAVE_LIBIBVERBS : bool) : list string :=
  ([ "conf"; "quit"; "rds_bw"; "rds_lat"; "sdp_bw"; "sdp_lat";
    "tcp_bw"; "tcp_lat"; "udp_bw"; "udp_lat" ]
  ++ (if HAVE_LIBIBVERBS
      then [ "rc_bi_bw"; "rc_bw"; "rc_compare_swap_mr"; "rc_fetch_add_mr";
             "rc_lat"; "rc_rdma_read_bw"; "rc_rdma_read_lat";
             "rc_rdma_write_bw"; "rc_rdma_write_lat";
             "rc_rdma_write_poll_lat"; "uc_bi_bw"; "uc_bw"; "uc_lat";
             "uc_rdma_write_bw"; "uc_rdma_write_lat";
             "uc_rdma_write_poll_lat"; "ud_bi_bw"; "ud_bw"; "ud_lat";
             "ver_rc_compare_swap"; "ver_rc_fetch_add" ]
      else []))%list.

(** What one turn of the [for (;;)] loop does with a connection. *)
Inductive reaction : Type :=
| NoRequest
| Rejected (msg : string)
| Served (test : string).

(** ["%d.%d.%d"] *)
Definition fmt_version (maj min inc : Z) : string :=
  str (fmt_d maj) ++ "." ++ str (fmt_d min) ++ "." ++ str (fmt_d inc).

(** The body of [if (Req.ver_maj != VER_MAJ || Req.ver_min != VER_MIN)]:
    the line handed to [error]. *)
Definition upgrade_message (Req : REQ) : string :=
  let h_maj := ver_maj Req in
  let h_min := ver_min Req in
  let h_inc := ver_inc Req in
  let l_maj := VER_MAJ in
  let l_min := VER_MIN in
  let l_inc := VER_INC in
  let low := "client" in
  let '(h_maj, h_min, h_inc, l_maj, l_min, l_inc, low) :=
    if (l_maj >? h_maj) || ((l_maj =? h_maj) && (l_min >? h_min))
    then (VER_MAJ, VER_MIN, VER_INC,
          ver_maj Req, ver_min Req, ver_inc Req, "server")
    else (h_maj, h_min, h_inc, l_maj, l_min, l_inc, low) in
  "upgrade " ++ low ++ " from " ++ fmt_version l_maj l_min l_inc
  ++ " to " ++ fmt_version h_maj h_min h_inc.

(** One turn: [request] is what [server_recv_request] left in [Req], or
    [None] when it returned 0. *)
Definition server_turn (verbs : bool) (request : option REQ) : reaction :=
  match request with
  | None => NoRequest
  | Some Req =>
      if negb (ver_maj Req =? VER_MAJ) || negb (ver_min Req =? VER_MIN)
      then Rejected (upgrade_message Req)
      else if Z.of_nat (length (Tests verbs)) <=? req_index Req
      then Rejected ("server: bad request index: "
                     ++ str (fmt_d (req_index Req)))
      else Served (nth (Z.to_nat (req_index Req)) (Tests verbs) "")
  end.

(** The loop itself, over the connections that arrive.  [continue] and the
    end of the loop body both lead to the next connection. *)
Fixpoint server (verbs : bool) (incoming : list (option REQ))
  : list reaction :=
  match incoming with
  | [] => []
  | request :: rest => server_turn verbs request :: server verbs rest
  end.

(** A request with the given version and test index, all else zero. *)
Definition request (maj min inc index : Z) : REQ :=
  mkREQ maj min inc index 0 0 0 0 0 0 0 0 0 0 0 0 [] [].

End Server.

(** ** D. Argument values: [arg_size] *)

Module Args.

Local Open Scope string_scope.
Local Open Scope Z_scope.

(** *** The [long double] of x86-64

    [arg_size] computes in [long double]: a 64-bit significand, normal
    numbers from [2^-16382] up to below [2^16384], subnormals in steps of
    [2^-16445].  A finite value is the rational it stands for (the two
    zeros are not told apart: they compare and convert alike).  Rounding is
    to nearest, ties to even. *)
Inductive ldouble : Type :=
| Fin (q : Q)
| Inf (negative : bool)
| NaN.

(** [num / den] rounded to the nearest integer, ties to even
    ([0 <= num], [0 < den]). *)
Definition round_div (num den : Z) : Z :=
  let m := num / den in
  let r := num mod den in
  if 2 * r <? den then m
  else if 2 * r =? den then (if Z.even m then m else m + 1)
  else m + 1.

(** [floor (log2 (p / q))] for positive [p], [q]. *)
Definition ilog2 (p q : Z) : Z :=
  let e0 := Z.log2 p - Z.log2 q in
  let below :=
    if 0 <=? e0 then p <? q * 2 ^ e0 else p * 2 ^ (- e0) <? q in
  if below then e0 - 1 else e0.

(** The [long double] nearest to [p / q] ([0 < p], [0 < q]): the quotient is
    scaled by [2^sc] so that its integer part carries the 64 significant
    bits (fewer in the subnormal range), rounded there and scaled back. *)
Definition ld_of_pos (p q : Z) : ldouble :=
  let e := ilog2 p q in
  let sc := Z.min (63 - e) 16445 in
  if 0 <=? sc
  then Fin (Qmake (round_div (p * 2 ^ sc) q) (Z.to_pos (2 ^ sc)))
  else
    let v := round_div p (q * 2 ^ (- sc)) * 2 ^ (- sc) in
    if 2 ^ 16384 <=? v then Inf false else Fin (inject_Z v).

Definition ld_neg (d : ldouble) : ldouble :=
  match d with
  | Fin q => Fin (- q)
  | Inf n => Inf (negb n)
  | NaN => NaN
  end.

Definition ld_of_Q (x : Q) : ldouble :=
  match Qnum x with
  | Z0 => Fin 0
  | Zpos p => ld_of_pos (Zpos p) (Zpos (Qden x))
  | Zneg p => ld_neg (ld_of_pos (Zpos p) (Zpos (Qden x)))
  end.

(** [d * k] for an [int] constant [k > 0], which converts exactly. *)
Definition ld_mul (d : ldouble) (k : Z) : ldouble :=
  match d with
  | Fin q => ld_of_Q (q * inject_Z k)
  | Inf n => Inf n
  | NaN => NaN
  end.

(** [d < 0] *)
Definition ld_neg0 (d : ldouble) : bool :=
  match d with
  | Fin q => Qnum q <? 0
  | Inf n => n
  | NaN => false
  end.

(** [(long)d] with a 64-bit [long]: the fraction is dropped; a value that
    does not fit has no defined result. *)
Definition to_long (d : ldouble) : outcome Z :=
  match d with
  | Fin q =>
      let t := Z.quot (Qnum q) (Zpos (Qden q)) in
      if (- 2 ^ 63 <=? t) && (t <? 2 ^ 63) then Ret t else Undefined
  | _ => Undefined
  end.

(** *** [strtold] (C library, "C" locale)

    The subject sequence after optional white space and sign is a decimal
    number with optional fraction and exponent, a hexadecimal number
    ([0x], optional fraction, optional binary exponent), [inf]/[infinity]
    or [nan] with an optional parenthesised tag.  The result is correctly
    rounded.  Without a subject sequence the value is 0 and the end pointer
    is the start of the string. *)
Definition isspace (c : ascii) : bool :=
  let n := nat_of_ascii c in
  (n =? 32)%nat || ((9 <=? n)%nat && (n <=? 13)%nat).

Definition tolower (c : ascii) : ascii :=
  let n := nat_of_ascii c in
  if (65 <=? n)%nat && (n <=? 90)%nat then ascii_of_nat (n + 32) else c.

Definition hex_val (c : ascii) : option Z :=
  let n := nat_of_ascii (tolower c) in
  if isdigit c then Some (digit_val c)
  else if (97 <=? n)%nat && (n <=? 102)%nat then Some (Z.of_nat n - 87)
  else None.

Definition isxdigit (c : ascii) : bool :=
  match hex_val c with Some _ => true | None => false end.

Definition isalnum_ (c : ascii) : bool :=
  let n := nat_of_ascii (tolower c) in
  isdigit c || ((97 <=? n)%nat && (n <=? 122)%nat) || (n =? 95)%nat.

Fixpoint span (f : ascii -> bool) (l : list ascii)
  : list ascii * list ascii :=
  match l with
  | c :: l' =>
      if f c then let '(a, b) := span f l' in (c :: a, b) else ([], l)
  | [] => ([], [])
  end.

(** The number written by a digit sequence in base [b]. *)
Definition digits_val (b : Z) (ds : list ascii) : Z :=
  fold_left (fun acc c => acc * b + default 0 (hex_val c)) ds 0.

(** [l] starts with [pre], letter case aside: what follows. *)
Fixpoint skip_prefix (pre l : list ascii) : option (list ascii) :=
  match pre, l with
  | [], _ => Some l
  | a :: pre', c :: l' =>
      if Ascii.eqb a (tolower c) then skip_prefix pre' l' else None
  | _ :: _, [] => None
  end.

(** An exponent part: the letter [mark], an optional sign, digits.  Without
    digits nothing is consumed. *)
Definition exponent (mark : ascii) (l : list ascii) : Z * list ascii :=
  match l with
  | c :: l1 =>
      if Ascii.eqb (tolower c) mark then
        let '(neg, l2) :=
          match l1 with
          | "-"%char :: l2 => (true, l2)
          | "+"%char :: l2 => (false, l2)
          | _ => (false, l1)
          end in
        match span isdigit l2 with
        | ([], _) => (0, l)
        | (ds, l3) =>
            let e := digits_val 10 ds in ((if neg then - e else e), l3)
        end
      else (0, l)
  | [] => (0, l)
  end.

(** A mantissa in base [b]: digits with at most one radix point and at
    least one digit; the value is [m / b^frac]. *)
Definition mantissa (f : ascii -> bool) (l : list ascii)
  : option (list ascii * nat * list ascii) :=
  let '(ip, l1) := span f l in
  let '(fp, l2) :=
    match l1 with
    | "."%char :: l1' => let '(fp, l2) := span f l1' in (Some fp, l2)
    | _ => (None, l1)
    end in
  match ip, fp with
  | [], None => None
  | [], Some [] => None
  | _, None => Some (ip, O, l1)
  | _, Some fp => Some ((ip ++ fp)%list, length fp, l2)
  end.

(** [m * base^e] as a rational ([0 < base]). *)
Definition scale (m : Z) (base e : Z) : Q :=
  if 0 <=? e then inject_Z (m * base ^ e)
  else Qmake m (Z.to_pos (base ^ (- e))).

(** The unsigned subject sequence: its value and what follows it. *)
Definition strtold_unsigned (l : list ascii) : option (ldouble * list ascii) :=
  match skip_prefix (list_ascii_of_string "infinity") l with
  | Some rest => Some (Inf false, rest)
  | None =>
  match skip_prefix (list_ascii_of_string "inf") l with
  | Some rest => Some (Inf false, rest)
  | None =>
  match skip_prefix (list_ascii_of_string "nan") l with
  | Some rest =>
      match rest with
      | "("%char :: r1 =>
          match span isalnum_ r1 with
          | (_, ")"%char :: r2) => Some (NaN, r2)
          | _ => Some (NaN, rest)
          end
      | _ => Some (NaN, rest)
      end
  | None =>
  let hex :=
    match skip_prefix (list_ascii_of_string "0x") l with
    | Some l1 =>
        match mantissa isxdigit l1 with
        | Some (ds, frac, l2) =>
            let '(e, l3) := exponent "p" l2 in
            Some (ld_of_Q (scale (digits_val 16 ds) 2
                             (e - 4 * Z.of_nat frac)), l3)
        | None => None
        end
    | None => None
    end in
  match hex with
  | Some r => Some r
  | None =>
      match mantissa isdigit l with
      | Some (ds, frac, l2) =>
          let '(e, l3) := exponent "e" l2 in
          Some (ld_of_Q (scale (digits_val 10 ds) 10
                           (e - Z.of_nat frac)), l3)
      | None => None
      end
  end end end end.

(** [strtold(nptr, &p)]: the value and the string [p] is left pointing at. *)
Definition strtold (nptr : string) : ldouble * string :=
  let l := list_ascii_of_string nptr in
  let l1 := snd (span isspace l) in
  let '(neg, l2) :=
    match l1 with
    | "-"%char :: l2 => (true, l2)
    | "+"%char :: l2 => (false, l2)
    | _ => (false, l1)
    end in
  match strtold_unsigned l2 with
  | Some (d, rest) => ((if neg then ld_neg d else d), str rest)
  | None => (Fin 0, nptr)
  end.

(** [streq] is a macro of [qperf.h]: equality of C strings. *)
Definition streq (a b : string) : bool := String.eqb a b.

(** *** [arg_size]

    [argv] is [*argvp]: the option being handled and what follows it on
    the command line.  The result is the value and the advanced [*argvp]. *)
Definition arg_size (argv : list string) : outcome (Z * list string) :=
  match argv with
  | [] => Undefined
  | [argv0] => Die ("Missing argument to " ++ argv0)
  | argv0 :: argv1 :: rest =>
      let '(d, p) := strtold argv1 in
      if ld_neg0 d
      then Die (argv0 ++ " requires a non-negative number")
      else
        l ← (if streq p ""
             then to_long d
             else if streq p "kb" || streq p "k"
             then to_long (ld_mul d 1000)
             else if streq p "mb" || streq p "m"
             then to_long (ld_mul d (1000 * 1000))
             else if streq p "gb" || streq p "g"
             then to_long (ld_mul d (1000 * 1000 * 1000))
             else if streq p "kib" || streq p "K"
             then to_long (ld_mul d 1024)
             else if streq p "mib" || streq p "M"
             then to_long (ld_mul d (1024 * 1024))
             else if streq p "gib" || streq p "G"
             then to_long (ld_mul d (1024 * 1024 * 1024))
             else Die ("Bad argument: " ++ argv1));
        Ret (l, rest)
  end.

(** The suffix table as the specification words it: lowercase [k], [m],
    [g] (and [kb], [mb], [gb]) stand for [10^3], [10^6], [10^9]; uppercase
    [K], [M], [G] (and [kib], [mib], [gib]) for [1024], [1024^2],
    [1024^3]; no suffix means bytes ([Some None]); anything else is not a
    suffix ([None]). *)
Definition size_suffix (p : string) : option (option Z) :=
  if String.eqb p "" then Some None
  else if String.eqb p "k" || String.eqb p "kb" then Some (Some (10 ^ 3))
  else if String.eqb p "m" || String.eqb p "mb" then Some (Some (10 ^ 6))
  else if String.eqb p "g" || String.eqb p "gb" then Some (Some (10 ^ 9))
  else if String.eqb p "K" || String.eqb p "kib" then Some (Some 1024)
  else if String.eqb p "M" || String.eqb p "mib" then Some (Some (1024 ^ 2))
  else if String.eqb p "G" || String.eqb p "gib" then Some (Some (1024 ^ 3))
  else None.

(** What may follow the digits of a whole number without becoming part of
    the number: nothing, or a character that is no digit, no radix point,
    no [x] after a leading zero and no exponent letter. *)
Definition ends_number (l : list ascii) : Prop :=
  match l with
  | [] => True
  | c :: _ =>
      isdigit c = false /\ Ascii.eqb c "." = false
      /\ Ascii.eqb "x" (tolower c) = false
      /\ Ascii.eqb (tolower c) "e" = false
  end.

(** *** [arg_long], [arg_strn], [arg_time] *)

Definition LONG_MAX : Z := 2 ^ 63 - 1.
Definition LONG_MIN : Z := - 2 ^ 63.

(** [strtol(nptr, &p, 10)]: white space, an optional sign, digits; the
    value is held at [LONG_MIN]/[LONG_MAX] when it is out of range.
    Without digits the value is 0 and [p] is [nptr]. *)
Definition strtol (nptr : string) : Z * string :=
  let l := list_ascii_of_string nptr in
  let l1 := snd (span isspace l) in
  let '(neg, l2) :=
    match l1 with
    | "-"%char :: l2 => (true, l2)
    | "+"%char :: l2 => (false, l2)
    | _ => (false, l1)
    end in
  match span isdigit l2 with
  | ([], _) => (0, nptr)
  | (ds, rest) =>
      let v := digits_val 10 ds in
      let v := if neg then - v else v in
      (Z.max LONG_MIN (Z.min v LONG_MAX), str rest)
  end.

Definition arg_long (argv : list string) : outcome (Z * list string) :=
  match argv with
  | [] => Undefined
  | [argv0] => Die ("Missing argument to " ++ argv0)
  | argv0 :: argv1 :: rest =>
      let '(l, p) := strtol argv1 in
      if negb (streq p "") then Die ("Bad argument: " ++ argv1)
      else if l <? 0
      then Die (argv0 ++ " requires a non-negative number")
      else Ret (l, rest)
  end.

Definition arg_strn (argv : list string) : outcome (string * list string) :=
  match argv with
  | [] => Undefined
  | [argv0] => Die ("Missing argument to " ++ argv0)
  | argv0 :: argv1 :: rest => Ret (argv1, rest)
  end.

Definition arg_time (argv : list string) : outcome (Z * list string) :=
  match argv with
  | [] => Undefined
  | [argv0] => Die ("Missing argument to " ++ argv0)
  | argv0 :: argv1 :: rest =>
      let '(d, p) := strtold argv1 in
      if ld_neg0 d
      then Die (argv0 ++ " requires a non-negative number")
      else
        l ← match p with
            | EmptyString => to_long d
            | String u p1 =>
                if negb (streq p1 "") then Die ("Bad argument: " ++ argv1)
                else if Ascii.eqb u "s" || Ascii.eqb u "S"
                then to_long d
                else if Ascii.eqb u "m" || Ascii.eqb u "M"
                then to_long (ld_mul d 60)
                else if Ascii.eqb u "h" || Ascii.eqb u "H"
                then to_long (ld_mul d (60 * 60))
                else if Ascii.eqb u "d" || Ascii.eqb u "D"
                then to_long (ld_mul d (60 * 60 * 24))
                else Die ("Bad argument: " ++ argv1)
            end;
        Ret (l, rest)
  end.

End Args.

(** ** I. Presentation: [commify], [place_any], [nice_1024] *)

Module Show.

Local Open Scope string_scope.
Local Open Scope Z_scope.

Definition NUL : ascii := "000"%char.

(** [data\[i\]] in a buffer; past its end the model reads [NUL]. *)
Definition at_ (data : list ascii) (i : Z) : ascii :=
  if i <? 0 then NUL else nth (Z.to_nat i) data NUL.

(** The C string held by a buffer: the characters before the first NUL. *)
Definition c_str (buf : list ascii) : list ascii :=
  fst (Args.span (fun c => negb (Ascii.eqb c NUL)) buf).

(** [while (--seqS >= 0) if (!isdigit(data\[seqS\])) break;] *)
Fixpoint scan_back (fuel : nat) (data : list ascii) (seqS : Z) : Z :=
  match fuel with
  | O => seqS
  | S fuel' =>
      let seqS := seqS - 1 in
      if seqS >=? 0
      then if negb (isdigit (at_ data seqS)) then seqS
           else scan_back fuel' data seqS
      else seqS
  end.

(** The copying loop of [commify], run in place from the end of the
    enlarged buffer; it is left when the last comma is written. *)
Fixpoint insert_commas (fuel : nat) (data : list ascii)
  (s d seqE noCommas : Z) : list ascii :=
  match fuel with
  | O => data
  | S fuel' =>
      let data := <[Z.to_nat d := at_ data s]> data in
      let d := d - 1 in
      let s := s - 1 in
      let n := seqE - s in
      if (n >? 0) && (Z.rem n 3 =? 0)
      then
        let data := <[Z.to_nat d := ","%char]> data in
        let d := d - 1 in
        let noCommas := noCommas - 1 in
        if noCommas =? 0 then data
        else insert_commas fuel' data s d seqE noCommas
      else insert_commas fuel' data s d seqE noCommas
  end.

(** [commify(data)]; [None] is the null pointer.  The string sits in its
    buffer with the terminating NUL; [realloc] extends the buffer by
    [noCommas] bytes. *)
Definition commify (UnifyUnits : bool) (data : option (list ascii))
  : option (list ascii) :=
  match data with
  | None => None
  | Some data =>
      if UnifyUnits then Some data
      else
        let dataLen := Z.of_nat (length data) in
        let fuel := S (length data) in
        let seqE := dataLen in
        let seqS := scan_back fuel data dataLen in
        let '(seqS, seqE) :=
          if (seqS >=? 0) && Ascii.eqb (at_ data seqS) "."
          then (scan_back fuel data seqS, seqS)
          else (seqS, seqE) in
        let seqE := seqE - 1 in
        let seqS := seqS + 1 in
        let noCommas := Z.quot (seqE - seqS) 3 in
        if noCommas =? 0 then Some data
        else
          let buf := (data ++ [NUL] ++ repeat NUL (Z.to_nat noCommas))%list in
          let s := dataLen in
          let d := dataLen + noCommas in
          Some (c_str (insert_commas fuel buf s d seqE noCommas))
  end.

(** A row of [ShowTable]. *)
Record SHOW : Type := {
  pref : option string;
  name : string;
  data : option string;
  unit : option string;
  altn : option string
}.

(** [place_any]: the table is the rows placed so far, [ShowIndex] their
    number; [ShowTable] has 256 entries. *)
Definition place_any (pref : option string) (name : string)
  (unit : option string) (data altn : option (list ascii))
  (ShowTable : list SHOW) : outcome (list SHOW) :=
  let ShowIndex := S (length ShowTable) in
  if (256 <? ShowIndex)%nat
  then Die "internal error: Need to increase size of ShowTable"
  else Ret (ShowTable ++ [{| pref := pref; name := name; unit := unit;
                             data := option_map str data;
                             altn := option_map str altn |}])%list.

Definition tab : list string := [ "KiB"; "MiB"; "GiB"; "TiB" ].

(** The [while] loop of [nice_1024]; [None] when it returns 0 from inside
    the loop, else [val] and [n] on leaving it.  There are at most
    [cardof(tab) - 1] turns. *)
Fixpoint nice_loop (fuel : nat) (val n : Z) : option (Z * Z) :=
  if (val >=? 1024) && (n <? Z.of_nat (length tab) - 1)
  then
    match fuel with
    | O => Some (val, n)
    | S fuel' =>
        if negb (Z.rem val 1024 =? 0) then None
        else nice_loop fuel' (Z.quot val 1024) (n + 1)
    end
  else Some (val, n).

(** [nice_1024(pref, name, value)]: the value returned and the table. *)
Definition nice_1024 (UnifyUnits : bool) (pref : option string)
  (name : string) (value : Z) (ShowTable : list SHOW)
  : outcome (Z * list SHOW) :=
  let val := value in
  if (val <? 1024) || negb (Z.rem val 1024 =? 0) then Ret (0, ShowTable)
  else
    let val := Z.quot val 1024 in
    match nice_loop (length tab - 1) val 0 with
    | None => Ret (0, ShowTable)
    | Some (val, n) =>
        let data := fmt_d val in
        let altn := fmt_d value in
        t ← place_any pref name (Some (nth (Z.to_nat n) tab ""))
              (commify UnifyUnits (Some data))
              (commify UnifyUnits (Some altn)) ShowTable;
        Ret (1, t)
    end.

End Show.

(** ** E. Tick snapshot: [get_times] *)

Module Times.

Local Open Scope string_scope.
Local Open Scope Z_scope.

Definition T_N : nat := Codec.T_N.

Definition LLONG_MAX : Z := 2 ^ 63 - 1.

(** [*p]: the first character, NUL at the end of the text. *)
Definition deref (p : list ascii) : ascii := hd Show.NUL p.

Definition is_space (c : ascii) : bool := Ascii.eqb c " ".
Definition is_newline (c : ascii) : bool := Ascii.eqb c "010".

(** [strtoll(p, 0, 10)] where [p] points at a digit: the run of digits,
    held at [LLONG_MAX] when it is too large. *)
Definition strtoll (p : list ascii) : Z :=
  Z.min (Args.digits_val 10 (fst (Args.span isdigit p))) LLONG_MAX.

(** [while ( *p == ' ') ++p;] *)
Definition skip_spaces (p : list ascii) : list ascii :=
  snd (Args.span is_space p).

(** [while ( *p != ' ' && *p != '\n' && *p != '\0') ++p;] *)
Definition skip_field (p : list ascii) : list ascii :=
  snd (Args.span (fun c => negb (is_space c) && negb (is_newline c)) p).

(** The [for (n = 1; n < T_N; ++n)] loop with [left = T_N - n] turns to
    go: [n] and [timex] when it is left, by its condition or by [break]. *)
Fixpoint fields (left n : nat) (p : list ascii) (timex : list Z)
  : outcome (nat * list Z) :=
  match left with
  | O => Ret (n, timex)
  | S left' =>
      let p := skip_spaces p in
      if negb (isdigit (deref p))
      then
        if negb (is_newline (deref p)) || (n <? T_N - 1)%nat
        then Die "/proc/stat has bad format"
        else Ret (n, timex)
      else
        let timex := <[n := strtoll p]> timex in
        fields left' (S n) (skip_field p) timex
  end.

(** [while (n < T_N) timex\[n++\] = 0;] *)
Fixpoint zero_fill (left n : nat) (timex : list Z) : list Z :=
  match left with
  | O => timex
  | S left' => zero_fill left' (S n) (<[n := 0]> timex)
  end.

(** [strncmp(buf, "cpu ", 4)] is zero. *)
Definition starts_with_cpu (buf : list ascii) : bool :=
  match buf with
  | c0 :: c1 :: c2 :: c3 :: _ =>
      Ascii.eqb c0 "c" && Ascii.eqb c1 "p" && Ascii.eqb c2 "u"
      && Ascii.eqb c3 " "
  | _ => false
  end.

(** [#define BUFSIZE 1024] *)
Definition BUFSIZE : nat := 1024.

(** [get_times(timex)]: [real] is what [times()] returns, [file] the text
    of [/proc/stat], [timex] the array as it is on entry.  The one
    [read(ProcStatFD, buf, sizeof(buf)-1)] after the [lseek] to the start
    delivers the first [BUFSIZE - 1] bytes of the file, or all of it when
    it is shorter, and [buf\[n\] = 0] ends the text there: nothing behind
    byte [BUFSIZE - 1] of the file is looked at. *)
Definition get_times (real : Z) (file : string) (timex : list Z)
  : outcome (list Z) :=
  let timex := <[0%nat := real]> timex in
  let buf := take (BUFSIZE - 1) (list_ascii_of_string file) in
  if negb (starts_with_cpu buf)
  then Die "/proc/stat does not start with 'cpu '"
  else
    let p := skipn 3 buf in
    '(n, timex) ← fields (T_N - 1) 1 p timex;
    Ret (zero_fill (T_N - n) n timex).

(** The first lines the statements below speak of: [cpu], then fields,
    each a run of one or more spaces followed by decimal digits, then
    possibly more spaces, the newline and whatever follows it in the
    file. *)
Record field : Type := {
  gap : nat;
  digits : list ascii
}.

Definition field_ok (f : field) : Prop :=
  digits f <> [] /\ forallb isdigit (digits f) = true.

Definition render (f : field) : list ascii :=
  (repeat " "%char (S (gap f)) ++ digits f)%list.

Definition line_tail (fs : list field) (trail : nat) (rest : list ascii)
  : list ascii :=
  (concat (map render fs) ++ repeat " "%char trail ++ "010"%char :: rest)%list.

Definition cpu_line (fs : list field) (trail : nat) (rest : list ascii)
  : list ascii :=
  (list_ascii_of_string "cpu" ++ line_tail fs trail rest)%list.

(** The number a field stands for, as [strtoll] reads it. *)
Definition field_value (f : field) : Z :=
  Z.min (Args.digits_val 10 (digits f)) LLONG_MAX.

Definition dec (gap : nat) (digits : string) : field :=
  {| gap := gap; digits := list_ascii_of_string digits |}.

End Times.

(** ** D, F. The driver: [do_args], [client], [main] *)

Module Main.

Import Par.

Local Open Scope string_scope.
Local Open Scope Z_scope.

(** An [OPTION]: the function of the row together with the [arg1] and
    [arg2] it reads.  A missing initialiser is 0: [P_NULL] as an index, no
    second character for [opt_misc]. *)
Inductive HANDLER : Type :=
| opt_long (arg1 arg2 : PAR_INDEX)
| opt_size (arg1 arg2 : PAR_INDEX)
| opt_strn (arg1 arg2 : PAR_INDEX)
| opt_time (arg1 arg2 : PAR_INDEX)
| opt_misc (arg1 : ascii) (arg2 : option ascii)
| opt_help
| opt_vers.

Record OPTION : Type := opt {
  name : string;
  server_valid : bool;
  func : HANDLER
}.

Definition Options : list OPTION :=
  [
    opt "--access_recv" false (opt_long L_ACCESS_RECV R_ACCESS_RECV);
    opt "-Ar" false (opt_long L_ACCESS_RECV R_ACCESS_RECV);
    opt "--affinity" false (opt_long L_AFFINITY R_AFFINITY);
    opt "-a" false (opt_long L_AFFINITY R_AFFINITY);
    opt "--loc_affinity" false (opt_long L_AFFINITY P_NULL);
    opt "-la" false (opt_long L_AFFINITY P_NULL);
    opt "--rem_affinity" false (opt_long R_AFFINITY P_NULL);
    opt "-ra" false (opt_long R_AFFINITY P_NULL);
    opt "--debug" true (opt_misc "D" None);
    opt "-D" true (opt_misc "D" None);
    opt "--flip" false (opt_long L_FLIP R_FLIP);
    opt "-f" false (opt_long L_FLIP R_FLIP);
    opt "--help" false (opt_help);
    opt "-h" false (opt_help);
    opt "--host" false (opt_misc "H" None);
    opt "-H" false (opt_misc "H" None);
    opt "--id" false (opt_strn L_ID R_ID);
    opt "-i" false (opt_strn L_ID R_ID);
    opt "--loc_id" false (opt_strn L_ID P_NULL);
    opt "-li" false (opt_strn L_ID P_NULL);
    opt "--rem_id" false (opt_strn R_ID P_NULL);
    opt "-ri" false (opt_strn R_ID P_NULL);
    opt "--listen_port" true (opt_misc "l" (Some "p"%char));
    opt "-lp" true (opt_misc "l" (Some "p"%char));
    opt "--msg_size" false (opt_size L_MSG_SIZE R_MSG_SIZE);
    opt "-m" false (opt_size L_MSG_SIZE R_MSG_SIZE);
    opt "--mtu_size" false (opt_size L_MTU_SIZE R_MTU_SIZE);
    opt "-M" false (opt_size L_MTU_SIZE R_MTU_SIZE);
    opt "--no_msgs" false (opt_long L_NO_MSGS R_NO_MSGS);
    opt "-n" false (opt_long L_NO_MSGS R_NO_MSGS);
    opt "--poll" false (opt_long L_POLL_MODE R_POLL_MODE);
    opt "-P" false (opt_long L_POLL_MODE R_POLL_MODE);
    opt "--loc_poll" false (opt_long L_POLL_MODE P_NULL);
    opt "-lP" false (opt_long L_POLL_MODE P_NULL);
    opt "--rem_poll" false (opt_long R_POLL_MODE P_NULL);
    opt "-rP" false (opt_long R_POLL_MODE P_NULL);
    opt "--port" false (opt_long L_PORT R_PORT);
    opt "-p" false (opt_long L_PORT R_PORT);
    opt "--precision" false (opt_misc "e" None);
    opt "-e" false (opt_misc "e" None);
    opt "--rate" false (opt_strn L_RATE R_RATE);
    opt "-r" false (opt_strn L_RATE R_RATE);
    opt "--loc_rate" false (opt_strn L_RATE P_NULL);
    opt "-lr" false (opt_strn L_RATE P_NULL);
    opt "--rem_rate" false (opt_strn R_RATE P_NULL);
    opt "-rr" false (opt_strn R_RATE P_NULL);
    opt "-rd_atomic" false (opt_long L_RD_ATOMIC R_RD_ATOMIC);
    opt "-R" false (opt_long L_RD_ATOMIC R_RD_ATOMIC);
    opt "--loc_rd_atomic" false (opt_long L_RD_ATOMIC P_NULL);
    opt "-lR" false (opt_long L_RD_ATOMIC P_NULL);
    opt "--rem_rd_atomic" false (opt_long R_RD_ATOMIC P_NULL);
    opt "-rR" false (opt_long R_RD_ATOMIC P_NULL);
    opt "--sock_buf_size" false (opt_size L_SOCK_BUF_SIZE R_SOCK_BUF_SIZE);
    opt "-S" false (opt_size L_SOCK_BUF_SIZE R_SOCK_BUF_SIZE);
    opt "--loc_sock_buf_size" false (opt_size L_SOCK_BUF_SIZE P_NULL);
    opt "-lS" false (opt_size L_SOCK_BUF_SIZE P_NULL);
    opt "--rem_sock_buf_size" false (opt_size R_SOCK_BUF_SIZE P_NULL);
    opt "-rS" false (opt_size R_SOCK_BUF_SIZE P_NULL);
    opt "--time" false (opt_time L_TIME R_TIME);
    opt "-t" false (opt_time L_TIME R_TIME);
    opt "--timeout" false (opt_time L_TIMEOUT R_TIMEOUT);
    opt "-T" false (opt_time L_TIMEOUT R_TIMEOUT);
    opt "--loc_timeout" false (opt_time L_TIMEOUT P_NULL);
    opt "-lT" false (opt_time L_TIMEOUT P_NULL);
    opt "--rem_timeout" false (opt_time R_TIMEOUT P_NULL);
    opt "-rT" false (opt_time R_TIMEOUT P_NULL);
    opt "--server_timeout" false (opt_misc "s" (Some "t"%char));
    opt "-st" false (opt_misc "s" (Some "t"%char));
    opt "--unify_nodes" false (opt_misc "U" None);
    opt "-U" false (opt_misc "U" None);
    opt "--unify_units" false (opt_misc "u" None);
    opt "-u" false (opt_misc "u" None);
    opt "--verbose" false (opt_misc "v" None);
    opt "-v" false (opt_misc "v" None);
    opt "--verbose_conf" false (opt_misc "v" (Some "c"%char));
    opt "-vc" false (opt_misc "v" (Some "c"%char));
    opt "--verbose_stat" false (opt_misc "v" (Some "s"%char));
    opt "-vs" false (opt_misc "v" (Some "s"%char));
    opt "--verbose_time" false (opt_misc "v" (Some "t"%char));
    opt "-vt" false (opt_misc "v" (Some "t"%char));
    opt "--verbose_used" false (opt_misc "v" (Some "u"%char));
    opt "-vu" false (opt_misc "v" (Some "u"%char));
    opt "--verbose_more" false (opt_misc "v" (Some "v"%char));
    opt "-vv" false (opt_misc "v" (Some "v"%char));
    opt "--verbose_more_conf" false (opt_misc "v" (Some "c"%char));
    opt "-vC" false (opt_misc "v" (Some "C"%char));
    opt "--verbose_more_stat" false (opt_misc "v" (Some "s"%char));
    opt "-vS" false (opt_misc "v" (Some "S"%char));
    opt "--verbose_more_time" false (opt_misc "v" (Some "t"%char));
    opt "-vT" false (opt_misc "v" (Some "T"%char));
    opt "--verbose_more_used" false (opt_misc "v" (Some "u"%char));
    opt "-vU" false (opt_misc "v" (Some "U"%char));
    opt "--version" false (opt_vers);
    opt "-V" false (opt_vers);
    opt "--wait" false (opt_misc "W" None);
    opt "-W" false (opt_misc "W" None)
  ].

(** [find_option]: the first row with this name. *)
Definition find_option (nm : string) : option OPTION :=
  List.find (fun p => Args.streq nm (name p)) Options.

(** [find_test]: the first test with this name, as its position in
    [Tests]. *)
Fixpoint find_test_from (i : nat) (tests : list string) (nm : string)
  : option nat :=
  match tests with
  | [] => None
  | t :: tests' =>
      if Args.streq nm t then Some i else find_test_from (S i) tests' nm
  end.

Definition find_test (verbs : bool) (nm : string) : option nat :=
  find_test_from 0 (Server.Tests verbs) nm.

(** The [int] variables that [opt_misc] assigns. *)
Inductive VAR : Type :=
| Debug | ListenPort | Precision | ServerTimeout | UnifyNodes | UnifyUnits
| VerboseConf | VerboseStat | VerboseTime | VerboseUsed | Wait.

Definition VAR_eq_dec (a b : VAR) : {a = b} + {a <> b}.
Proof. decide equality. Defined.

(** What the option handlers work on. *)
Record settings : Type := {
  pars : Par.state;
  ServerName : option string;
  vars : VAR -> Z
}.

Definition vars0 (v : VAR) : Z :=
  match v with
  | ListenPort => 19765
  | Precision => 3
  | ServerTimeout => 5
  | _ => 0
  end.

Definition settings0 : settings :=
  {| pars := Par.state0; ServerName := None; vars := vars0 |}.

Definition assign (v : VAR) (x : Z) (s : settings) : settings :=
  {| pars := pars s; ServerName := ServerName s;
     vars := fun w => if VAR_eq_dec v w then x else vars s w |}.

Definition with_pars (p : Par.state) (s : settings) : settings :=
  {| pars := p; ServerName := ServerName s; vars := vars s |}.

(** A [long] stored into an [int]. *)
Definition to_int (x : Z) : Z := (x + 2 ^ 31) mod 2 ^ 32 - 2 ^ 31.

(** The value switched on in [opt_misc]: [arg1 | (arg2 << 8)]. *)
Definition code (c : ascii) : Z := Z.of_nat (nat_of_ascii c).

Definition tag (arg1 : ascii) (arg2 : option ascii) : Z :=
  Z.lor (code arg1)
        (Z.shiftl (match arg2 with Some c => code c | None => 0 end) 8).

Section WithEnvironment.

(** [STRSIZE] of [qperf.h]; the keys of the [Usage] table of the help
    text; whether the verbs tests are compiled in. *)
Variable STRSIZE : nat.
Variable Usage : list string.
Variable verbs : bool.

(** A test body is code outside [qperf.c].  Run on the parameter table as
    [client] has prepared it, it comes back with [Successful] set one way
    or the other and the table as it left it, or it ends the process
    ([exit], [die]).  The second argument tells the runs of one command
    line apart: the number of tests run before.  [set_affinity], which can
    only end the process, is counted with the body. *)
Inductive body_result : Type :=
| Returns (Successful : bool) (p : Par.state)
| Leaves (status : Z).

Variable run_client : string -> nat -> Par.state -> body_result.

(** [opt_long], [opt_size], [opt_time]: the value goes to both indices. *)
Definition set_both_u32 (nm : string) (arg1 arg2 : PAR_INDEX) (l : Z)
  (s : settings) : outcome settings :=
  p ← setp_u32 (Some nm) arg1 l (pars s);
  p ← setp_u32 (Some nm) arg2 l p;
  Ret (with_pars p s).

(** [opt_misc] *)
Definition do_opt_misc (o : OPTION) (arg1 : ascii) (arg2 : option ascii)
  (argv : list string) (s : settings) : outcome (list string * settings) :=
  let t := tag arg1 arg2 in
  if t =? tag "e" None then
    '(l, argv) ← Args.arg_long argv; Ret (argv, assign Precision (to_int l) s)
  else if t =? tag "H" None then
    '(h, argv) ← Args.arg_strn argv;
    Ret (argv, {| pars := pars s; ServerName := Some h; vars := vars s |})
  else if t =? tag "W" None then
    '(l, argv) ← Args.arg_time argv; Ret (argv, assign Wait (to_int l) s)
  else if t =? tag "l" (Some "p"%char) then
    '(l, argv) ← Args.arg_long argv; Ret (argv, assign ListenPort (to_int l) s)
  else if t =? tag "s" (Some "t"%char) then
    '(l, argv) ← Args.arg_time argv;
    Ret (argv, assign ServerTimeout (to_int l) s)
  else
    s ← (if t =? tag "u" None then Ret (assign UnifyUnits 1 s)
         else if t =? tag "v" None then
           Ret (assign VerboseUsed 1 (assign VerboseTime 1
                 (assign VerboseStat 1 (assign VerboseConf 1 s))))
         else if t =? tag "D" None then Ret (assign Debug 1 s)
         else if t =? tag "U" None then Ret (assign UnifyNodes 1 s)
         else if t =? tag "v" (Some "c"%char) then Ret (assign VerboseConf 1 s)
         else if t =? tag "v" (Some "s"%char) then Ret (assign VerboseStat 1 s)
         else if t =? tag "v" (Some "t"%char) then Ret (assign VerboseTime 1 s)
         else if t =? tag "v" (Some "u"%char) then Ret (assign VerboseUsed 1 s)
         else if t =? tag "v" (Some "v"%char) then
           Ret (assign VerboseUsed 2 (assign VerboseTime 2
                 (assign VerboseStat 2 (assign VerboseConf 2 s))))
         else if t =? tag "v" (Some "C"%char) then Ret (assign VerboseConf 2 s)
         else if t =? tag "v" (Some "S"%char) then Ret (assign VerboseStat 2 s)
         else if t =? tag "v" (Some "T"%char) then Ret (assign VerboseTime 2 s)
         else if t =? tag "v" (Some "U"%char) then Ret (assign VerboseUsed 2 s)
         else Die ("internal error: opt_misc: unknown argument: " ++ name o));
    Ret (tl argv, s).

(** [option->func(option, &args)]: the advanced [args] and the settings.
    [opt_help] prints the section of the help text and leaves with status
    0; for a category that is not in [Usage] it hands [error_die] a format
    with a conversion and no argument.  [opt_vers] prints the version and
    leaves. *)
Definition call (o : OPTION) (argv : list string) (s : settings)
  : outcome (list string * settings) :=
  match func o with
  | opt_long arg1 arg2 =>
      '(l, argv) ← Args.arg_long argv;
      s ← set_both_u32 (name o) arg1 arg2 l s;
      Ret (argv, s)
  | opt_size arg1 arg2 =>
      '(l, argv) ← Args.arg_size argv;
      s ← set_both_u32 (name o) arg1 arg2 l s;
      Ret (argv, s)
  | opt_time arg1 arg2 =>
      '(l, argv) ← Args.arg_time argv;
      s ← set_both_u32 (name o) arg1 arg2 l s;
      Ret (argv, s)
  | opt_strn arg1 arg2 =>
      '(v, argv) ← Args.arg_strn argv;
      p ← setp_str STRSIZE (Some (name o)) arg1 v (pars s);
      p ← setp_str STRSIZE (Some (name o)) arg2 v p;
      Ret (argv, with_pars p s)
  | opt_misc arg1 arg2 => do_opt_misc o arg1 arg2 argv s
  | opt_help =>
      let category := nth 1 argv "main" in
      if existsb (Args.streq category) Usage then Exits 0 else Undefined
  | opt_vers => Exits 0
  end.

(** What [do_args] carries from token to token besides the settings: the
    static [ExitStatus], and, for the statements below, the tests run so
    far with [Successful] as each left it. *)
Record progress : Type := {
  conf : settings;
  ExitStatus : Z;
  tests_run : list (string * bool)
}.

Definition progress0 : progress :=
  {| conf := settings0; ExitStatus := 0; tests_run := [] |}.

(** [ExitStatus] is 1 from the first test that comes back unsuccessful
    onwards: it is only ever set, never cleared. *)
Definition sticky (g : progress) : Prop :=
  ExitStatus g = if forallb snd (tests_run g) then 0 else 1.

(** [client(test)].  After the head ([Par.client_start]) the request is
    stamped, [Finished] and [Successful] are cleared and the body runs;
    then [ExitStatus] is set if [Successful] is not, and [place_show]
    prints what was gathered. *)
Definition client (test : string) (g : progress) : outcome progress :=
  p ← Par.client_start (pars (conf g));
  match run_client test (length (tests_run g)) p with
  | Leaves status => Exits status
  | Returns Successful p =>
      let ExitStatus := if negb Successful then 1 else ExitStatus g in
      Ret {| conf := with_pars p (conf g);
             ExitStatus := ExitStatus;
             tests_run := (tests_run g ++ [(test, Successful)])%list |}
  end.

(** What the test bodies themselves answer when the tests named are run
    one after the other, each behind the head of [client], from the table
    [p] on: their [Successful] flags in order, [n] being the number of the
    first run.  The list ends at a body that ends the process.  It is what
    the exit status is measured against below; [client] has no part in
    it. *)
Fixpoint bodies (tests : list string) (n : nat) (p : Par.state)
  : list bool :=
  match tests with
  | [] => []
  | test :: tests' =>
      match Par.client_start p with
      | Ret p1 =>
          match run_client test n p1 with
          | Returns Successful p2 => Successful :: bodies tests' (S n) p2
          | Leaves _ => []
          end
      | _ => []
      end
  end.

Definition starts_with_dash (arg : string) : bool :=
  match arg with
  | String c _ => Ascii.eqb c "-"
  | EmptyString => false
  end.

(** The [while ( *args)] loop of [do_args].  Every turn moves [args]
    forward, so one unit of [fuel] per token is enough. *)
Fixpoint do_args_loop (fuel : nat) (args : list string)
  (isClient testSpecified : bool) (g : progress)
  : outcome (bool * bool * progress) :=
  match args with
  | [] => Ret (isClient, testSpecified, g)
  | arg :: _ =>
      match fuel with
      | O => Undefined
      | S fuel' =>
          if starts_with_dash arg then
            match find_option arg with
            | None => Die (arg ++ ": bad option; try qperf --help")
            | Some option =>
                let isClient :=
                  if negb (server_valid option) then true else isClient in
                '(args, s) ← call option args (conf g);
                do_args_loop fuel' args isClient testSpecified
                  {| conf := s; ExitStatus := ExitStatus g;
                     tests_run := tests_run g |}
            end
          else
            let isClient := true in
            match ServerName (conf g) with
            | None =>
                let s := {| pars := pars (conf g); ServerName := Some arg;
                            vars := vars (conf g) |} in
                do_args_loop fuel' (tl args) isClient testSpecified
                  {| conf := s; ExitStatus := ExitStatus g;
                     tests_run := tests_run g |}
            | Some _ =>
                match find_test verbs arg with
                | None => Die (arg ++ ": bad test; try qperf --help")
                | Some p =>
                    g ← client (nth p (Server.Tests verbs) "") g;
                    do_args_loop fuel' (tl args) isClient true g
                end
            end
      end
  end.

(** How [do_args] ends when it does not end the process: it returns to
    [main], or it has called [server], which does not come back. *)
Inductive ending : Type :=
| Returned (g : progress)
| Serving.

Definition do_args (args : list string) (g : progress) : outcome ending :=
  '(isClient, testSpecified, g) ← do_args_loop (length args) args false false g;
  if negb isClient then Ret Serving
  else if negb testSpecified then
    match ServerName (conf g) with
    | None =>
        Die ("You used a client only option but did not specify the "
             ++ "server name." ++ String "010" ""
             ++ "Do you want to be a client or server?")
    | Some h =>
        match find_test verbs h with
        | Some _ => Die "Must specify host name first; try qperf --help"
        | None => Die "Must specify a test type; try qperf --help"
        end
    end
  else Ret (Returned g).

(** [init_vars]: the order check of [ParInfo]; [proc_stat] tells whether
    [/proc/stat] could be opened. *)
Definition init_vars (proc_stat : bool) : outcome unit :=
  if negb (forallb (fun i => index_eqb (index (ParInfo_row i)) i) indices)
  then Die "internal error: initialize: ParInfo: out of order"
  else if negb proc_stat then Die "Cannot open /proc/stat"
  else Ret tt.

(** [main(argc, argv)]: [args] is [&argv\[1\]].  The result is the status
    [main] returns, or [None] when the process stays in [server]. *)
Definition main (proc_stat : bool) (args : list string) : outcome (option Z) :=
  _ ← init_vars proc_stat;
  e ← do_args args progress0;
  match e with
  | Returned g => Ret (Some (ExitStatus g))
  | Serving => Ret None
  end.

End WithEnvironment.

End Main.

(** ** B. What the calls of [send_recv_mesg] move *)

Module Buffer.

Import Mesg.

(** One [read(fd, p, count)] that returns [ret > 0]: the next [ret] bytes
    of the stream are stored from [p] on.  [offset] is the distance of [p]
    from the [buf] that [send_recv_mesg] was given. *)
Definition read_call (c : io_call) (stream buf : list Z) : list Z * list Z :=
  let n := Z.to_nat (ret c) in
  let o := Z.to_nat (offset c) in
  (drop n stream, take o buf ++ take n stream ++ drop (o + n) buf).

(** The caller's buffer after the reads of one run. *)
Fixpoint received (calls : list io_call) (stream buf : list Z) : list Z :=
  match calls with
  | [] => buf
  | c :: calls' =>
      let '(stream, buf) := read_call c stream buf in
      received calls' stream buf
  end.

(** One [write(fd, p, count)] that returns [ret]: the bytes it puts on the
    stream. *)
Definition write_call (c : io_call) (buf : list Z) : list Z :=
  take (Z.to_nat (ret c)) (drop (Z.to_nat (offset c)) buf).

(** What the writes of one run put on the stream. *)
Definition sent (calls : list io_call) (buf : list Z) : list Z :=
  concat (map (fun c => write_call c buf) calls).

End Buffer.

(** ** F. The request on its way: [client], [client_send_request],
       [server_listen], [server_recv_request], [server] *)

Module Request.

Import Codec Mesg Buffer Server.

Section WithSizes.

(** The widths of [qperf.h], [sizeof(REQ)] among them; whether the verbs
    tests are compiled in; what [is_client()], a macro of [qperf.h], gives
    in the process at hand. *)
Context (sz : SIZES).
Variable sizeof_REQ : nat.
Variable verbs : bool.
Variable is_client : bool.

(** The stamp [client] puts on [RReq] before the test body runs:
    [RReq.ver_maj = VER_MAJ; RReq.ver_min = VER_MIN;
     RReq.ver_inc = VER_INC; RReq.req_index = test - Tests;]
    each value converted to the type of its member. *)
Definition stamp (RReq : REQ) (test : nat) : REQ :=
  {| ver_maj := store (sizeof_ver_maj sz) VER_MAJ;
     ver_min := store (sizeof_ver_min sz) VER_MIN;
     ver_inc := store (sizeof_ver_inc sz) VER_INC;
     req_index := store (sizeof_req_index sz) (Z.of_nat test);
     flip := flip RReq; access_recv := access_recv RReq;
     affinity := affinity RReq; poll_mode := poll_mode RReq;
     port := port RReq; rd_atomic := rd_atomic RReq;
     timeout := timeout RReq; msg_size := msg_size RReq;
     mtu_size := mtu_size RReq; no_msgs := no_msgs RReq;
     sock_buf_size := sock_buf_size RReq; time := time RReq;
     id := id RReq; rate := rate RReq |}.

(** [client_send_request], once connected: [enc_init(&req); enc_req(&RReq)]
    fills the start of the local [req], and [send_mesg] is handed all
    [sizeof(req)] bytes of it.  [req] is the object as found on the stack;
    an encoding longer than the object would run past it. *)
Definition client_send_request (RReq : REQ) (req : list Z)
  : option (list Z) :=
  let enc := enc_req sz RReq [] in
  if (length enc <=? length req)%nat
  then Some (enc ++ drop (length enc) req)
  else None.

(** [server_listen], as far as [Req] goes: [Req.timeout = ServerTimeout],
    an [int] stored into a [uint32_t]. *)
Definition server_listen (ServerTimeout : Z) (Req : REQ) : REQ :=
  {| ver_maj := ver_maj Req; ver_min := ver_min Req; ver_inc := ver_inc Req;
     req_index := req_index Req; flip := flip Req;
     access_recv := access_recv Req; affinity := affinity Req;
     poll_mode := poll_mode Req; port := port Req;
     rd_atomic := rd_atomic Req;
     timeout := store sizeof_uint32_t ServerTimeout;
     msg_size := msg_size Req; mtu_size := mtu_size Req;
     no_msgs := no_msgs Req; sock_buf_size := sock_buf_size Req;
     time := time Req; id := id Req; rate := rate Req |}.

(** One connection as the server meets it: whether [accept] and
    [set_nonblock] succeed, the clock when [recv_mesg] is entered, the
    answers of the environment to its loop, the bytes that arrive, and the
    local [req] of [server_recv_request] as found on the stack. *)
Record connection : Type := {
  accepted : bool;
  start : Q;
  env : list turn;
  stream : list Z;
  req : list Z
}.

(** [server_recv_request]: the value returned and [Req] afterwards.
    [recv_mesg] runs under the [Req.timeout] of the moment; [dec_req]
    decodes from the start of [req] into the global [Req].  [None]: the
    answers of the environment ran out. *)
Definition server_recv_request (Req : REQ) (c : connection)
  : option (Z * REQ) :=
  if negb (accepted c) then Some (0, Req)
  else
    match send_recv_mesg (timeout Req) is_client "r" "request data"
            (Z.of_nat sizeof_REQ) (start c) (env c) with
    | None => None
    | Some r =>
        if retval r =? 0 then Some (0, Req)
        else Some (1, fst (dec_req sz Req
                             (received (calls r) (stream c) (req c))))
    end.

(** The [for (;;)] loop of [server] with [Req] carried from one turn to
    the next: the parent decodes every request into the one global [Req]
    before it forks. *)
Fixpoint server_loop (Req : REQ) (cs : list connection)
  : option (list reaction) :=
  match cs with
  | [] => Some []
  | c :: cs' =>
      match server_recv_request Req c with
      | None => None
      | Some (ok, Req) =>
          match server_loop Req cs' with
          | None => None
          | Some rs =>
              Some (server_turn verbs (if ok =? 0 then None else Some Req)
                    :: rs)
          end
      end
  end.

End WithSizes.

End Request.

(** ** D. One option under [do_args] *)

Module Driver.

Import Main.

Section WithEnvironment.

Variable STRSIZE : nat.
Variable Usage : list string.

(** The branch of [do_args] for a token that starts with a dash:
    [find_option], the complaint about an unknown option, and the call of
    the handler of the row found.  The result is the advanced [args] and
    the settings. *)
Definition do_option (args : list string) (s : settings)
  : outcome (list string * settings) :=
  match args with
  | [] => Undefined
  | arg :: _ =>
      match find_option arg with
      | None => Die (arg ++ ": bad option; try qperf --help")
      | Some option => call STRSIZE Usage option args s
      end
  end.

End WithEnvironment.

End Driver.

(** ** C. [setv_u32] and [opt_check] *)

Module Check.

Import Par.

(** [setv_u32]: the store goes through [ptr] at once; for [P_NULL], whose
    [ptr] is null, it has no defined behaviour. *)
Definition setv_u32 (i : PAR_INDEX) (l : Z) (st : state) : outcome state :=
  p ← par_info i;
  match ptr (ParInfo_row p) with
  | Some a => Ret (write (Some a) (V_u32 (l mod 2 ^ 32)) st)
  | None => Undefined
  end.

(** [q->name == p->name] compares addresses.  A name is null or the
    address of the name of a row of [Options]; these are distinct string
    literals with distinct texts, so the addresses are equal exactly when
    the texts are. *)
Definition same_name (a b : option string) : bool :=
  match a, b with
  | Some x, Some y => String.eqb x y
  | None, None => true
  | _, _ => false
  end.

(** The inner loop of [opt_check], over the rows behind [p]:
    [if (q->set && q->name == p->name) q->set = 0;] *)
Fixpoint clear_set (nm : option string) (later : list PAR_INDEX)
  (st : state) : state :=
  match later with
  | [] => st
  | q :: later' =>
      let st :=
        if set (ParInfo st q) && same_name (name (ParInfo st q)) nm
        then upd_info q (fun r =>
               {| name := name r; set := false;
                  used := used r; inuse := inuse r |}) st
        else st in
      clear_set nm later' st
  end.

(** The outer loop, over the rows from [p] on.  Every call of [error] is
    recorded by its two arguments, the name of the row and [TestName]. *)
Fixpoint opt_check_from (rows : list PAR_INDEX) (TestName : string)
  (st : state) : state * list (option string * string) :=
  match rows with
  | [] => (st, [])
  | p :: rows' =>
      if used (ParInfo st p) || negb (set (ParInfo st p))
      then opt_check_from rows' TestName st
      else
        let warning := (name (ParInfo st p), TestName) in
        let st := clear_set (name (ParInfo st p)) rows' st in
        let '(st, warnings) := opt_check_from rows' TestName st in
        (st, warning :: warnings)
  end.

(** [opt_check]: the table afterwards and the warnings written, in
    order. *)
Definition opt_check (TestName : string) (st : state)
  : state * list (option string * string) :=
  opt_check_from indices TestName st.

End Check.

(** ** G. Helpers: [skip_colon], [cmpsub], [strncopy], [left_to_send] *)

Module Text.

Import Show.

(** A [char *] is the list of the characters from the pointer on; the
    string ends at the first NUL or, where the list ends, at the NUL that
    follows it. *)

(** [skip_colon(s)]; [None] is the null pointer. *)
Fixpoint skip_colon (s : list ascii) : option (list ascii) :=
  match s with
  | [] => None
  | c :: s' =>
      if Ascii.eqb c ":" then Some (Times.skip_spaces s')
      else if Ascii.eqb c NUL then None
      else skip_colon s'
  end.

(** [cmpsub(s2, s1)] *)
Fixpoint cmpsub (s2 s1 : list ascii) : bool :=
  match s1 with
  | [] => true
  | c1 :: s1' =>
      if Ascii.eqb c1 NUL then true
      else
        match s2 with
        | [] => false
        | c2 :: s2' =>
            if Ascii.eqb c2 NUL then false
            else if negb (Ascii.eqb (Args.tolower c1) (Args.tolower c2))
            then false
            else cmpsub s2' s1'
        end
  end.

(** [strncopy(d, s, n)]: [strncpy] copies the string [s], at most [n]
    characters of it, and fills up with NULs to [n] characters; then
    [d\[n-1\]] is set to NUL.  [d] is the destination object.  [None]: a
    store outside [d] ([n = 0], or [n] beyond the size of [d]). *)
Definition strncopy (d s : list ascii) (n : nat) : option (list ascii) :=
  match n with
  | O => None
  | S m =>
      if (length d <? n)%nat then None
      else Some (<[m := NUL]> (take n (c_str s ++ repeat NUL n) ++ drop n d))
  end.

(** [left_to_send(sentp, room)] with [no_msgs] the value of [Req.no_msgs]
    and [sent] that of [*sentp].  The difference is taken in [long] and
    stored into the [int] [n]. *)
Definition left_to_send (no_msgs sent room : Z) : Z :=
  if no_msgs =? 0 then room
  else
    let n := Main.to_int (no_msgs - sent) in
    if n <=? 0 then 0
    else if n >? room then room
    else n.

(** Digits in groups of three, the reading against which [commify] is
    checked: a comma stands behind every digit that is followed by
    three, six, nine, ... digits. *)
Definition comma_before (r : list ascii) : list ascii :=
  let n := Z.of_nat (length r) in
  if ((0 <? n) && (n mod 3 =? 0))%Z then [","%char] else [].

Fixpoint group3 (ds : list ascii) : list ascii :=
  match ds with
  | [] => []
  | c :: r => c :: comma_before r ++ group3 r
  end.

End Text.

(** ** I. The table of results: [place_show] *)

Module Table.

Import Show.

Definition chars (s : string) : list ascii := list_ascii_of_string s.

Definition strlen (s : string) : nat := length (chars s).

Definition spaces (n : nat) : list ascii := repeat " "%char n.

(** [printf("%-*s", w, s)]: a negative width is taken as its absolute
    value. *)
Definition left_justified (w : Z) (s : string) : list ascii :=
  chars s ++ spaces (Z.to_nat (Z.abs w) - strlen s).

(** [printf("%*s", w, s)] with a width that is not negative. *)
Definition right_justified (w : nat) (s : string) : list ascii :=
  spaces (w - strlen s) ++ chars s.

(** [show->pref ? strlen(show->pref) : 0] *)
Definition pref_len (show : SHOW) : nat :=
  match pref show with Some p => strlen p | None => 0 end.

(** The first loop of [place_show]; [None]: [strlen] of a null [data].
    The lengths are those of strings, far below [INT_MAX]. *)
Fixpoint place_show_sizes (rows : list SHOW) (nameLen dataLen unitLen : nat)
  : option (nat * nat * nat) :=
  match rows with
  | [] => Some (nameLen, dataLen, unitLen)
  | show :: rows =>
      match data show with
      | None => None
      | Some dt =>
          let n := (pref_len show + strlen (name show))%nat in
          let nameLen := if (nameLen <? n)%nat then n else nameLen in
          let n := strlen dt in
          match unit show with
          | Some u =>
              let dataLen := if (dataLen <? n)%nat then n else dataLen in
              let n := strlen u in
              let unitLen := if (unitLen <? n)%nat then n else unitLen in
              place_show_sizes rows nameLen dataLen unitLen
          | None => place_show_sizes rows nameLen dataLen unitLen
          end
      end
  end.

(** One turn of the second loop: the line printed, without its newline. *)
Definition place_show_line (nameLen dataLen : nat) (show : SHOW)
  : option (list ascii) :=
  match data show with
  | None => None
  | Some dt =>
      Some (chars "    "
            ++ match pref show with Some p => chars p | None => [] end
            ++ left_justified (Z.of_nat nameLen - Z.of_nat (pref_len show))
                 (name show)
            ++ match unit show with
               | Some u =>
                   chars "  =  " ++ right_justified dataLen dt
                   ++ chars " " ++ chars u
               | None => chars "  =  " ++ chars dt
               end
            ++ match altn show with
               | Some a => chars " (" ++ chars a ++ chars ")"
               | None => []
               end)
  end.

(** [place_show()]: the lines printed for the rows of [ShowTable]; the
    table is empty afterwards. *)
Definition place_show (ShowTable : list SHOW) : option (list (list ascii)) :=
  match place_show_sizes ShowTable 0 0 0 with
  | None => None
  | Some (nameLen, dataLen, _) =>
      mapM (place_show_line nameLen dataLen) ShowTable
  end.

End Table.

(** * Statements and proofs *)

(** ** A. Wire codec: round trips *)

Module CodecFacts.

Import Codec.

Lemma enc_int_bytes l n p : enc_int l n p = p ++ bytes_of l n.
Proof.
  unfold bytes_of. revert l p.
  induction n as [|n IH]; intros l p; simpl.
  - now rewrite app_nil_r.
  - rewrite (IH _ (p ++ [l mod 256])), (IH _ [l mod 256]).
    now rewrite <- app_assoc.
Qed.

Lemma bytes_of_S l n :
  bytes_of l (S n) = (l mod 256) :: bytes_of (Z.shiftr l 8) n.
Proof. unfold bytes_of at 1. simpl. now rewrite enc_int_bytes. Qed.

Lemma length_bytes_of l n : length (bytes_of l n) = n.
Proof.
  revert l. induction n as [|n IH]; intros l; [reflexivity|].
  rewrite bytes_of_S. simpl. now rewrite IH.
Qed.

Lemma dec_loop_snoc bs : forall l b,
  dec_loop l (bs ++ [b])
  = Z.lor (Z.shiftl (dec_loop l bs) 8 mod 2 ^ 64) (Z.land b 255).
Proof. induction bs as [|c bs IH]; intros l b; simpl; [reflexivity|apply IH]. Qed.

Lemma le_val_cons b bs :
  le_val (b :: bs) = Z.lor (Z.shiftl (le_val bs) 8 mod 2 ^ 64) (Z.land b 255).
Proof. unfold le_val. simpl rev. apply dec_loop_snoc. Qed.

(** A byte or-ed below a value shifted by eight bits is added to it. *)
Lemma lor_shiftl_byte a b :
  0 <= b < 256 -> Z.lor (Z.shiftl a 8) b = a * 256 + b.
Proof.
  intros Hb.
  assert (Hland : Z.land (Z.shiftl a 8) b = 0).
  { apply Z.bits_inj'. intros i Hi.
    rewrite Z.land_spec, Z.bits_0.
    destruct (Z.lt_ge_cases i 8) as [Hlt|Hge].
    - rewrite Z.shiftl_spec_low by lia. reflexivity.
    - replace b with (b mod 2 ^ 8) by (apply Z.mod_small; simpl; lia).
      rewrite Z.mod_pow2_bits_high by lia. apply andb_false_r. }
  pose proof (Z.add_lor_land (Z.shiftl a 8) b) as H.
  rewrite Hland, Z.add_0_r in H. rewrite H.
  rewrite Z.shiftl_mul_pow2 by lia. reflexivity.
Qed.

Lemma pow2_8_S n : 2 ^ (8 * Z.of_nat (S n)) = 256 * 2 ^ (8 * Z.of_nat n).
Proof.
  replace (8 * Z.of_nat (S n)) with (8 + 8 * Z.of_nat n) by lia.
  rewrite Z.pow_add_r by lia. reflexivity.
Qed.

Lemma pow2_8_le n : (n <= 8)%nat -> 2 ^ (8 * Z.of_nat n) <= 2 ^ 64.
Proof. intros H. apply Z.pow_le_mono_r; lia. Qed.

(** The bytes written for [l] decode to the low [n] bytes of [l]. *)
Lemma le_val_bytes_of n : forall l,
  (n <= 8)%nat -> le_val (bytes_of l n) = l mod 2 ^ (8 * Z.of_nat n).
Proof.
  induction n as [|n IH]; intros l Hn.
  - simpl. now rewrite Z.mod_1_r.
  - rewrite bytes_of_S, le_val_cons, IH by lia.
    set (X := Z.shiftr l 8 mod 2 ^ (8 * Z.of_nat n)).
    assert (HX : 0 <= X < 2 ^ (8 * Z.of_nat n))
      by (apply Z.mod_pos_bound; apply Z.pow_pos_nonneg; lia).
    assert (Hle : 256 * 2 ^ (8 * Z.of_nat n) <= 2 ^ 64)
      by (rewrite <- pow2_8_S; apply pow2_8_le; lia).
    rewrite Z.shiftl_mul_pow2 by lia.
    rewrite (Z.mod_small (X * 2 ^ 8)) by (change (2 ^ 8) with 256; lia).
    rewrite <- Z.shiftl_mul_pow2 by lia.
    change 255 with (Z.ones 8). rewrite Z.land_ones by lia.
    rewrite Z.mod_mod by (simpl; lia). change (2 ^ 8) with 256.
    rewrite lor_shiftl_byte by (apply Z.mod_pos_bound; lia).
    rewrite pow2_8_S, Z.rem_mul_r by (try apply Z.pow_pos_nonneg; lia).
    subst X. rewrite Z.shiftr_div_pow2 by lia. change (2 ^ 8) with 256. lia.
Qed.

(** What comes back through [dec_int] and the assignment to the field. *)
Lemma store_to_int64 w x :
  (w <= 8)%nat -> store w (to_int64 x) = x mod 2 ^ (8 * Z.of_nat w).
Proof.
  intros Hw. unfold store, to_int64.
  pose proof (Z.mod_eq (x + 2 ^ 63) (2 ^ 64)) as E.
  rewrite E by lia. clear E.
  set (q := (x + 2 ^ 63) / 2 ^ 64).
  replace (x + 2 ^ 63 - 2 ^ 64 * q - 2 ^ 63) with (x + (- q) * 2 ^ 64) by lia.
  replace (2 ^ 64) with (2 ^ (64 - 8 * Z.of_nat w) * 2 ^ (8 * Z.of_nat w)).
  - rewrite Z.mul_assoc. apply Z_mod_plus_full.
  - rewrite <- Z.pow_add_r by lia. f_equal. lia.
Qed.

Lemma dec_int_bytes w v rest :
  dec_int w (bytes_of v w ++ rest) = (to_int64 (le_val (bytes_of v w)), rest).
Proof.
  unfold dec_int, le_val.
  rewrite <- (length_bytes_of v w) at 1 3.
  now rewrite take_app_length, drop_app_length.
Qed.

Lemma store_dec w v :
  (w <= 8)%nat -> fits w v -> store w (to_int64 (le_val (bytes_of v w))) = v.
Proof.
  intros Hw Hv. rewrite store_to_int64, le_val_bytes_of by assumption.
  rewrite Z.mod_mod by (apply Z.pow_nonzero; lia).
  apply Z.mod_small. exact Hv.
Qed.

(** [encode_int(0x01020304, 4)] is [04 03 02 01]. *)
Example enc_int_little_endian : enc_int 16909060 4 [] = [4; 3; 2; 1].
Proof. reflexivity. Qed.

Section RoundTrip.

Context (sz : SIZES) (Hsz : sizes_ok sz).

(** One field through the wire. *)
Lemma dec_enc_int w v rest :
  (w <= 8)%nat -> fits w v ->
  exists x, dec_int w (bytes_of v w ++ rest) = (x, rest) /\ store w x = v.
Proof.
  intros Hw Hv. eexists. split; [apply dec_int_bytes|].
  now apply store_dec.
Qed.

Ltac wire_field :=
  rewrite dec_int_bytes; cbv beta iota;
  rewrite store_dec by (first [assumption | unfold sizeof_uint32_t; lia]).

Lemma enc_ustat_app (u : USTAT) (p : list Z) :
  enc_ustat sz u p = p ++ enc_ustat sz u [].
Proof.
  unfold enc_ustat. rewrite !enc_int_bytes. now rewrite app_nil_l, <- !app_assoc.
Qed.

Lemma dec_enc_ustat_with_rest (host u : USTAT) (rest : list Z) :
  ustat_fits sz u ->
  dec_ustat sz host (enc_ustat sz u [] ++ rest) = (u, rest).
Proof.
  intros [H1 H2 H3]. destruct u as [b m e].
  cbn [no_bytes u_no_msgs no_errs] in *.
  unfold enc_ustat, dec_ustat. cbn [no_bytes u_no_msgs no_errs].
  rewrite !enc_int_bytes. rewrite app_nil_l, <- !app_assoc.
  destruct Hsz. do 3 wire_field.
  reflexivity.
Qed.


(** A list of known length, element by element. *)
Ltac explode l H :=
  repeat (destruct l as [|? l]; simpl in H; try discriminate H).

Lemma dec_enc_stat_with_rest (host t : STAT) (rest : list Z) :
  stat_fits sz t ->
  length (time_s host) = T_N -> length (time_e host) = T_N ->
  dec_stat sz host (enc_stat sz t [] ++ rest) = (t, rest).
Proof.
  intros [H1 H2 H3 [Ls Fs] [Le Fe] Hs Hr Hrs Hrr] Lhs Lhe.
  destruct t as [c k q ts te us ur urs urr].
  destruct host as [hc hk hq hts hte hus hur hurs hurr].
  cbn [no_cpus no_ticks max_cqes time_s time_e s r rem_s rem_r] in *.
  unfold T_N in *.
  explode ts Ls. explode te Le. explode hts Lhs. explode hte Lhe.
  rewrite !Forall_cons in Fs, Fe.
  destruct Fs as (?&?&?&?&?&?&?&?&?&_), Fe as (?&?&?&?&?&?&?&?&?&_).
  unfold enc_stat, dec_stat, T_N.
  cbn [no_cpus no_ticks max_cqes time_s time_e s r rem_s rem_r
       enc_clocks dec_clocks nth].
  rewrite !enc_int_bytes.
  rewrite (enc_ustat_app us), (enc_ustat_app ur), (enc_ustat_app urs),
    (enc_ustat_app urr).
  rewrite app_nil_l, <- !app_assoc.
  destruct Hsz.
  do 3 wire_field.
  do 18 (rewrite dec_int_bytes; cbv beta iota;
         rewrite store_dec by assumption; cbn [insert list_insert]).
  rewrite !dec_enc_ustat_with_rest by assumption.
  reflexivity.
Qed.


(** [dec_req] after [enc_req] gives back every member that is on the wire;
    [rate] is not among them and stays as the decoding side had it. *)
Lemma dec_enc_req_with_rest (host q : REQ) (rest : list Z) :
  req_fits sz q ->
  length (id host) = STRSIZE sz ->
  dec_req sz host (enc_req sz q [] ++ rest) = (with_rate (rate host) q, rest).
Proof.
  intros [] Lh.
  destruct q as [a1 a2 a3 a4 a5 a6 a7 a8 a9 a10 a11 a12 a13 a14 a15 a16 qid qrate].
  cbn [ver_maj ver_min ver_inc req_index flip access_recv affinity poll_mode
       port rd_atomic timeout msg_size mtu_size no_msgs sock_buf_size time
       id rate] in *.
  unfold enc_req, dec_req, with_rate, enc_str, dec_str.
  cbn [ver_maj ver_min ver_inc req_index flip access_recv affinity poll_mode
       port rd_atomic timeout msg_size mtu_size no_msgs sock_buf_size time
       id rate].
  rewrite !enc_int_bytes.
  rewrite app_nil_l, <- !app_assoc.
  destruct Hsz.
  do 16 wire_field.
  rewrite (take_ge qid) by lia.
  rewrite <- fits_id0 at 1 3.
  rewrite take_app_length, drop_app_length.
  rewrite (drop_ge (id host)) by lia.
  now rewrite app_nil_r.
Qed.

End RoundTrip.

(** [UStat] and [Stat] come back whole. *)
Lemma dec_enc_ustat (sz : SIZES) (host u : USTAT) :
  sizes_ok sz -> ustat_fits sz u ->
  dec_ustat sz host (enc_ustat sz u []) = (u, []).
Proof.
  intros Hsz Hu. rewrite <- (app_nil_r (enc_ustat sz u [])).
  now apply dec_enc_ustat_with_rest.
Qed.

Lemma dec_enc_stat (sz : SIZES) (host t : STAT) :
  sizes_ok sz -> stat_fits sz t ->
  length (time_s host) = T_N -> length (time_e host) = T_N ->
  dec_stat sz host (enc_stat sz t []) = (t, []).
Proof.
  intros Hsz Ht Ls Le. rewrite <- (app_nil_r (enc_stat sz t [])).
  now apply dec_enc_stat_with_rest.
Qed.

Lemma dec_enc_req (sz : SIZES) (host q : REQ) :
  sizes_ok sz -> req_fits sz q -> length (id host) = STRSIZE sz ->
  dec_req sz host (enc_req sz q []) = (with_rate (rate host) q, []).
Proof.
  intros Hsz Hq Lh. rewrite <- (app_nil_r (enc_req sz q [])).
  now apply dec_enc_req_with_rest.
Qed.

Lemma sizes64_ok : sizes_ok sizes64.
Proof. split; simpl; lia. Qed.

Lemma RReq_rate10_fits : req_fits sizes64 RReq_rate10.
Proof.
  split; try reflexivity;
    (split; [apply Z.leb_le | apply Z.ltb_lt]; reflexivity).
Qed.

(** C2 (code at the failing input).  The claim: decoding the bytes produced
    by encoding a [Req] whose members fit their widths yields the same
    [Req] bit for bit.  The request of [qperf host --rate 10 rc_bw] fits,
    yet decoded into the server's [Req] it comes back with the [rate] the
    server had (all NUL), not the ["10"] that was sent: [enc_req] and
    [dec_req] pass over [rate], the one member of [REQ] they leave out. *)
Theorem dec_req_after_enc_req_loses_rate :
  req_fits sizes64 RReq_rate10 /\
  fst (dec_req sizes64 (Req_zero sizes64) (enc_req sizes64 RReq_rate10 []))
  = with_rate (repeat 0 64%nat) RReq_rate10 /\
  with_rate (repeat 0 64%nat) RReq_rate10 <> RReq_rate10.
Proof.
  split; [exact RReq_rate10_fits|]. split.
  - rewrite dec_enc_req.
    + reflexivity.
    + exact sizes64_ok.
    + exact RReq_rate10_fits.
    + reflexivity.
  - intros H. apply (f_equal rate) in H. discriminate H.
Qed.

End CodecFacts.

Lemma bind_Ret {A B : Type} (a : A) (k : A -> outcome B) :
  (Ret a ≫= k) = k a.
Proof. reflexivity. Qed.

(** ** C. Parameter table *)

Module ParFacts.

Import Par.

Local Open Scope string_scope.

(** The table is in order: [par_info] always finds its row, and so does
    the check in [init_vars]. *)
Lemma par_info_ok (i : PAR_INDEX) : par_info i = Ret i.
Proof. destruct i; reflexivity. Qed.

Lemma ParInfo_in_order :
  forallb (fun i => index_eqb (index (ParInfo_row i)) i) indices = true.
Proof. reflexivity. Qed.

Lemma P_N_is_29 : P_N = 29%nat.
Proof. reflexivity. Qed.

(** Rows other than [P_NULL] point at members of their own. *)
Lemma ptr_injective (i j : PAR_INDEX) :
  i <> P_NULL -> ptr (ParInfo_row i) = ptr (ParInfo_row j) -> i = j.
Proof.
  intros Hi H. destruct i; try contradiction; destruct j; try reflexivity;
    discriminate H.
Qed.

(** A user-level [setp_u32] leaves the other rows and members alone. *)
Lemma setp_u32_named_frame (nm : string) (i j : PAR_INDEX) (l : Z)
  (st st' : state) :
  setp_u32 (Some nm) i l st = Ret st' -> i <> j ->
  ParInfo st' j = ParInfo st j /\ value st' j = value st j.
Proof.
  intros H Hij.
  destruct i; cbn in H; injection H as <-;
    destruct j; try contradiction; split; reflexivity.
Qed.

(** C1, as the code has it.  A call of [setp_u32] or [setp_str] with an
    option name and an index other than [P_NULL] stores the value, records
    the name and sets the [set] flag whatever the row held before, a name
    recorded by an earlier assignment included: the last assignment wins.
    [setp_u32] stores its argument as a 32-bit value; [setp_str] stores a
    string shorter than [STRSIZE] and ends the process with
    [<s>: too long] otherwise.  With index [P_NULL] nothing is stored. *)
Theorem setp_named_last_assignment_wins
  (STRSIZE : nat) (nm : string) (i : PAR_INDEX) (l : Z) (s : string)
  (st : state) :
  (setp_u32 (Some nm) P_NULL l st = Ret st
   /\ setp_str STRSIZE (Some nm) P_NULL s st = Ret st)
  /\ (i <> P_NULL ->
      (exists st',
          setp_u32 (Some nm) i l st = Ret st'
          /\ value st' i = Some (V_u32 (l mod 2 ^ 32))
          /\ name (ParInfo st' i) = Some nm
          /\ set (ParInfo st' i) = true)
      /\ ((exists st',
              setp_str STRSIZE (Some nm) i s st = Ret st'
              /\ (String.length s < STRSIZE)%nat
              /\ value st' i = Some (V_str s)
              /\ name (ParInfo st' i) = Some nm
              /\ set (ParInfo st' i) = true)
          \/ (setp_str STRSIZE (Some nm) i s st = Die (s ++ ": too long")
              /\ (STRSIZE <= String.length s)%nat))).
Proof.
  split; [split; reflexivity|].
  intros Hi. split.
  - destruct i; try contradiction; eexists; repeat split; reflexivity.
  - destruct (STRSIZE <=? String.length s)%nat eqn:E.
    + right. apply Nat.leb_le in E. split; [|exact E].
      destruct i; try contradiction; cbn; apply Nat.leb_le in E;
        rewrite E; reflexivity.
    + left. pose proof E as E'. apply Nat.leb_gt in E'.
      destruct i; try contradiction; eexists;
        (split; [cbn; rewrite E; reflexivity|]);
        repeat split; try reflexivity; exact E'.
Qed.


(** C1 witness: [--time 5] after [-t 3] on [L_TIME]. *)
Lemma setp_named_last_assignment_wins_witness :
  L_TIME <> P_NULL
  /\ exists st',
       setp_u32 (Some "--time") L_TIME 5
         (write (Some (G_Req, M_time)) (V_u32 3)
            (upd_info L_TIME (fun _ =>
               {| name := Some "-t"; set := true;
                  used := false; inuse := false |}) state0)) = Ret st'
       /\ value st' L_TIME = Some (V_u32 (5 mod 2 ^ 32))
       /\ name (ParInfo st' L_TIME) = Some "--time"
       /\ set (ParInfo st' L_TIME) = true.
Proof.
  split; [discriminate|].
  apply (setp_named_last_assignment_wins 64 "--time" L_TIME 5 "").
  discriminate.
Defined.

(** C1 as stated fails: after [-t 3] has recorded its name on [L_TIME], the
    call for [--time 5] on the same row does store: the value is 5 and the
    name [--time]. *)
Lemma setp_u32_first_assignment_does_not_win :
  (st1 ← setp_u32 (Some "-t") L_TIME 3 state0;
   st2 ← setp_u32 (Some "--time") L_TIME 5 st1;
   Ret (name (ParInfo st1 L_TIME), value st1 L_TIME,
        name (ParInfo st2 L_TIME), value st2 L_TIME))
  = Ret (Some "-t", Some (V_u32 3), Some "--time", Some (V_u32 5)).
Proof. reflexivity. Qed.

(** C10.  A call of [setp_u32] or [setp_str] without an option name (an
    internal default) on a row of the table, that is with an index other
    than [P_NULL], sets the row's [used] and [inuse] flags and leaves its
    name and [set] flag alone; when the row carries a name the member
    keeps its value: a default never overwrites what the user has
    assigned.  When the row carries no name the value is stored
    ([setp_str] then ends the process with [<s>: too long] for a string
    of [STRSIZE] characters or more).  [P_NULL] stands for no row: with
    it the call returns without a change, and no default in [qperf.c] is
    given with it. *)
Theorem setp_default_never_overwrites
  (STRSIZE : nat) (i : PAR_INDEX) (l : Z) (s : string) (st : state) :
  (setp_u32 None P_NULL l st = Ret st
   /\ setp_str STRSIZE None P_NULL s st = Ret st)
  /\ (i <> P_NULL ->
      (exists st',
          setp_u32 None i l st = Ret st'
          /\ used (ParInfo st' i) = true
          /\ inuse (ParInfo st' i) = true
          /\ name (ParInfo st' i) = name (ParInfo st i)
          /\ set (ParInfo st' i) = set (ParInfo st i)
          /\ value st' i = match name (ParInfo st i) with
                           | Some _ => value st i
                           | None => Some (V_u32 (l mod 2 ^ 32))
                           end)
      /\ ((exists st',
              setp_str STRSIZE None i s st = Ret st'
              /\ used (ParInfo st' i) = true
              /\ inuse (ParInfo st' i) = true
              /\ name (ParInfo st' i) = name (ParInfo st i)
              /\ set (ParInfo st' i) = set (ParInfo st i)
              /\ value st' i = match name (ParInfo st i) with
                               | Some _ => value st i
                               | None => Some (V_str s)
                               end)
          \/ (setp_str STRSIZE None i s st = Die (s ++ ": too long")
              /\ name (ParInfo st i) = None
              /\ (STRSIZE <= String.length s)%nat))).
Proof.
  split; [split; reflexivity|].
  intros Hi.
  unfold setp_u32, setp_str, par_set. rewrite par_info_ok.
  split.
  - destruct i; try contradiction;
      (match goal with
       | |- context [name (ParInfo st ?j)] =>
           destruct (name (ParInfo st j)) eqn:E
       end;
       cbn; rewrite E; eexists; (split; [reflexivity|]);
       cbn; rewrite ?E; repeat split; reflexivity).
  - destruct i; try contradiction;
      (match goal with
       | |- context [name (ParInfo st ?j)] =>
           destruct (name (ParInfo st j)) eqn:E
       end;
       cbn; rewrite E;
       [ left; eexists; (split; [reflexivity|]);
         cbn; rewrite ?E; repeat split; reflexivity
       | destruct (STRSIZE <=? String.length s)%nat eqn:L;
         [ right; split; [reflexivity|];
           split; [reflexivity|]; apply Nat.leb_le; exact L
         | left; eexists; (split; [reflexivity|]);
           cbn; rewrite ?E; repeat split; reflexivity ] ]).
Qed.

(** C10 witness: the default [TIME = 2] on a row that [-t 3] has set. *)
Lemma setp_default_never_overwrites_witness :
  L_TIME <> P_NULL
  /\ exists st',
       setp_u32 None L_TIME 2
         (write (Some (G_Req, M_time)) (V_u32 3)
            (upd_info L_TIME (fun _ =>
               {| name := Some "-t"; set := true;
                  used := false; inuse := false |}) state0)) = Ret st'
       /\ used (ParInfo st' L_TIME) = true
       /\ inuse (ParInfo st' L_TIME) = true
       /\ name (ParInfo st' L_TIME) = Some "-t"
       /\ set (ParInfo st' L_TIME) = true
       /\ value st' L_TIME = Some (V_u32 3).
Proof.
  split; [discriminate|].
  apply (setp_default_never_overwrites 64 L_TIME 2 ""
           (write (Some (G_Req, M_time)) (V_u32 3)
              (upd_info L_TIME (fun _ =>
                 {| name := Some "-t"; set := true;
                    used := false; inuse := false |}) state0))).
  discriminate.
Defined.

Lemma par_isset_name (i : PAR_INDEX) (st : state) :
  par_isset i st
  = Ret (match name (ParInfo st i) with Some _ => true | None => false end).
Proof. unfold par_isset. now rewrite par_info_ok. Qed.

Lemma clear_inuse_keeps (st : state) (j : PAR_INDEX) :
  name (ParInfo (clear_inuse st) j) = name (ParInfo st j)
  /\ value (clear_inuse st) j = value st j.
Proof. destruct j; split; reflexivity. Qed.

(** An internal default: names stay, the row's member changes only when the
    row has no name, other members stay. *)
Lemma setp_u32_default (i : PAR_INDEX) (l : Z) (st : state) :
  i <> P_NULL ->
  exists st',
    setp_u32 None i l st = Ret st'
    /\ (forall j, name (ParInfo st' j) = name (ParInfo st j))
    /\ value st' i = match name (ParInfo st i) with
                     | Some _ => value st i
                     | None => Some (V_u32 (l mod 2 ^ 32))
                     end
    /\ (forall j, j <> i -> value st' j = value st j).
Proof.
  intros Hi. unfold setp_u32, par_set. rewrite par_info_ok.
  destruct i; try contradiction;
    (match goal with
     | |- context [name (ParInfo st ?j)] =>
         destruct (name (ParInfo st j)) eqn:E
     end;
     cbn; rewrite E; eexists; (split; [reflexivity|]);
     (split; [intros j; destruct j; reflexivity|]);
     (split; [cbn; rewrite ?E; reflexivity|]);
     intros j Hj; destruct j; try contradiction; reflexivity).
Qed.

Lemma par_use_keeps (i : PAR_INDEX) (st : state) :
  exists st',
    par_use i st = Ret st'
    /\ (forall j, name (ParInfo st' j) = name (ParInfo st j))
    /\ (forall j, value st' j = value st j).
Proof.
  unfold par_use. rewrite par_info_ok. eexists.
  split; [reflexivity|].
  split; intros j; destruct i, j; reflexivity.
Qed.

(** The conditional default of [client]: given or not, names stay and
    the other members stay. *)
Lemma default_unless (b : bool) (i : PAR_INDEX) (l : Z) (st : state) :
  i <> P_NULL ->
  exists st',
    (if negb b then setp_u32 None i l st else Ret st) = Ret st'
    /\ (forall j, name (ParInfo st' j) = name (ParInfo st j))
    /\ value st' i = (if b then value st i
                      else match name (ParInfo st i) with
                           | Some _ => value st i
                           | None => Some (V_u32 (l mod 2 ^ 32))
                           end)
    /\ (forall j, j <> i -> value st' j = value st j).
Proof.
  intros Hi. destruct b; cbn [negb].
  - exists st. auto.
  - apply setp_u32_default, Hi.
Qed.

(** The head of [client] on any table: it returns, names stay, and the
    four rows hold what the defaults make of them. *)
Lemma client_start_spec (st : state) :
  exists st',
    client_start st = Ret st'
    /\ (forall j, name (ParInfo st' j) = name (ParInfo st j))
    /\ value st' L_TIME
       = match name (ParInfo st L_NO_MSGS), name (ParInfo st L_TIME) with
         | None, None => Some (V_u32 2)
         | _, _ => value st L_TIME
         end
    /\ value st' R_TIME
       = match name (ParInfo st R_NO_MSGS), name (ParInfo st R_TIME) with
         | None, None => Some (V_u32 2)
         | _, _ => value st R_TIME
         end
    /\ value st' L_TIMEOUT = match name (ParInfo st L_TIMEOUT) with
                             | Some _ => value st L_TIMEOUT
                             | None => Some (V_u32 5)
                             end
    /\ value st' R_TIMEOUT = match name (ParInfo st R_TIMEOUT) with
                             | Some _ => value st R_TIMEOUT
                             | None => Some (V_u32 5)
                             end.
Proof.
  unfold client_start.
  pose proof (clear_inuse_keeps st) as K0.
  set (s0 := clear_inuse st) in *.
  assert (N0 : forall j, name (ParInfo s0 j) = name (ParInfo st j))
    by (intros j; apply K0).
  assert (V0 : forall j, value s0 j = value st j) by (intros j; apply K0).
  clear K0.
  rewrite par_isset_name, N0, bind_Ret.
  destruct (default_unless
              (match name (ParInfo st L_NO_MSGS) with
               | Some _ => true | None => false end) L_TIME 2 s0)
    as (s1 & E1 & N1 & V1 & F1); [discriminate|]. rewrite E1, bind_Ret.
  rewrite par_isset_name, N1, N0, bind_Ret.
  destruct (default_unless
              (match name (ParInfo st R_NO_MSGS) with
               | Some _ => true | None => false end) R_TIME 2 s1)
    as (s2 & E2 & N2 & V2 & F2); [discriminate|]. rewrite E2, bind_Ret.
  destruct (setp_u32_default L_TIMEOUT 5 s2) as (s3 & E3 & N3 & V3 & F3);
    [discriminate|]. rewrite E3, bind_Ret.
  destruct (setp_u32_default R_TIMEOUT 5 s3) as (s4 & E4 & N4 & V4 & F4);
    [discriminate|]. rewrite E4, bind_Ret.
  destruct (par_use_keeps L_AFFINITY s4) as (s5 & E5 & N5 & V5).
  rewrite E5, bind_Ret.
  destruct (par_use_keeps R_AFFINITY s5) as (s6 & E6 & N6 & V6).
  rewrite E6, bind_Ret.
  destruct (par_use_keeps L_TIME s6) as (s7 & E7 & N7 & V7).
  rewrite E7, bind_Ret.
  destruct (par_use_keeps R_TIME s7) as (s8 & E8 & N8 & V8).
  exists s8. split; [exact E8|].
  split; [intros j; now rewrite N8, N7, N6, N5, N4, N3, N2, N1, N0|].
  rewrite !V8, !V7, !V6, !V5.
  repeat split.
  - rewrite F4, F3, F2 by discriminate. rewrite V1, N0, V0.
    destruct (name (ParInfo st L_NO_MSGS)), (name (ParInfo st L_TIME));
      reflexivity.
  - rewrite F4, F3 by discriminate. rewrite V2, N1, N0, F1, V0 by discriminate.
    destruct (name (ParInfo st R_NO_MSGS)), (name (ParInfo st R_TIME));
      reflexivity.
  - rewrite F4 by discriminate. rewrite V3, N2, N1, N0, F2, F1, V0
      by discriminate. reflexivity.
  - rewrite V4, N3, N2, N1, N0, F3, F2, F1, V0 by discriminate. reflexivity.
Qed.

(** C6.  At every client test start (any state [st] of the table) the
    head of [client] returns, having given the default [TIMEOUT = 5] to
    the local and to the remote [TIMEOUT] row and, for a side whose
    [NO_MSGS] was not set by the user, the default [TIME = 2] to that
    side's [TIME] row: to both the local and the remote one if neither
    [L_NO_MSGS] nor [R_NO_MSGS] was set.  They are defaults, given through
    [setp_u32] without a name: a row the user has assigned keeps the
    user's value, every other one holds 2, respectively 5, afterwards. *)
Theorem client_start_assigns_defaults (st : state) :
  exists st',
    client_start st = Ret st'
    /\ value st' L_TIMEOUT = match name (ParInfo st L_TIMEOUT) with
                             | Some _ => value st L_TIMEOUT
                             | None => Some (V_u32 5)
                             end
    /\ value st' R_TIMEOUT = match name (ParInfo st R_TIMEOUT) with
                             | Some _ => value st R_TIMEOUT
                             | None => Some (V_u32 5)
                             end
    /\ (par_isset L_NO_MSGS st = Ret false ->
        value st' L_TIME = match name (ParInfo st L_TIME) with
                           | Some _ => value st L_TIME
                           | None => Some (V_u32 2)
                           end)
    /\ (par_isset R_NO_MSGS st = Ret false ->
        value st' R_TIME = match name (ParInfo st R_TIME) with
                           | Some _ => value st R_TIME
                           | None => Some (V_u32 2)
                           end).
Proof.
  destruct (client_start_spec st) as (st' & E & _ & VL & VR & TL & TR).
  exists st'. split; [exact E|]. split; [exact TL|]. split; [exact TR|].
  rewrite !par_isset_name. split; intros H.
  - rewrite VL. destruct (name (ParInfo st L_NO_MSGS)); [discriminate H|].
    now destruct (name (ParInfo st L_TIME)).
  - rewrite VR. destruct (name (ParInfo st R_NO_MSGS)); [discriminate H|].
    now destruct (name (ParInfo st R_TIME)).
Qed.

(** C6 witness: the first test of a command line without options. *)
Lemma client_start_assigns_defaults_witness :
  par_isset L_NO_MSGS state0 = Ret false
  /\ par_isset R_NO_MSGS state0 = Ret false
  /\ exists st',
       client_start state0 = Ret st'
       /\ value st' L_TIME = Some (V_u32 2)
       /\ value st' R_TIME = Some (V_u32 2)
       /\ value st' L_TIMEOUT = Some (V_u32 5)
       /\ value st' R_TIMEOUT = Some (V_u32 5).
Proof.
  split; [reflexivity|]. split; [reflexivity|].
  destruct (client_start_assigns_defaults state0)
    as (st' & E & TL & TR & VL & VR).
  exists st'. split; [exact E|].
  split; [apply VL; reflexivity|]. split; [apply VR; reflexivity|].
  split; [exact TL|exact TR].
Defined.

End ParFacts.

(** ** B. Framed I/O *)

Module MesgFacts.

Import Mesg.

Local Open Scope string_scope.
Local Open Scope Z_scope.

Lemma transferred_snoc (io : list io_call) (c : io_call) :
  transferred (io ++ [c]) = transferred io + ret c.
Proof.
  unfold transferred. induction io as [|d io IH]; simpl; [lia|].
  rewrite IH. lia.
Qed.

(** Once [len] is negative the loop cannot come out with success. *)
Lemma mesg_loop_negative act item is_client etime env :
  forall len io r,
    len < 0 ->
    mesg_loop act item is_client etime len io env = Some r ->
    retval r = 0.
Proof.
  induction env as [|t env IH]; intros len io r Hlen H; simpl in H.
  - destruct (len =? 0) eqn:E; [lia|discriminate].
  - destruct (len =? 0) eqn:E; [lia|].
    destruct (Qle_bool (etime - now t) 0); [now inversion H|].
    destruct (select_ret t <? 0); [now inversion H|].
    destruct (negb (fd_isset t)); [now apply IH in H|].
    destruct (func_ret t <? 0) eqn:E1; [now inversion H|].
    destruct (func_ret t =? 0) eqn:E2; [now inversion H|].
    apply IH in H; [exact H|lia].
Qed.

(** The invariant of the loop: what a successful run has moved is what the
    calls so far have moved plus what was still to go, and each call got a
    positive count of bytes within what it asked for. *)
Lemma mesg_loop_success act item is_client etime env :
  forall len io r,
    mesg_loop act item is_client etime len io env = Some r ->
    retval r = 1 ->
    transferred (calls r) = transferred io + len
    /\ stderr r = None
    /\ (Forall (fun c => 0 < ret c <= count c) io ->
        Forall (fun c => 0 < ret c <= count c) (calls r)).
Proof.
  induction env as [|t env IH]; intros len io r H Hr; simpl in H.
  - destruct (len =? 0) eqn:E; [|discriminate].
    inversion H; subst r; simpl. repeat split; [lia|auto].
  - destruct (len =? 0) eqn:E.
    { inversion H; subst r; simpl. repeat split; [lia|auto]. }
    destruct (Qle_bool (etime - now t) 0);
      [inversion H; subst r; discriminate Hr|].
    destruct (select_ret t <? 0);
      [inversion H; subst r; discriminate Hr|].
    destruct (negb (fd_isset t)); [now apply IH|].
    destruct (func_ret t <? 0) eqn:E1;
      [inversion H; subst r; discriminate Hr|].
    destruct (func_ret t =? 0) eqn:E2;
      [inversion H; subst r; discriminate Hr|].
    destruct (Z.lt_ge_cases (len - func_ret t) 0) as [Hneg|Hpos].
    { apply mesg_loop_negative in H; [lia|exact Hneg]. }
    destruct (IH _ _ _ H Hr) as (Ht & He & Hf).
    rewrite transferred_snoc in Ht. simpl in Ht.
    repeat split; [lia|exact He|].
    intros Hio. apply Hf. apply Forall_app. split; [exact Hio|].
    constructor; [simpl; lia|constructor].
Qed.

(** The count that [send_recv_mesg] keeps.  For either direction, any
    descriptor (its answers are the environment's) and length: when
    [send_recv_mesg] returns success it has written nothing to stderr and
    the returns of its calls of [read] or [write] add up to exactly [len],
    each a positive number within the count asked for.  And on any turn
    of the loop (any [len] still to go, any calls made so far) where the
    time remaining to the deadline is [<= 0] it returns failure with the
    line [failed to <action> <item>: timed out].  Where the bytes of these
    calls come to lie is another matter: every call is made on the same
    [buf] ([BufferFacts]). *)
Theorem send_recv_mesg_exact_or_timed_out :
  (forall Req_timeout is_client sr item len start env r,
      send_recv_mesg Req_timeout is_client sr item len start env = Some r ->
      retval r = 1 ->
      transferred (calls r) = len
      /\ stderr r = None
      /\ Forall (fun c => 0 < ret c <= count c) (calls r))
  /\ (forall act item is_client etime len io t env,
         len <> 0 ->
         (etime - now t <= 0)%Q ->
         mesg_loop act item is_client etime len io (t :: env)
         = Some {| retval := 0;
                   stderr := Some ("failed to " ++ act ++ " " ++ item
                                   ++ ": timed out");
                   calls := io |}).
Proof.
  split.
  - intros Req_timeout is_client sr item len start env r H Hr.
    unfold send_recv_mesg in H.
    destruct (mesg_loop_success _ _ _ _ _ _ _ _ H Hr) as (Ht & He & Hf).
    simpl in Ht. repeat split; [exact Ht|exact He|apply Hf; constructor].
  - intros act item is_client etime len io t env Hlen Htime.
    simpl. apply Z.eqb_neq in Hlen. rewrite Hlen.
    apply Qle_bool_iff in Htime. rewrite Htime. reflexivity.
Qed.

(** An example: twelve bytes counted in two reads of five and seven after
    one turn on which [select] found nothing, and a turn past the
    deadline. *)
Lemma send_recv_mesg_exact_or_timed_out_witness :
  (let env := [ {| now := 100.5; select_ret := 0; fd_isset := false;
                   func_ret := 0 |};
                {| now := 101; select_ret := 1; fd_isset := true;
                   func_ret := 5 |};
                {| now := 102; select_ret := 1; fd_isset := true;
                   func_ret := 7 |} ] in
   let r := {| retval := 1; stderr := None;
               calls := [ {| offset := 0; count := 12; ret := 5 |};
                          {| offset := 0; count := 7; ret := 7 |} ] |} in
   send_recv_mesg 5 true "r" "results" 12 100 env = Some r
   /\ retval r = 1
   /\ transferred (calls r) = 12)
  /\ (12 <> 0
      /\ (105 - 105.25 <= 0)%Q
      /\ mesg_loop "receive" "results" true 105 12 []
           [ {| now := 105.25; select_ret := 1; fd_isset := true;
                func_ret := 12 |} ]
         = Some {| retval := 0;
                   stderr := Some "failed to receive results: timed out";
                   calls := [] |}).
Proof.
  split.
  - intros env r. split; [reflexivity|]. split; [reflexivity|].
    apply (proj1 send_recv_mesg_exact_or_timed_out
             5 true "r"%char "results" 12 100%Q env r); reflexivity.
  - split; [discriminate|]. split; [discriminate|].
    apply (proj2 send_recv_mesg_exact_or_timed_out
             "receive" "results" true 105%Q 12 []
             {| now := 105.25; select_ret := 1; fd_isset := true;
                func_ret := 12 |} []).
    + discriminate.
    + discriminate.
Defined.

End MesgFacts.

(** ** F. The version gate of the server *)

Module ServerFacts.

Import Codec Server.

Local Open Scope string_scope.
Local Open Scope Z_scope.

(** A request whose major or minor version differs is rejected with the
    upgrade line, and the loop goes on to the next connection. *)
Lemma server_rejects_mismatch (verbs : bool) (Req : REQ)
  (rest : list (option REQ)) :
  (ver_maj Req, ver_min Req) <> (VER_MAJ, VER_MIN) ->
  server verbs (Some Req :: rest)
  = Rejected (upgrade_message Req) :: server verbs rest.
Proof.
  intros H. simpl. unfold server_turn.
  destruct (ver_maj Req =? VER_MAJ) eqn:E1;
    destruct (ver_min Req =? VER_MIN) eqn:E2; try reflexivity.
  apply Z.eqb_eq in E1, E2. exfalso. apply H. now rewrite E1, E2.
Qed.

(** The side the line names: ["server"] exactly when the server's own
    version is the higher one, that is, when the client is out of date. *)
Lemma upgrade_message_side (Req : REQ) :
  upgrade_message Req
  = if (VER_MAJ >? ver_maj Req)
       || ((VER_MAJ =? ver_maj Req) && (VER_MIN >? ver_min Req))
    then "upgrade server from "
         ++ fmt_version (ver_maj Req) (ver_min Req) (ver_inc Req)
         ++ " to " ++ fmt_version VER_MAJ VER_MIN VER_INC
    else "upgrade client from "
         ++ fmt_version VER_MAJ VER_MIN VER_INC
         ++ " to " ++ fmt_version (ver_maj Req) (ver_min Req) (ver_inc Req).
Proof.
  unfold upgrade_message.
  destruct ((VER_MAJ >? ver_maj Req)
            || ((VER_MAJ =? ver_maj Req) && (VER_MIN >? ver_min Req)));
    reflexivity.
Qed.

(** C4 (code at the failing input).  The claim: a request whose version
    differs is rejected with [upgrade client|server from X.Y.Z to A.B.C]
    naming the out-of-date side, the server goes on accepting, and a
    client at 0.1.0 makes a server at 0.2.0 log
    [upgrade client from 0.1.0 to 0.2.0].  The server does reject the
    request of a 0.1.0 client and does serve the connection after it, but
    the line it writes names the server as the side to upgrade. *)
Theorem server_old_client_upgrade_line :
  server false [ Some (request 0 1 0 1); Some (request 0 2 0 1) ]
  = [ Rejected "upgrade server from 0.1.0 to 0.2.0"; Served "quit" ].
Proof.
  rewrite server_rejects_mismatch by discriminate.
  rewrite upgrade_message_side. reflexivity.
Qed.

(** The mirror case: a newer client is told to upgrade itself. *)
Example server_new_client_upgrade_line :
  server false [ Some (request 0 3 1 1) ]
  = [ Rejected "upgrade client from 0.2.0 to 0.3.1" ].
Proof. reflexivity. Qed.

End ServerFacts.

(** ** I. [nice_1024] *)

Module ShowFacts.

Import Show.

Local Open Scope string_scope.
Local Open Scope Z_scope.

Lemma geb_true (a b : Z) : b <= a -> (a >=? b) = true.
Proof. intros H. rewrite Z.geb_leb. now apply Z.leb_le. Qed.

Lemma geb_false (a b : Z) : a < b -> (a >=? b) = false.
Proof. intros H. rewrite Z.geb_leb. now apply Z.leb_gt. Qed.

(** One turn of the loop on a multiple of 1024. *)
Lemma nice_loop_mul (fuel : nat) (a n : Z) :
  1 <= a -> n < 3 ->
  nice_loop (S fuel) (a * 1024) n = nice_loop fuel a (n + 1).
Proof.
  intros Ha Hn. cbn [nice_loop]. change (Z.of_nat (length tab) - 1) with 3.
  rewrite geb_true by lia.
  replace (n <? 3) with true by (symmetry; apply Z.ltb_lt; lia).
  cbn [andb]. rewrite Z.rem_mul, Z.quot_mul by lia. reflexivity.
Qed.

(** The loop is left below 1024 or at the last unit. *)
Lemma nice_loop_stop (fuel : nat) (a n : Z) :
  a < 1024 \/ 3 <= n -> nice_loop fuel a n = Some (a, n).
Proof.
  intros H. destruct fuel; cbn [nice_loop];
    change (Z.of_nat (length tab) - 1) with 3;
    (destruct H as [H|H];
     [ rewrite geb_false by lia; reflexivity
     | replace (n <? 3) with false by (symmetry; apply Z.ltb_ge; lia);
       now rewrite andb_false_r ]).
Qed.

(** A turn on a value that is not a multiple of 1024 gives up. *)
Lemma nice_loop_odd (fuel : nat) (a n : Z) :
  1024 <= a -> n < 3 -> Z.rem a 1024 <> 0 ->
  nice_loop (S fuel) a n = None.
Proof.
  intros Ha Hn Hr. cbn [nice_loop]. change (Z.of_nat (length tab) - 1) with 3.
  rewrite geb_true by lia.
  replace (n <? 3) with true by (symmetry; apply Z.ltb_lt; lia).
  cbn [andb]. apply Z.eqb_neq in Hr. now rewrite Hr.
Qed.

(** The head of [nice_1024] on a positive multiple of 1024. *)
Lemma nice_1024_head (U : bool) (pref : option string) (name : string)
  (a : Z) (t : list SHOW) :
  1 <= a ->
  nice_1024 U pref name (a * 1024) t
  = match nice_loop 3 a 0 with
    | None => Ret (0, t)
    | Some (val, n) =>
        t' ← place_any pref name (Some (nth (Z.to_nat n) tab ""))
               (commify U (Some (fmt_d val)))
               (commify U (Some (fmt_d (a * 1024)))) t;
        Ret (1, t')
    end.
Proof.
  intros Ha. unfold nice_1024.
  replace (a * 1024 <? 1024) with false by (symmetry; apply Z.ltb_ge; lia).
  rewrite Z.rem_mul, Z.quot_mul by lia. reflexivity.
Qed.

(** C8, as the code has it.  For every value [q * 1024^k] with
    [1 <= k <= 4], [q >= 1] and the quotient [q] below 1024 unless the
    unit is already the last one ([k = 4]), [nice_1024] (called, as
    [view_size] does, with unify-units off) returns 1 and places a row
    with the quotient as data, the unit [KiB], [MiB], [GiB], [TiB] for
    [k = 1, 2, 3, 4] and the original count as the alternative, both
    commified.  A multiple [q * 1024^k] with [k <= 3] whose quotient is
    1024 or more and no multiple of 1024 is declined: 0 is returned and no
    row is placed.  In particular [nice_1024(2097152)] gives [2 MiB] with
    the alternative [2,097,152]. *)
Theorem nice_1024_presents_nice_multiples :
  (forall (pref : option string) (name : string) (q : Z) (k : nat)
          (t : list SHOW),
      (1 <= k <= 4)%nat -> 1 <= q -> q < 1024 \/ k = 4%nat ->
      nice_1024 false pref name (q * 1024 ^ Z.of_nat k) t
      = (t' ← place_any pref name
                (Some (nth (k - 1) [ "KiB"; "MiB"; "GiB"; "TiB" ] ""))
                (commify false (Some (fmt_d q)))
                (commify false (Some (fmt_d (q * 1024 ^ Z.of_nat k)))) t;
         Ret (1, t')))
  /\ (forall (pref : option string) (name : string) (q : Z) (k : nat)
             (t : list SHOW),
         (1 <= k <= 3)%nat -> 1024 <= q -> Z.rem q 1024 <> 0 ->
         nice_1024 false pref name (q * 1024 ^ Z.of_nat k) t = Ret (0, t))
  /\ nice_1024 false (Some "") "msg_size" 2097152 []
     = Ret (1, [ {| pref := Some ""; name := "msg_size";
                    data := Some "2"; unit := Some "MiB";
                    altn := Some "2,097,152" |} ]).
Proof.
  split; [|split].
  - intros pref name q k t Hk Hq Hstop.
    destruct k as [|[|[|[|[|k]]]]]; try lia.
    + (* KiB *)
      change (1024 ^ Z.of_nat 1) with 1024.
      rewrite nice_1024_head by lia.
      rewrite nice_loop_stop by lia. reflexivity.
    + (* MiB *)
      change (1024 ^ Z.of_nat 2) with (1024 * 1024).
      rewrite Z.mul_assoc, nice_1024_head by lia.
      rewrite nice_loop_mul, nice_loop_stop by lia. reflexivity.
    + (* GiB *)
      change (1024 ^ Z.of_nat 3) with (1024 * 1024 * 1024).
      rewrite !Z.mul_assoc, nice_1024_head by lia.
      rewrite !nice_loop_mul, nice_loop_stop by lia. reflexivity.
    + (* TiB *)
      change (1024 ^ Z.of_nat 4) with (1024 * 1024 * 1024 * 1024).
      rewrite !Z.mul_assoc, nice_1024_head by lia.
      rewrite !nice_loop_mul by lia.
      rewrite nice_loop_stop by (right; lia). reflexivity.
  - intros pref name q k t Hk Hq Hr.
    destruct k as [|[|[|[|k]]]]; try lia.
    + change (1024 ^ Z.of_nat 1) with 1024.
      rewrite nice_1024_head by lia.
      rewrite nice_loop_odd by (assumption || lia). reflexivity.
    + change (1024 ^ Z.of_nat 2) with (1024 * 1024).
      rewrite Z.mul_assoc, nice_1024_head by lia.
      rewrite nice_loop_mul by lia.
      rewrite nice_loop_odd by (assumption || lia). reflexivity.
    + change (1024 ^ Z.of_nat 3) with (1024 * 1024 * 1024).
      rewrite !Z.mul_assoc, nice_1024_head by lia.
      rewrite !nice_loop_mul by lia.
      rewrite nice_loop_odd by (assumption || lia). reflexivity.
  - reflexivity.
Qed.

(** C8 witness: [3 GiB], and [1025 KiB], which is declined. *)
Lemma nice_1024_presents_nice_multiples_witness :
  ((1 <= 3 <= 4)%nat /\ 1 <= 3 /\ (3 < 1024 \/ 3%nat = 4%nat)
   /\ nice_1024 false None "bytes" (3 * 1024 ^ Z.of_nat 3) []
      = Ret (1, [ {| pref := None; name := "bytes"; data := Some "3";
                     unit := Some "GiB";
                     altn := Some "3,221,225,472" |} ]))
  /\ ((1 <= 1 <= 3)%nat /\ 1024 <= 1025 /\ Z.rem 1025 1024 <> 0
      /\ nice_1024 false None "bytes" (1025 * 1024 ^ Z.of_nat 1) []
         = Ret (0, [])).
Proof.
  split.
  - split; [lia|]. split; [lia|]. split; [left; lia|].
    rewrite (proj1 nice_1024_presents_nice_multiples None "bytes" 3 3%nat []);
      [reflexivity|lia|lia|left; lia].
  - split; [lia|]. split; [lia|]. split; [discriminate|].
    apply (proj1 (proj2 nice_1024_presents_nice_multiples)
             None "bytes" 1025 1%nat []); [lia|lia|discriminate].
Defined.

(** C8 as stated fails: 1049600 is [1025 * 1024], a nonzero multiple of
    [1024^1], yet [nice_1024] returns 0 and places no row for it. *)
Lemma nice_1024_declines_1049600 :
  1049600 = 1025 * 1024 ^ 1
  /\ nice_1024 false (Some "") "msg_size" 1049600 [] = Ret (0, []).
Proof. split; reflexivity. Qed.

End ShowFacts.

(** ** E. [get_times] *)

Module TimesFacts.

Import Times.

Local Open Scope Z_scope.

Lemma digit_not_separator (c : ascii) :
  isdigit c = true -> is_space c = false /\ is_newline c = false.
Proof.
  destruct c as [[] [] [] [] [] [] [] []]; intros H;
    try discriminate H; split; reflexivity.
Qed.

(** [span] runs through a prefix that satisfies the test and stops at a
    character that does not. *)
Lemma span_prefix (f : ascii -> bool) (a b : list ascii) :
  forallb f a = true ->
  match b with [] => True | c :: _ => f c = false end ->
  Args.span f (a ++ b) = (a, b).
Proof.
  intros Ha Hb. induction a as [|x a IH]; simpl.
  - destruct b as [|c b]; [reflexivity|]. simpl. now rewrite Hb.
  - simpl in Ha. apply andb_true_iff in Ha as [Hx Ha].
    rewrite Hx, (IH Ha). reflexivity.
Qed.

(** What follows a field begins with a space or the newline. *)
Lemma line_tail_head (fs : list field) (trail : nat) (rest : list ascii) :
  exists c q, line_tail fs trail rest = c :: q
              /\ (c = " "%char \/ c = "010"%char).
Proof.
  unfold line_tail. destruct fs as [|f fs]; simpl.
  - destruct trail; simpl; eauto.
  - eauto.
Qed.

Lemma line_tail_cons (f : field) (fs : list field) (trail : nat)
  (rest : list ascii) :
  line_tail (f :: fs) trail rest = render f ++ line_tail fs trail rest.
Proof. unfold line_tail. simpl. now rewrite <- app_assoc. Qed.

Lemma skip_spaces_repeat (k : nat) (q : list ascii) :
  skip_spaces (repeat " "%char k ++ q) = skip_spaces q.
Proof.
  unfold skip_spaces. induction k as [|k IH]; [reflexivity|].
  cbn [repeat app Args.span]. change (is_space " ") with true. cbn iota.
  destruct (Args.span is_space (repeat " "%char k ++ q)). exact IH.
Qed.

Lemma skip_spaces_tail_end (trail : nat) (rest : list ascii) :
  skip_spaces (line_tail [] trail rest) = "010"%char :: rest.
Proof. unfold line_tail. simpl. now rewrite skip_spaces_repeat. Qed.

(** One field under the body of the loop. *)
Lemma field_step (f : field) (K : list ascii) :
  field_ok f ->
  (exists c q, K = c :: q /\ (c = " "%char \/ c = "010"%char)) ->
  skip_spaces (render f ++ K) = (digits f ++ K)
  /\ isdigit (deref (digits f ++ K)) = true
  /\ strtoll (digits f ++ K) = field_value f
  /\ skip_field (digits f ++ K) = K.
Proof.
  intros [Hne Hd] (c & q & -> & Hc).
  assert (Hfirst : exists d ds, digits f = d :: ds /\ isdigit d = true).
  { destruct (digits f) as [|d ds]; [contradiction|].
    simpl in Hd. apply andb_true_iff in Hd as [Hd _]. eauto. }
  destruct Hfirst as (d & ds & Ed & Hdig).
  destruct (digit_not_separator d Hdig) as [Hs Hn].
  repeat split.
  - unfold render. rewrite <- app_assoc, skip_spaces_repeat.
    rewrite Ed. unfold skip_spaces. simpl. now rewrite Hs.
  - rewrite Ed. exact Hdig.
  - unfold strtoll, field_value. rewrite span_prefix; [reflexivity|exact Hd|].
    destruct Hc as [-> | ->]; reflexivity.
  - unfold skip_field. rewrite span_prefix; [reflexivity| |].
    + apply forallb_forall. intros x Hx.
      assert (Hx' : isdigit x = true)
        by (eapply forallb_forall in Hd; eauto).
      destruct (digit_not_separator x Hx') as [-> ->]. reflexivity.
    + destruct Hc as [-> | ->]; reflexivity.
Qed.

(** The loop over a line: [pre] is the part of [timex] below [n], [old]
    the part from [n] on. *)
Lemma fields_line (trail : nat) (rest : list ascii) (fs : list field) :
  forall (left : nat) (pre old : list Z),
    Forall field_ok fs ->
    (left <= length old)%nat ->
    fields left (length pre) (line_tail fs trail rest) (pre ++ old)
    = if (left <=? length fs)%nat
      then Ret ((length pre + left)%nat,
                pre ++ map field_value (take left fs) ++ drop left old)
      else if (length pre + length fs <? T_N - 1)%nat
      then Die "/proc/stat has bad format"%string
      else Ret ((length pre + length fs)%nat,
                pre ++ map field_value fs ++ drop (length fs) old).
Proof.
  induction fs as [|f fs IH]; intros left pre old Hok Hlen.
  - destruct left as [|left]; simpl.
    + now rewrite Nat.add_0_r.
    + rewrite skip_spaces_tail_end. simpl. now rewrite Nat.add_0_r.
  - destruct left as [|left].
    + simpl. now rewrite Nat.add_0_r.
    + apply Forall_cons in Hok as [Hf Hok].
      destruct old as [|o old]; [simpl in Hlen; lia|].
      rewrite line_tail_cons.
      destruct (field_step f (line_tail fs trail rest) Hf
                  (line_tail_head fs trail rest)) as (E1 & E2 & E3 & E4).
      cbn [fields]. rewrite E1, E2, E3, E4. cbn [negb].
      replace (<[length pre := field_value f]> (pre ++ o :: old))
        with ((pre ++ [field_value f]) ++ old).
      2:{ rewrite <- app_assoc. simpl.
          rewrite <- (Nat.add_0_r (length pre)).
          now rewrite insert_app_r. }
      replace (S (length pre)) with (length (pre ++ [field_value f]))
        by (rewrite length_app; simpl; lia).
      rewrite IH by (assumption || simpl in Hlen; lia).
      cbn [length]. change (S left <=? S (length fs))%nat
        with (left <=? length fs)%nat.
      rewrite length_app. cbn [length].
      replace (length pre + 1 + left)%nat with (length pre + S left)%nat by lia.
      replace (length pre + 1 + length fs)%nat
        with (length pre + S (length fs))%nat by lia.
      rewrite <- !app_assoc. reflexivity.
Qed.


Lemma cpu_line_starts (fs : list field) (trail : nat) (rest : list ascii) :
  fs <> [] \/ trail <> 0%nat ->
  starts_with_cpu (cpu_line fs trail rest) = true.
Proof.
  intros H. unfold cpu_line, line_tail.
  destruct fs as [|f fs]; [destruct trail as [|trail]|]; try reflexivity.
  destruct H; contradiction.
Qed.

(** What [read] delivers of a file whose first line fits the buffer: the
    line, and of what follows it as much as there is room for. *)
Lemma take_cpu_line (fs : list field) (trail : nat) (rest : list ascii) :
  (length (cpu_line fs trail []) <= BUFSIZE - 1)%nat ->
  take (BUFSIZE - 1) (cpu_line fs trail rest)
  = cpu_line fs trail
      (take (BUFSIZE - 1 - length (cpu_line fs trail [])) rest).
Proof.
  intros H.
  assert (E : forall r, cpu_line fs trail r = cpu_line fs trail [] ++ r).
  { intros r. unfold cpu_line, line_tail. now rewrite <- !app_assoc. }
  rewrite (E rest), take_app, (take_ge (cpu_line fs trail [])) by exact H.
  now rewrite <- E.
Qed.

(** C9, as the code has it.  For every first line [cpu ] followed by
    fields of decimal digits separated by spaces and ended by a newline,
    and short enough to lie within the [BUFSIZE - 1] bytes that are read,
    whatever follows it in the file, [get_times] puts [times()] in slot 0
    and, when the line has [T_N - 1] fields or more, the first [T_N - 1]
    numbers in slots 1 to [T_N - 1].  When exactly the last field is
    absent ([T_N - 2] fields) it fills slots 1 to [T_N - 2] and zero-fills
    slot [T_N - 1].  When more fields are absent it does not zero-fill:
    the process ends with [/proc/stat has bad format]. *)
Theorem get_times_tolerates_one_missing_field
  (real : Z) (fs : list field) (trail : nat) (rest : list ascii)
  (timex : list Z) :
  Forall field_ok fs ->
  fs <> [] \/ trail <> 0%nat ->
  (length (cpu_line fs trail []) <= BUFSIZE - 1)%nat ->
  length timex = T_N ->
  get_times real (str (cpu_line fs trail rest)) timex
  = if (T_N - 1 <=? length fs)%nat
    then Ret (real :: map field_value (take (T_N - 1) fs))
    else if (length fs =? T_N - 2)%nat
    then Ret (real :: map field_value fs ++ [0])
    else Die "/proc/stat has bad format"%string.
Proof.
  intros Hok Hsp Hfit Hlen. unfold get_times, str.
  rewrite list_ascii_of_string_of_list_ascii, take_cpu_line by exact Hfit.
  generalize (take (BUFSIZE - 1 - length (cpu_line fs trail [])) rest).
  clear rest Hfit. intros rest.
  rewrite cpu_line_starts by exact Hsp.
  cbn [negb]. change (skipn 3 (cpu_line fs trail rest))
    with (line_tail fs trail rest).
  destruct timex as [|t0 old]; [discriminate Hlen|].
  change (<[0%nat := real]> (t0 :: old)) with (real :: old).
  change (T_N - 1)%nat with 8%nat. change (T_N - 2)%nat with 7%nat.
  assert (Hold : length old = 8%nat)
    by (simpl in Hlen; unfold T_N, Codec.T_N in Hlen; lia).
  pose proof (fields_line trail rest fs 8 [real] old Hok ltac:(lia)) as F.
  change (T_N - 1)%nat with 8%nat in F. cbn [length app] in F.
  rewrite F. clear F.
  destruct (8 <=? length fs)%nat eqn:E8.
  - rewrite bind_Ret. cbv beta iota.
    change (T_N - (1 + 8))%nat with 0%nat. cbn [zero_fill].
    rewrite (drop_ge old) by lia. now rewrite app_nil_r.
  - apply Nat.leb_gt in E8.
    destruct (1 + length fs <? 8)%nat eqn:E7.
    + apply Nat.ltb_lt in E7.
      replace (length fs =? 7)%nat with false
        by (symmetry; apply Nat.eqb_neq; lia).
      reflexivity.
    + apply Nat.ltb_ge in E7.
      assert (E : length fs = 7%nat) by lia.
      rewrite E, Nat.eqb_refl, bind_Ret. cbv beta iota.
      change (T_N - (1 + 7))%nat with 1%nat. cbn [zero_fill].
      do 8 (destruct old as [|? old]; [discriminate Hold|]).
      destruct old; [|discriminate Hold].
      cbn [drop app]. f_equal.
      change (real :: map field_value fs ++ [z6])
        with ((real :: map field_value fs) ++ [z6]).
      replace (1 + 7)%nat with (length (real :: map field_value fs) + 0)%nat
        by (simpl; rewrite length_map; lia).
      now rewrite insert_app_r.
Qed.

(** C9 witness: the line of a kernel without the [steal] column (seven
    numbers), read into an array that held fives. *)
Lemma get_times_tolerates_one_missing_field_witness :
  Forall field_ok [ dec 1 "2255"; dec 0 "34"; dec 0 "2290";
                    dec 0 "22625563"; dec 0 "6290"; dec 0 "127";
                    dec 0 "456" ]
  /\ ([ dec 1 "2255"; dec 0 "34"; dec 0 "2290"; dec 0 "22625563";
        dec 0 "6290"; dec 0 "127"; dec 0 "456" ] <> []
      \/ 0%nat <> 0%nat)
  /\ (length (cpu_line [ dec 1 "2255"; dec 0 "34"; dec 0 "2290";
                         dec 0 "22625563"; dec 0 "6290"; dec 0 "127";
                         dec 0 "456" ] 0 [])
      <= BUFSIZE - 1)%nat
  /\ length (repeat 5 9) = T_N
  /\ get_times 77
       (str (cpu_line [ dec 1 "2255"; dec 0 "34"; dec 0 "2290";
                        dec 0 "22625563"; dec 0 "6290"; dec 0 "127";
                        dec 0 "456" ]
               0 (list_ascii_of_string "cpu0 1 2")))
       (repeat 5 9)
     = Ret [77; 2255; 34; 2290; 22625563; 6290; 127; 456; 0].
Proof.
  assert (Hok : Forall field_ok
                  [ dec 1 "2255"; dec 0 "34"; dec 0 "2290";
                    dec 0 "22625563"; dec 0 "6290"; dec 0 "127";
                    dec 0 "456" ])
    by (repeat constructor; discriminate).
  assert (Hfit : (length (cpu_line [ dec 1 "2255"; dec 0 "34";
                                     dec 0 "2290"; dec 0 "22625563";
                                     dec 0 "6290"; dec 0 "127";
                                     dec 0 "456" ] 0 [])
                  <= BUFSIZE - 1)%nat)
    by (vm_compute; lia).
  split; [exact Hok|]. split; [left; discriminate|].
  split; [exact Hfit|]. split; [reflexivity|].
  rewrite get_times_tolerates_one_missing_field;
    [vm_compute; reflexivity|exact Hok|left; discriminate|exact Hfit
    |reflexivity].
Defined.

(** C9 as stated fails: with two trailing fields absent (six numbers) the
    line is not zero-filled; [get_times] ends the process. *)
Lemma get_times_dies_on_two_missing_fields :
  get_times 77
    (str (cpu_line [ dec 1 "2255"; dec 0 "34"; dec 0 "2290";
                     dec 0 "22625563"; dec 0 "6290"; dec 0 "127" ]
            0 []))
    (repeat 0 9)
  = Die "/proc/stat has bad format"
  /\ str (cpu_line [ dec 1 "2255"; dec 0 "34"; dec 0 "2290";
                     dec 0 "22625563"; dec 0 "6290"; dec 0 "127" ] 0 [])
     = ("cpu  2255 34 2290 22625563 6290 127" ++ String "010" "")%string.
Proof. split; vm_compute; reflexivity. Qed.

End TimesFacts.

(** ** D, F. The exit status of [main] *)

Module MainFacts.

Import Main.

Local Open Scope string_scope.
Local Open Scope Z_scope.

Section WithEnvironment.

Variable STRSIZE : nat.
Variable Usage : list string.
Variable verbs : bool.
Variable run_client : string -> nat -> Par.state -> body_result.

Local Abbreviation call := (call STRSIZE Usage).
Local Abbreviation client := (client run_client).
Local Abbreviation do_args_loop := (do_args_loop STRSIZE Usage verbs run_client).
Local Abbreviation do_args := (do_args STRSIZE Usage verbs run_client).
Local Abbreviation main := (main STRSIZE Usage verbs run_client).
Local Abbreviation bodies := (bodies run_client).

(** The three value parsers hand back what follows the value. *)
Lemma arg_long_shrinks argv l argv' :
  Args.arg_long argv = Ret (l, argv') -> (length argv' + 2 = length argv)%nat.
Proof.
  unfold Args.arg_long. intros H.
  repeat case_match; simplify_eq/=; lia.
Qed.

Lemma arg_strn_shrinks argv v argv' :
  Args.arg_strn argv = Ret (v, argv') -> (length argv' + 2 = length argv)%nat.
Proof.
  unfold Args.arg_strn. intros H.
  repeat case_match; simplify_eq/=; lia.
Qed.

Lemma bind_Ret_inv {A B : Type} (c : outcome A) (k : A -> outcome B) (b : B) :
  (c ≫= k) = Ret b -> exists a, c = Ret a /\ k a = Ret b.
Proof. destruct c; simpl; intros H; try discriminate; eauto. Qed.

Lemma arg_size_shrinks argv l argv' :
  Args.arg_size argv = Ret (l, argv') -> (length argv' + 2 = length argv)%nat.
Proof.
  unfold Args.arg_size. intros H.
  destruct argv as [|a0 [|a1 rest]]; try discriminate.
  destruct (Args.strtold a1) as [d p].
  destruct (Args.ld_neg0 d); [discriminate|].
  apply bind_Ret_inv in H as (x & _ & H). simplify_eq/=. lia.
Qed.

Lemma arg_time_shrinks argv l argv' :
  Args.arg_time argv = Ret (l, argv') -> (length argv' + 2 = length argv)%nat.
Proof.
  unfold Args.arg_time. intros H.
  destruct argv as [|a0 [|a1 rest]]; try discriminate.
  destruct (Args.strtold a1) as [d p].
  destruct (Args.ld_neg0 d); [discriminate|].
  apply bind_Ret_inv in H as (x & _ & H). simplify_eq/=. lia.
Qed.


(** Every handler that returns has moved [args] forward. *)
Lemma call_shrinks o argv s argv' s' :
  argv <> [] ->
  call o argv s = Ret (argv', s') -> (length argv' < length argv)%nat.
Proof.
  intros Hne H. unfold Main.call in H.
  destruct (func o).
  - apply bind_Ret_inv in H as ([l a] & H1 & H).
    apply bind_Ret_inv in H as (x & _ & H). simplify_eq/=.
    apply arg_long_shrinks in H1. lia.
  - apply bind_Ret_inv in H as ([l a] & H1 & H).
    apply bind_Ret_inv in H as (x & _ & H). simplify_eq/=.
    apply arg_size_shrinks in H1. lia.
  - apply bind_Ret_inv in H as ([l a] & H1 & H).
    apply bind_Ret_inv in H as (x & _ & H).
    apply bind_Ret_inv in H as (y & _ & H). simplify_eq/=.
    apply arg_strn_shrinks in H1. lia.
  - apply bind_Ret_inv in H as ([l a] & H1 & H).
    apply bind_Ret_inv in H as (x & _ & H). simplify_eq/=.
    apply arg_time_shrinks in H1. lia.
  - unfold do_opt_misc in H.
    repeat match type of H with
           | (if ?c then _ else _) = _ => destruct c
           end;
      try (apply bind_Ret_inv in H as ([l a] & H1 & H); simplify_eq/=;
           first [ apply arg_long_shrinks in H1
                 | apply arg_strn_shrinks in H1
                 | apply arg_time_shrinks in H1 ]; lia).
    apply bind_Ret_inv in H as (x & _ & H). simplify_eq/=.
    destruct argv; [contradiction|simpl; lia].
  - destruct (existsb _ _); discriminate.
  - discriminate.
Qed.

(** One unit of fuel per token is enough: with that much or more, the
    loop does the same, and so never stops for want of fuel. *)
Lemma do_args_loop_fuel (fuel1 : nat) :
  forall fuel2 args isClient testSpecified g,
    (length args <= fuel1)%nat -> (length args <= fuel2)%nat ->
    do_args_loop fuel1 args isClient testSpecified g
    = do_args_loop fuel2 args isClient testSpecified g.
Proof.
  induction fuel1 as [|fuel1 IH]; intros fuel2 args isC tS g H1 H2.
  - destruct args; [|simpl in H1; lia]. destruct fuel2; reflexivity.
  - destruct args as [|arg args]; [destruct fuel2; reflexivity|].
    destruct fuel2 as [|fuel2]; [simpl in H2; lia|].
    simpl in H1, H2. cbn [Main.do_args_loop].
    destruct (starts_with_dash arg).
    + destruct (find_option arg) as [o|]; [|reflexivity].
      destruct (call o (arg :: args) (conf g)) as [[args' s']| | |] eqn:E;
        try reflexivity.
      apply call_shrinks in E; [|discriminate]. simpl in E.
      rewrite !bind_Ret. apply IH; lia.
    + destruct (ServerName (conf g)).
      * destruct (find_test verbs arg); [|reflexivity].
        destruct (client _ g); try reflexivity.
        rewrite !bind_Ret. apply IH; simpl; lia.
      * apply IH; simpl; lia.
Qed.


Lemma client_sticky test g g' :
  client test g = Ret g' -> sticky g ->
  sticky g' /\ tests_run g' <> [].
Proof.
  unfold Main.client, sticky. intros H Hg.
  apply bind_Ret_inv in H as (p & _ & H).
  destruct (run_client test (length (tests_run g)) p) as [b p'|];
    [|discriminate].
  injection H as <-. cbn [ExitStatus tests_run].
  split; [|now destruct (tests_run g)].
  rewrite forallb_app. cbn [forallb snd]. rewrite andb_true_r.
  destruct b; cbn [negb].
  - now rewrite andb_true_r.
  - now rewrite andb_false_r.
Qed.

Lemma do_args_loop_sticky (fuel : nat) :
  forall args isClient testSpecified g isClient' testSpecified' g',
    do_args_loop fuel args isClient testSpecified g
    = Ret (isClient', testSpecified', g') ->
    sticky g -> (testSpecified = true -> tests_run g <> []) ->
    sticky g' /\ (testSpecified' = true -> tests_run g' <> []).
Proof.
  induction fuel as [|fuel IH]; intros args isC tS g isC' tS' g' H Hg Ht.
  - destruct args; [|discriminate]. now injection H as <- <- <-.
  - destruct args as [|arg args]; [now injection H as <- <- <-|].
    cbn [Main.do_args_loop] in H.
    destruct (starts_with_dash arg).
    + destruct (find_option arg) as [o|]; [|discriminate].
      apply bind_Ret_inv in H as ([args' s'] & _ & H).
      eapply IH; [exact H|exact Hg|exact Ht].
    + destruct (ServerName (conf g)).
      * destruct (find_test verbs arg); [|discriminate].
        apply bind_Ret_inv in H as (g1 & Hc & H).
        apply client_sticky in Hc as [Hs Hne]; [|exact Hg].
        eapply IH; [exact H|exact Hs|intros _; exact Hne].
      * eapply IH; [exact H|exact Hg|exact Ht].
Qed.


(** [find_test] finds the name it was given, and test names do not start
    with a dash. *)
Lemma find_test_from_spec (tests : list string) :
  forall i nm p,
    find_test_from i tests nm = Some p ->
    In nm tests /\ (i <= p)%nat /\ nth (p - i) tests "" = nm.
Proof.
  induction tests as [|t tests IH]; intros i nm p H; [discriminate|].
  cbn [find_test_from] in H. unfold Args.streq in H.
  destruct (String.eqb nm t) eqn:E.
  - apply String.eqb_eq in E. injection H as <-. subst t.
    rewrite Nat.sub_diag. simpl. auto.
  - apply IH in H as (Hin & Hle & Hnth).
    split; [now right|]. split; [lia|].
    replace (p - i)%nat with (S (p - S i)) by lia. exact Hnth.
Qed.

Lemma find_test_spec (nm : string) (p : nat) :
  find_test verbs nm = Some p ->
  nth p (Server.Tests verbs) "" = nm /\ starts_with_dash nm = false.
Proof.
  unfold find_test. intros H.
  apply find_test_from_spec in H as (Hin & _ & Hnth).
  rewrite Nat.sub_0_r in Hnth. split; [exact Hnth|].
  assert (Hall : forallb (fun t => negb (starts_with_dash t))
                   (Server.Tests verbs) = true)
    by (destruct verbs; reflexivity).
  rewrite forallb_forall in Hall. apply Hall in Hin.
  now apply negb_true_iff in Hin.
Qed.

(** What [client] notes of a test is what the body of that run
    answered. *)
Lemma client_genuine test g g' :
  client test g = Ret g' ->
  (forall n t b, tests_run g !! n = Some (t, b) ->
                 exists p p', run_client t n p = Returns b p') ->
  forall n t b, tests_run g' !! n = Some (t, b) ->
                exists p p', run_client t n p = Returns b p'.
Proof.
  unfold Main.client. intros H Hg n t b Hn.
  apply bind_Ret_inv in H as (p & _ & H).
  destruct (run_client test (length (tests_run g)) p) as [b0 p'|] eqn:E;
    [|discriminate].
  injection H as <-. cbn [tests_run] in Hn.
  apply lookup_app_Some in Hn as [Hn|[Hle Hn]]; [now apply (Hg n)|].
  destruct (n - length (tests_run g))%nat as [|k] eqn:Ek;
    [|discriminate Hn].
  injection Hn as <- <-.
  replace n with (length (tests_run g)) by lia.
  now exists p, p'.
Qed.

Lemma do_args_loop_genuine (fuel : nat) :
  forall args isClient testSpecified g isClient' testSpecified' g',
    do_args_loop fuel args isClient testSpecified g
    = Ret (isClient', testSpecified', g') ->
    (forall n t b, tests_run g !! n = Some (t, b) ->
                   exists p p', run_client t n p = Returns b p') ->
    forall n t b, tests_run g' !! n = Some (t, b) ->
                  exists p p', run_client t n p = Returns b p'.
Proof.
  induction fuel as [|fuel IH]; intros args isC tS g isC' tS' g' H Hg.
  - destruct args; [|discriminate]. now injection H as <- <- <-.
  - destruct args as [|arg args]; [now injection H as <- <- <-|].
    cbn [Main.do_args_loop] in H.
    destruct (starts_with_dash arg).
    + destruct (find_option arg) as [o|]; [|discriminate].
      apply bind_Ret_inv in H as ([args' s'] & _ & H).
      eapply IH; [exact H|exact Hg].
    + destruct (ServerName (conf g)).
      * destruct (find_test verbs arg); [|discriminate].
        apply bind_Ret_inv in H as (g1 & Hc & H).
        eapply IH; [exact H|]. eapply client_genuine; eassumption.
      * eapply IH; [exact H|exact Hg].
Qed.

Lemma forallb_snd_combine (tests : list string) :
  forall flags : list bool,
    length flags = length tests ->
    forallb snd (combine tests flags) = forallb id flags.
Proof.
  induction tests as [|t tests IH]; intros [|b flags] H;
    try discriminate H; [reflexivity|].
  cbn [combine forallb snd id]. f_equal. apply IH. simpl in H. lia.
Qed.

(** A run of test names behind the host name: every test is run, in
    order, as long as the bodies come back, and what is noted of each is
    what its body answered. *)
Lemma do_args_loop_tests (tests : list string) :
  forall fuel isClient testSpecified g,
    (forall t n p, exists b p', run_client t n p = Returns b p') ->
    (length tests <= fuel)%nat ->
    Forall (fun t => find_test verbs t <> None) tests ->
    ServerName (conf g) <> None ->
    exists g',
      do_args_loop fuel tests isClient testSpecified g
      = Ret (match tests with [] => isClient | _ => true end,
             match tests with [] => testSpecified | _ => true end, g')
      /\ tests_run g'
         = (tests_run g
            ++ combine tests
                 (bodies tests (length (tests_run g)) (pars (conf g))))%list
      /\ length (bodies tests (length (tests_run g)) (pars (conf g)))
         = length tests.
Proof.
  induction tests as [|t tests IH];
    intros fuel isC tS g Hret Hfuel Hok Hsrv.
  - exists g. split; [destruct fuel; reflexivity|].
    split; [now rewrite app_nil_r|reflexivity].
  - destruct fuel as [|fuel]; [simpl in Hfuel; lia|].
    apply Forall_cons in Hok as [Ht Hok].
    destruct (find_test verbs t) as [p|] eqn:Ep; [|contradiction].
    destruct (find_test_spec t p Ep) as [Hnth Hdash].
    cbn [Main.do_args_loop Main.bodies]. rewrite Hdash, Ep, Hnth.
    destruct (ServerName (conf g)) as [h|] eqn:Eh; [|contradiction].
    unfold Main.client.
    destruct (ParFacts.client_start_spec (pars (conf g))) as (p1 & E1 & _).
    rewrite E1, bind_Ret.
    destruct (Hret t (length (tests_run g)) p1) as (b & p2 & E2).
    rewrite E2, bind_Ret. cbn [tl].
    set (g1 := {| conf := with_pars p2 (conf g);
                  ExitStatus := if negb b then 1 else ExitStatus g;
                  tests_run := (tests_run g ++ [(t, b)])%list |}).
    destruct (IH fuel true true g1 Hret) as (g' & E' & Hm & Hl);
      [simpl in Hfuel; lia|exact Hok|cbn; now rewrite Eh|].
    assert (L1 : length (tests_run g1) = S (length (tests_run g)))
      by (subst g1; cbn [tests_run]; rewrite length_app; simpl; lia).
    rewrite L1 in Hm, Hl.
    change (pars (conf g1)) with p2 in Hm, Hl.
    exists g'. split; [|split].
    + rewrite E'. now destruct tests.
    + rewrite Hm. subst g1. cbn [tests_run combine].
      now rewrite <- app_assoc.
    + cbn [length]. now rewrite Hl.
Qed.


End WithEnvironment.



End MainFacts.

(** ** D. [arg_size] *)

Module ArgsFacts.

Import Args.

Local Open Scope string_scope.
Local Open Scope Z_scope.

(** [arg_size] against the suffix table of the specification. *)
Lemma arg_size_by_suffix (argv0 argv1 : string) (rest : list string)
  (d : ldouble) (p : string) :
  strtold argv1 = (d, p) ->
  ld_neg0 d = false ->
  arg_size (argv0 :: argv1 :: rest)
  = match size_suffix p with
    | Some None => l ← to_long d; Ret (l, rest)
    | Some (Some k) => l ← to_long (ld_mul d k); Ret (l, rest)
    | None => Die ("Bad argument: " ++ argv1)
    end.
Proof.
  intros Hs Hd. unfold arg_size, size_suffix, streq. rewrite Hs, Hd.
  destruct (String.eqb p "") eqn:E0; [reflexivity|].
  destruct (String.eqb p "k") eqn:E1;
    [apply String.eqb_eq in E1; subst p; reflexivity|].
  destruct (String.eqb p "kb") eqn:E2;
    [apply String.eqb_eq in E2; subst p; reflexivity|].
  destruct (String.eqb p "m") eqn:E3;
    [apply String.eqb_eq in E3; subst p; reflexivity|].
  destruct (String.eqb p "mb") eqn:E4;
    [apply String.eqb_eq in E4; subst p; reflexivity|].
  destruct (String.eqb p "g") eqn:E5;
    [apply String.eqb_eq in E5; subst p; reflexivity|].
  destruct (String.eqb p "gb") eqn:E6;
    [apply String.eqb_eq in E6; subst p; reflexivity|].
  destruct (String.eqb p "K") eqn:E7;
    [apply String.eqb_eq in E7; subst p; reflexivity|].
  destruct (String.eqb p "kib") eqn:E8;
    [apply String.eqb_eq in E8; subst p; reflexivity|].
  destruct (String.eqb p "M") eqn:E9;
    [apply String.eqb_eq in E9; subst p; reflexivity|].
  destruct (String.eqb p "mib") eqn:E10;
    [apply String.eqb_eq in E10; subst p; reflexivity|].
  destruct (String.eqb p "G") eqn:E11;
    [apply String.eqb_eq in E11; subst p; reflexivity|].
  destruct (String.eqb p "gib") eqn:E12;
    [apply String.eqb_eq in E12; subst p; reflexivity|].
  reflexivity.
Qed.

(** *** Whole numbers are exact *)

Lemma ilog2_upper (p q : Z) :
  0 < p -> 0 < q -> p < q * 2 ^ 64 -> ilog2 p q <= 63.
Proof.
  intros Hp Hq H. unfold ilog2.
  pose proof (Z.log2_spec p Hp) as [Lp Up].
  pose proof (Z.log2_spec q Hq) as [Lq Uq].
  pose proof (Z.log2_nonneg p) as Np. pose proof (Z.log2_nonneg q) as Nq.
  set (e0 := Z.log2 p - Z.log2 q) in *.
  destruct (Z.le_gt_cases e0 63) as [Hle|Hgt].
  { destruct (if 0 <=? e0 then p <? q * 2 ^ e0 else p * 2 ^ (- e0) <? q); lia. }
  replace (0 <=? e0) with true by (symmetry; apply Z.leb_le; lia).
  assert (H64 : q * 2 ^ 64 <= q * 2 ^ e0).
  { apply Z.mul_le_mono_nonneg_l; [lia|]. apply Z.pow_le_mono_r; lia. }
  replace (p <? q * 2 ^ e0) with true by (symmetry; apply Z.ltb_lt; lia).
  (* the branch e0 - 1: then e0 = 64 or a contradiction *)
  destruct (Z.le_gt_cases e0 64) as [H1|H1]; [lia|].
  exfalso.
  assert (Hpow : 2 ^ (Z.log2 q + 1) * 2 ^ 64 <= 2 ^ Z.log2 p).
  { rewrite <- Z.pow_add_r by lia. apply Z.pow_le_mono_r; lia. }
  assert (q * 2 ^ 64 < 2 ^ (Z.log2 q + 1) * 2 ^ 64).
  { apply Z.mul_lt_mono_pos_r; lia. }
  lia.
Qed.

Lemma round_div_exact (m q : Z) : 0 < q -> round_div (m * q) q = m.
Proof.
  intros Hq. unfold round_div.
  rewrite Z.mod_mul, Z.div_mul by lia.
  replace (2 * 0 <? q) with true by (symmetry; apply Z.ltb_lt; lia).
  reflexivity.
Qed.

(** A quotient that is a whole number below [2^64] is represented as it
    is. *)
Lemma ld_of_pos_exact (m q : Z) :
  0 < m < 2 ^ 64 -> 0 < q ->
  exists sc, 0 <= sc
             /\ ld_of_pos (m * q) q = Fin (m * 2 ^ sc # Z.to_pos (2 ^ sc)).
Proof.
  intros Hm Hq. unfold ld_of_pos.
  assert (He : ilog2 (m * q) q <= 63) by (apply ilog2_upper; nia).
  set (sc := Z.min (63 - ilog2 (m * q) q) 16445).
  assert (Hsc : 0 <= sc) by (subst sc; lia).
  exists sc. split; [exact Hsc|].
  replace (0 <=? sc) with true by (symmetry; apply Z.leb_le; lia).
  replace (m * q * 2 ^ sc) with (m * 2 ^ sc * q) by lia.
  now rewrite round_div_exact.
Qed.

Lemma to_long_exact (m sc : Z) :
  0 <= m < 2 ^ 63 -> 0 <= sc ->
  to_long (Fin (m * 2 ^ sc # Z.to_pos (2 ^ sc))) = Ret m.
Proof.
  intros Hm Hsc. unfold to_long. cbn [Qnum Qden].
  assert (Hp : 0 < 2 ^ sc) by (apply Z.pow_pos_nonneg; lia).
  rewrite Z2Pos.id by exact Hp.
  rewrite Z.quot_mul by lia.
  replace (- 2 ^ 63 <=? m) with true by (symmetry; apply Z.leb_le; lia).
  replace (m <? 2 ^ 63) with true by (symmetry; apply Z.ltb_lt; lia).
  reflexivity.
Qed.

Lemma ld_of_Z_exact (n : Z) :
  0 <= n < 2 ^ 64 ->
  exists sc, 0 <= sc
             /\ ld_of_Q (inject_Z n) = Fin (n * 2 ^ sc # Z.to_pos (2 ^ sc)).
Proof.
  intros Hn. unfold ld_of_Q, inject_Z. cbn [Qnum Qden].
  destruct n as [|p|p]; [exists 0; split; [lia|reflexivity]| |lia].
  destruct (ld_of_pos_exact (Z.pos p) 1) as (sc & Hsc & E); [lia|lia|].
  rewrite Z.mul_1_r in E. eauto.
Qed.

Lemma ld_mul_exact (n sc k : Z) :
  0 <= n -> 0 <= sc -> 0 < k -> n * k < 2 ^ 64 ->
  exists sc', 0 <= sc'
              /\ ld_mul (Fin (n * 2 ^ sc # Z.to_pos (2 ^ sc))) k
                 = Fin (n * k * 2 ^ sc' # Z.to_pos (2 ^ sc')).
Proof.
  intros Hn Hsc Hk Hnk. unfold ld_mul, ld_of_Q, Qmult, inject_Z.
  cbn [Qnum Qden]. rewrite Pos.mul_1_r.
  assert (Hp : 0 < 2 ^ sc) by (apply Z.pow_pos_nonneg; lia).
  destruct (Z.eq_dec n 0) as [->|Hn0].
  { exists 0. split; [lia|reflexivity]. }
  assert (Hpos : 0 < n * 2 ^ sc * k) by nia.
  destruct (n * 2 ^ sc * k) as [|p|p] eqn:E; try lia.
  rewrite <- E, Z2Pos.id by exact Hp.
  replace (n * 2 ^ sc * k) with (n * k * 2 ^ sc) by lia.
  apply ld_of_pos_exact; [nia|lia].
Qed.

(** *** [strtold] on a whole number *)

Lemma digit_props (c : ascii) :
  isdigit c = true ->
  isspace c = false /\ tolower c = c
  /\ Ascii.eqb "i" c = false /\ Ascii.eqb "n" c = false
  /\ Ascii.eqb "x" c = false
  /\ Ascii.eqb c "-" = false /\ Ascii.eqb c "+" = false
  /\ 0 <= default 0 (hex_val c).
Proof.
  destruct c as [[] [] [] [] [] [] [] []]; intros H; try discriminate H;
    repeat split; try reflexivity; cbv; discriminate.
Qed.

Lemma hex_val_nonneg (c : ascii) : 0 <= default 0 (hex_val c).
Proof. destruct c as [[] [] [] [] [] [] [] []]; cbv; discriminate. Qed.

Lemma digits_val_nonneg (b : Z) (ds : list ascii) :
  0 <= b -> 0 <= digits_val b ds.
Proof.
  intros Hb. unfold digits_val.
  assert (G : forall acc, 0 <= acc ->
    0 <= fold_left (fun acc c => acc * b + default 0 (hex_val c)) ds acc).
  { induction ds as [|d ds IH]; intros acc Hacc; simpl; [exact Hacc|].
    apply IH. pose proof (hex_val_nonneg d). nia. }
  apply G. lia.
Qed.


(** A string that starts with a digit, with no [x] behind it, takes the
    decimal branch of [strtold]. *)
Lemma strtold_unsigned_decimal (d : ascii) (t : list ascii) :
  isdigit d = true ->
  match t with [] => True | c :: _ => Ascii.eqb "x" (tolower c) = false end ->
  strtold_unsigned (d :: t)
  = match mantissa isdigit (d :: t) with
    | Some (ds, frac, l2) =>
        let '(e, l3) := exponent "e" l2 in
        Some (ld_of_Q (scale (digits_val 10 ds) 10 (e - Z.of_nat frac)), l3)
    | None => None
    end.
Proof.
  intros Hd Ht.
  destruct (digit_props d Hd) as (_ & Hl & Hi & Hn & _).
  unfold strtold_unsigned.
  cbn [skip_prefix list_ascii_of_string].
  rewrite Hl, Hi, Hn.
  destruct (Ascii.eqb "0" d); [|reflexivity].
  destruct t as [|c t]; [reflexivity|]. now rewrite Ht.
Qed.

Lemma mantissa_whole (ds sfx : list ascii) :
  ds <> [] -> forallb isdigit ds = true -> ends_number sfx ->
  mantissa isdigit (ds ++ sfx)%list = Some (ds, O, sfx).
Proof.
  intros Hne Hd Hs. unfold mantissa.
  rewrite TimesFacts.span_prefix;
    [|exact Hd|destruct sfx; [exact I|apply Hs]].
  destruct ds as [|d ds]; [contradiction|].
  destruct sfx as [|c sfx]; [reflexivity|].
  destruct Hs as (_ & Hdot & _).
  destruct c as [[] [] [] [] [] [] [] []]; try reflexivity; discriminate Hdot.
Qed.

Lemma exponent_none (sfx : list ascii) :
  ends_number sfx -> exponent "e" sfx = (0, sfx).
Proof.
  intros Hs. destruct sfx as [|c sfx]; [reflexivity|].
  destruct Hs as (_ & _ & _ & He). unfold exponent. now rewrite He.
Qed.

(** [strtold] reads a run of digits followed by such an end as the whole
    number it writes, and stops behind the digits. *)
Lemma strtold_whole (ds sfx : list ascii) :
  ds <> [] -> forallb isdigit ds = true -> ends_number sfx ->
  strtold (str (ds ++ sfx)%list)
  = (ld_of_Q (inject_Z (digits_val 10 ds)), str sfx).
Proof.
  intros Hne Hd Hs. unfold strtold, str.
  rewrite list_ascii_of_string_of_list_ascii.
  destruct ds as [|d ds]; [contradiction|].
  pose proof Hd as Hd'. cbn [forallb] in Hd'.
  apply andb_true_iff in Hd' as [Hd1 Hd2].
  destruct (digit_props d Hd1) as (Hsp & _ & _ & _ & _ & Hm & Hp & _).
  cbn [app span]. rewrite Hsp. cbn [snd].
  assert (Hsign : (match d :: ds ++ sfx with
                   | "-"%char :: l2 => (true, l2)
                   | "+"%char :: l2 => (false, l2)
                   | _ => (false, d :: ds ++ sfx)
                   end) = (false, d :: ds ++ sfx)).
  { destruct d as [[] [] [] [] [] [] [] []]; try reflexivity;
      discriminate. }
  rewrite Hsign.
  rewrite strtold_unsigned_decimal; [|exact Hd1|].
  - change (d :: (ds ++ sfx)%list) with ((d :: ds) ++ sfx)%list.
    rewrite mantissa_whole, exponent_none by assumption.
    unfold scale. cbn [Z.of_nat Z.sub Z.opp Z.leb Z.compare].
    change (10 ^ 0) with 1. now rewrite Z.mul_1_r.
  - destruct ds as [|d2 ds].
    + destruct sfx as [|c sfx]; [exact I|]. apply Hs.
    + cbn [forallb] in Hd2. apply andb_true_iff in Hd2 as [Hd2 _].
      destruct (digit_props d2 Hd2) as (_ & Hl & _ & _ & Hx & _).
      cbn [app]. now rewrite Hl.
Qed.


(** The suffixes of the table, and that each may end a number. *)
Lemma size_suffix_cases (p : string) (k : option Z) :
  size_suffix p = Some k ->
  ends_number (list_ascii_of_string p)
  /\ match k with Some k => 0 < k | None => True end.
Proof.
  unfold size_suffix. intros H.
  repeat match type of H with
         | (if ?c then _ else _) = _ =>
             let E := fresh "E" in
             destruct c eqn:E;
             [ first [ apply String.eqb_eq in E
                     | apply orb_true_iff in E as [E|E];
                       apply String.eqb_eq in E ];
               subst p; injection H as <-; cbv; intuition (discriminate || lia)
             | ]
         end.
  discriminate H.
Qed.

(** C7.  [arg_size] takes its next token through [strtold] (a number,
    possibly fractional; a negative one is refused) and treats what
    follows the number by this table: no suffix means bytes, lowercase
    [k]/[m]/[g] (and [kb]/[mb]/[gb]) multiply by [10^3]/[10^6]/[10^9],
    uppercase [K]/[M]/[G] (and [kib]/[mib]/[gib]) by
    [1024]/[1024^2]/[1024^3], anything else is a bad argument; the product
    is truncated to a [long].  The product is taken in [long double]; for
    a whole number of any length with a suffix of the table the result is
    the exact product whenever that fits a [long].  In particular ["1k"]
    gives 1000, ["1K"] 1024, ["1.5G"] 1610612736 and ["1gb"] 1000000000. *)
Theorem arg_size_suffix_table :
  (forall (argv0 argv1 : string) (rest : list string) (d : ldouble)
          (p : string),
      strtold argv1 = (d, p) ->
      arg_size (argv0 :: argv1 :: rest)
      = if ld_neg0 d
        then Die (argv0 ++ " requires a non-negative number")
        else match size_suffix p with
             | Some None => l ← to_long d; Ret (l, rest)
             | Some (Some k) => l ← to_long (ld_mul d k); Ret (l, rest)
             | None => Die ("Bad argument: " ++ argv1)
             end)
  /\ (forall (argv0 : string) (ds : list ascii) (p : string)
             (rest : list string) (k : option Z),
         ds <> [] -> forallb isdigit ds = true ->
         size_suffix p = Some k ->
         digits_val 10 ds * default 1 k < 2 ^ 63 ->
         arg_size (argv0 :: str (ds ++ list_ascii_of_string p)%list :: rest)
         = Ret (digits_val 10 ds * default 1 k, rest))
  /\ arg_size [ "-m"; "1k" ] = Ret (1000, [])
  /\ arg_size [ "-m"; "1K" ] = Ret (1024, [])
  /\ arg_size [ "-m"; "1.5G" ] = Ret (1610612736, [])
  /\ arg_size [ "-m"; "1gb" ] = Ret (1000000000, []).
Proof.
  split.
  { intros argv0 argv1 rest d p Hs.
    destruct (ld_neg0 d) eqn:Hd; [|now apply arg_size_by_suffix].
    unfold arg_size. now rewrite Hs, Hd. }
  split; [|repeat split; vm_compute; reflexivity].
  intros argv0 ds p rest k Hne Hd Hk Hfit.
  destruct (size_suffix_cases p k Hk) as [Hend Hpos].
  pose proof (strtold_whole ds (list_ascii_of_string p) Hne Hd Hend) as Hs.
  unfold str at 2 in Hs. rewrite string_of_list_ascii_of_string in Hs.
  set (n := digits_val 10 ds) in *.
  assert (Hn : 0 <= n) by (apply digits_val_nonneg; lia).
  assert (Hn64 : 0 <= n < 2 ^ 64).
  { split; [exact Hn|].
    destruct k as [k|]; cbn in Hfit, Hpos; unfold id in Hfit; [|lia].
    assert (n * 1 <= n * k) by (apply Z.mul_le_mono_nonneg_l; lia). lia. }
  destruct (ld_of_Z_exact n Hn64) as (sc & Hsc & Ed).
  rewrite Ed in Hs.
  rewrite (arg_size_by_suffix _ _ _ _ _ Hs), Hk.
  2:{ cbn [ld_neg0 Qnum]. apply Z.ltb_ge.
      apply Z.mul_nonneg_nonneg; [exact Hn|]. apply Z.pow_nonneg. lia. }
  destruct k as [k|]; cbn [default from_option] in Hfit, Hpos |- *;
    unfold id in Hfit |- *.
  - destruct (ld_mul_exact n sc k) as (sc' & Hsc' & Em); try lia.
    rewrite Em, to_long_exact; [reflexivity| |exact Hsc'].
    split; [apply Z.mul_nonneg_nonneg; lia|exact Hfit].
  - rewrite Z.mul_1_r in Hfit |- *.
    rewrite to_long_exact by lia. reflexivity.
Qed.

(** C7 witness: [--msg_size 64K], and [4gb] as a whole number. *)
Lemma arg_size_suffix_table_witness :
  (strtold "64K" = (Fin (9223372036854775808 # 144115188075855872), "K")
   /\ ld_neg0 (Fin (9223372036854775808 # 144115188075855872)) = false
   /\ arg_size [ "--msg_size"; "64K"; "tcp_bw" ] = Ret (65536, [ "tcp_bw" ]))
  /\ ([ "4"%char ] <> []
      /\ forallb isdigit [ "4"%char ] = true
      /\ size_suffix "gb" = Some (Some (10 ^ 9))
      /\ digits_val 10 [ "4"%char ] * default 1 (Some (10 ^ 9)) < 2 ^ 63
      /\ arg_size [ "-m"; "4gb" ] = Ret (4000000000, [])).
Proof.
  split.
  - split; [vm_compute; reflexivity|]. split; [reflexivity|].
    rewrite (proj1 arg_size_suffix_table "--msg_size" "64K" [ "tcp_bw" ]
               (Fin (9223372036854775808 # 144115188075855872)) "K");
      [vm_compute; reflexivity|vm_compute; reflexivity].
  - split; [discriminate|]. split; [reflexivity|]. split; [reflexivity|].
    split; [vm_compute; reflexivity|].
    apply (proj1 (proj2 arg_size_suffix_table) "-m" [ "4"%char ] "gb" []
             (Some (10 ^ 9)));
      [discriminate|reflexivity|reflexivity|vm_compute; reflexivity].
Defined.

End ArgsFacts.

(** ** A. Wire codec: layout and round trips of the other messages *)

Module CodecMore.

Import Codec.

Lemma div_pow2_8_S (l : Z) (k : nat) :
  l / 256 / 2 ^ (8 * Z.of_nat k) = l / 2 ^ (8 * Z.of_nat (S k)).
Proof.
  rewrite CodecFacts.pow2_8_S, Z.div_div by
    (try apply Z.pow_pos_nonneg; lia).
  reflexivity.
Qed.

Lemma bytes_of_layout (n : nat) : forall l,
  bytes_of l n
  = map (fun k => (l / 2 ^ (8 * Z.of_nat k)) mod 256) (seq 0 n).
Proof.
  induction n as [|n IH]; intros l; [reflexivity|].
  rewrite CodecFacts.bytes_of_S, IH. cbn [seq map].
  f_equal; [now rewrite Z.div_1_r|].
  rewrite <- seq_shift, map_map. apply map_ext. intros k.
  rewrite Z.shiftr_div_pow2 by lia. change (2 ^ 8) with 256.
  now rewrite div_pow2_8_S.
Qed.

(** X1.  [enc_int(l, n)] appends exactly [n] bytes to what has been
    encoded so far, least significant byte first: byte [k] is
    [(l >> 8k) & 0xFF], for negative [l] too (the shift is arithmetic). *)
Theorem enc_int_appends_little_endian (l : Z) (n : nat) (p : list Z) :
  enc_int l n p
  = p ++ map (fun k => (l / 2 ^ (8 * Z.of_nat k)) mod 256) (seq 0 n).
Proof. now rewrite CodecFacts.enc_int_bytes, bytes_of_layout. Qed.

Lemma to_int64_small (x : Z) : 0 <= x < 2 ^ 63 -> to_int64 x = x.
Proof.
  intros H. unfold to_int64. rewrite Z.mod_small; lia.
Qed.

Lemma to_int64_wrap (l : Z) :
  - 2 ^ 63 <= l < 2 ^ 63 -> to_int64 (l mod 2 ^ 64) = l.
Proof.
  intros H. unfold to_int64.
  rewrite Zplus_mod_idemp_l.
  rewrite Z.mod_small; lia.
Qed.

(** X2.  [dec_int(n)] on the bytes of [enc_int(l, n)], for a width of at
    most eight bytes, consumes exactly these bytes and returns the low [n]
    bytes of [l] read as an unsigned number: below eight bytes nothing is
    sign-extended, so a negative [l] comes back as [l + 2^(8n)]; at eight
    bytes every [int64_t] comes back as itself. *)
Theorem dec_int_after_enc_int (l : Z) (n : nat) (rest : list Z) :
  (n <= 8)%nat ->
  dec_int n (enc_int l n [] ++ rest)
  = (to_int64 (l mod 2 ^ (8 * Z.of_nat n)), rest)
  /\ ((n < 8)%nat ->
      fst (dec_int n (enc_int l n [] ++ rest)) = l mod 2 ^ (8 * Z.of_nat n))
  /\ (n = 8%nat -> - 2 ^ 63 <= l < 2 ^ 63 ->
      fst (dec_int n (enc_int l n [] ++ rest)) = l).
Proof.
  intros Hn.
  assert (E : dec_int n (enc_int l n [] ++ rest)
              = (to_int64 (l mod 2 ^ (8 * Z.of_nat n)), rest)).
  { fold (bytes_of l n).
    now rewrite CodecFacts.dec_int_bytes, CodecFacts.le_val_bytes_of. }
  split; [exact E|]. rewrite E. cbn [fst]. split.
  - intros Hlt. apply to_int64_small.
    assert (Hb : 0 <= l mod 2 ^ (8 * Z.of_nat n) < 2 ^ (8 * Z.of_nat n))
      by (apply Z.mod_pos_bound, Z.pow_pos_nonneg; lia).
    assert (2 ^ (8 * Z.of_nat n) <= 2 ^ 56)
      by (apply Z.pow_le_mono_r; lia).
    assert (2 ^ 56 < 2 ^ 63) by (apply Z.pow_lt_mono_r; lia).
    lia.
  - intros -> Hl. change (8 * Z.of_nat 8) with 64. now apply to_int64_wrap.
Qed.

(** X2 witness: [-2] in a four-byte field. *)
Lemma dec_int_after_enc_int_witness :
  (4 <= 8)%nat
  /\ enc_int (-2) 4 [] = [254; 255; 255; 255]
  /\ dec_int 4 (enc_int (-2) 4 [] ++ [7]) = (4294967294, [7]).
Proof.
  split; [lia|]. split; [reflexivity|].
  rewrite (proj1 (dec_int_after_enc_int (-2) 4 [7] ltac:(lia))).
  reflexivity.
Defined.

(** X3.  [dec_req] applied to the bytes of [enc_req] gives back every
    member of a request that fits its widths, except [rate]: that member
    is not on the wire and keeps what the decoding side held.  Bytes that
    follow the encoding are left unread. *)
Theorem dec_req_after_enc_req (sz : SIZES) (host q : REQ) (rest : list Z) :
  sizes_ok sz -> req_fits sz q -> length (id host) = STRSIZE sz ->
  dec_req sz host (enc_req sz q [] ++ rest) = (with_rate (rate host) q, rest).
Proof. intros Hsz Hq Hid. now apply CodecFacts.dec_enc_req_with_rest. Qed.

(** X3 witness: the request of [qperf host --rate 10 rc_bw], followed on
    the wire by three more bytes. *)
Lemma dec_req_after_enc_req_witness :
  sizes_ok sizes64
  /\ req_fits sizes64 RReq_rate10
  /\ length (id (Req_zero sizes64)) = STRSIZE sizes64
  /\ dec_req sizes64 (Req_zero sizes64)
       (enc_req sizes64 RReq_rate10 [] ++ [1; 2; 3])
     = (with_rate (repeat 0 64%nat) RReq_rate10, [1; 2; 3]).
Proof.
  split; [exact CodecFacts.sizes64_ok|].
  split; [exact CodecFacts.RReq_rate10_fits|].
  split; [reflexivity|].
  rewrite (dec_req_after_enc_req sizes64 (Req_zero sizes64) RReq_rate10
             [1; 2; 3] CodecFacts.sizes64_ok CodecFacts.RReq_rate10_fits
             eq_refl).
  reflexivity.
Defined.

(** X4.  The results message: [dec_stat] applied to the bytes of
    [enc_stat] gives back the whole [STAT], both arrays of ticks and the
    four [USTAT] blocks included, when every member fits its width; bytes
    that follow are left unread. *)
Theorem dec_stat_after_enc_stat (sz : SIZES) (host t : STAT)
  (rest : list Z) :
  sizes_ok sz -> stat_fits sz t ->
  length (time_s host) = T_N -> length (time_e host) = T_N ->
  dec_stat sz host (enc_stat sz t [] ++ rest) = (t, rest).
Proof. intros Hsz Ht Hs He. now apply CodecFacts.dec_enc_stat_with_rest. Qed.

Lemma fits_literal (w : nat) (v : Z) :
  (0 <=? v) && (v <? 2 ^ (8 * Z.of_nat w)) = true -> fits w v.
Proof.
  intros H. apply andb_true_iff in H as [H1 H2].
  split; [now apply Z.leb_le|now apply Z.ltb_lt].
Qed.

(** X4 witness: the counters of a sender after a two-second run, decoded
    into a zeroed [STAT]. *)
Lemma dec_stat_after_enc_stat_witness :
  sizes_ok sizes64
  /\ stat_fits sizes64
       (mkSTAT 4 100 0 [500; 1; 0; 2; 190; 0; 0; 0; 0]
               [700; 60; 0; 40; 290; 1; 2; 3; 0]
               (mkUSTAT 123456789012 94000 0) (mkUSTAT 0 0 0)
               (mkUSTAT 0 0 0) (mkUSTAT 123456789012 94000 0))
  /\ dec_stat sizes64
       (mkSTAT 0 0 0 (repeat 0 9%nat) (repeat 0 9%nat) (mkUSTAT 0 0 0)
               (mkUSTAT 0 0 0) (mkUSTAT 0 0 0) (mkUSTAT 0 0 0))
       (enc_stat sizes64
          (mkSTAT 4 100 0 [500; 1; 0; 2; 190; 0; 0; 0; 0]
                  [700; 60; 0; 40; 290; 1; 2; 3; 0]
                  (mkUSTAT 123456789012 94000 0) (mkUSTAT 0 0 0)
                  (mkUSTAT 0 0 0) (mkUSTAT 123456789012 94000 0)) [] ++ [])
     = (mkSTAT 4 100 0 [500; 1; 0; 2; 190; 0; 0; 0; 0]
               [700; 60; 0; 40; 290; 1; 2; 3; 0]
               (mkUSTAT 123456789012 94000 0) (mkUSTAT 0 0 0)
               (mkUSTAT 0 0 0) (mkUSTAT 123456789012 94000 0), []).
Proof.
  assert (Hfit : stat_fits sizes64
            (mkSTAT 4 100 0 [500; 1; 0; 2; 190; 0; 0; 0; 0]
                    [700; 60; 0; 40; 290; 1; 2; 3; 0]
                    (mkUSTAT 123456789012 94000 0) (mkUSTAT 0 0 0)
                    (mkUSTAT 0 0 0) (mkUSTAT 123456789012 94000 0))).
  { split; cbn;
      repeat first [ apply fits_literal; reflexivity
                   | split
                   | constructor ]. }
  split; [exact CodecFacts.sizes64_ok|]. split; [exact Hfit|].
  apply (dec_stat_after_enc_stat sizes64 _ _ [] CodecFacts.sizes64_ok Hfit);
    reflexivity.
Defined.

End CodecMore.

(** ** B. What a run of [send_recv_mesg] leaves in the buffer *)

Module BufferFacts.

Import Mesg Buffer.

Local Open Scope Z_scope.

(** Every call of a run is made on the [buf] that came in. *)
Lemma mesg_loop_calls act item is_client etime env :
  forall len io r,
    mesg_loop act item is_client etime len io env = Some r ->
    exists new, calls r = (io ++ new)%list
                /\ Forall (fun c => offset c = 0) new.
Proof.
  induction env as [|t env IH]; intros len io r H; simpl in H.
  - destruct (len =? 0); [|discriminate].
    inversion H; subst r; simpl. exists []. now rewrite app_nil_r.
  - assert (Hnil : exists new : list io_call,
               io = (io ++ new)%list /\ Forall (fun c => offset c = 0) new)
      by (exists []; now rewrite app_nil_r).
    destruct (len =? 0); [inversion H; subst r; exact Hnil|].
    destruct (Qle_bool (etime - now t) 0);
      [inversion H; subst r; exact Hnil|].
    destruct (select_ret t <? 0); [inversion H; subst r; exact Hnil|].
    destruct (negb (fd_isset t)); [now apply IH in H|].
    set (c := {| offset := 0; count := len; ret := func_ret t |}) in *.
    assert (Hone : exists new : list io_call,
               (io ++ [c])%list = (io ++ new)%list
               /\ Forall (fun c => offset c = 0) new)
      by (exists [c]; split; [reflexivity|repeat constructor]).
    destruct (func_ret t <? 0); [inversion H; subst r; exact Hone|].
    destruct (func_ret t =? 0); [inversion H; subst r; exact Hone|].
    apply IH in H as (new & E & F). exists (c :: new).
    split; [now rewrite E, <- app_assoc|].
    constructor; [reflexivity|exact F].
Qed.

Lemma transferred_app (a b : list io_call) :
  transferred (a ++ b) = transferred a + transferred b.
Proof.
  unfold transferred. induction a as [|c a IH]; simpl; [reflexivity|].
  rewrite IH. lia.
Qed.

Lemma transferred_nonneg (l : list io_call) :
  Forall (fun c => 0 <= ret c) l -> 0 <= transferred l.
Proof.
  unfold transferred. induction l as [|d l IH]; simpl; intros H; [lia|].
  apply Forall_cons in H as [Hd H]. specialize (IH H). lia.
Qed.

Lemma positive_nonneg (l : list io_call) :
  Forall (fun c => 0 < ret c) l -> Forall (fun c => 0 <= ret c) l.
Proof.
  intros H. eapply Forall_impl; [exact H|]. simpl. intros c Hc. lia.
Qed.

Lemma transferred_pos (l : list io_call) :
  Forall (fun c => 0 < ret c) l -> l <> [] -> 0 < transferred l.
Proof.
  intros H Hne. destruct l as [|c l]; [contradiction|].
  apply Forall_cons in H as [Hc Hl].
  pose proof (transferred_nonneg l (positive_nonneg l Hl)) as Hn.
  unfold transferred in *. simpl. lia.
Qed.

(** In a run of two or more calls that moved [len] bytes, each a positive
    number, every call moved fewer than [len]. *)
Lemma each_call_below_total (l : list io_call) :
  Forall (fun c => 0 < ret c) l -> (2 <= length l)%nat ->
  Forall (fun c => 0 < ret c < transferred l) l.
Proof.
  intros Hpos Hlen. apply Forall_forall. intros c Hin.
  pose proof Hpos as Hall. rewrite Forall_forall in Hall.
  split; [now apply Hall|].
  apply list_elem_of_split in Hin as (l1 & l2 & ->).
  change (c :: l2) with ([c] ++ l2)%list.
  rewrite !transferred_app.
  assert (Ec : transferred [c] = ret c)
    by (unfold transferred; simpl; lia).
  rewrite Ec.
  apply Forall_app in Hpos as [H1 H2].
  apply Forall_cons in H2 as [_ H2].
  rewrite length_app in Hlen. simpl in Hlen.
  pose proof (transferred_nonneg l1 (positive_nonneg l1 H1)) as N1.
  pose proof (transferred_nonneg l2 (positive_nonneg l2 H2)) as N2.
  destruct l1 as [|a l1].
  - destruct l2 as [|b l2]; [simpl in Hlen; lia|].
    pose proof (transferred_pos (b :: l2) H2 ltac:(discriminate)). lia.
  - pose proof (transferred_pos (a :: l1) H1 ltac:(discriminate)). lia.
Qed.

(** A successful run, seen from its calls. *)
Lemma run_calls T is_client sr item len start env r :
  send_recv_mesg T is_client sr item len start env = Some r ->
  retval r = 1 ->
  Forall (fun c => offset c = 0) (calls r)
  /\ Forall (fun c => 0 < ret c) (calls r)
  /\ transferred (calls r) = len.
Proof.
  intros H Hr. unfold send_recv_mesg in H.
  destruct (mesg_loop_calls _ _ _ _ _ _ _ _ H) as (new & E & Hoff).
  destruct (MesgFacts.mesg_loop_success _ _ _ _ _ _ _ _ H Hr)
    as (Ht & _ & Hf).
  simpl in E, Ht. rewrite E. split; [exact Hoff|].
  split; [|now rewrite <- E].
  rewrite <- E. assert (Hf' := Hf ltac:(constructor)).
  eapply Forall_impl; [exact Hf'|]. simpl. intros c Hc. lia.
Qed.

(** Reads at the start of the buffer leave alone what lies at or behind
    the largest count read. *)
Lemma received_beyond (k : nat) (l : list io_call) :
  forall stream buf,
    Forall (fun c => offset c = 0 /\ (Z.to_nat (ret c) <= k)%nat) l ->
    (Z.to_nat (transferred l) <= length stream)%nat ->
    Forall (fun c => 0 <= ret c) l ->
    received l stream buf !! k = buf !! k.
Proof.
  induction l as [|c l IH]; intros stream buf H Hs Hnn; [reflexivity|].
  apply Forall_cons in H as [[Ho Hk] H].
  apply Forall_cons in Hnn as [Hc Hnn].
  pose proof (transferred_nonneg l Hnn) as Hl.
  unfold transferred in Hs. simpl in Hs. fold (transferred l) in Hs.
  cbn [received read_call]. rewrite Ho.
  change (Z.to_nat 0) with 0%nat.
  replace (take 0 buf) with (@nil Z) by reflexivity. cbn [app Nat.add].
  rewrite IH.
  - rewrite lookup_app_r by (rewrite length_take; lia).
    rewrite length_take, lookup_drop. f_equal. lia.
  - exact H.
  - rewrite length_drop. lia.
  - exact Hnn.
Qed.

(** X6.  [send_recv_mesg] hands the [buf] it was given to every [read]:
    the address is not moved on by what has arrived.  For a receive that
    reports success, a message taken by one [read] lies in the buffer as
    it came; when the message came in two or more reads, each stored its
    bytes at the start of the buffer, and the buffer from index [len - 1]
    on still holds what it held before the call. *)
Theorem recv_mesg_stores_at_buffer_start
  (T : Z) (is_client : bool) (item : string) (len : Z) (start : Q)
  (env : list turn) (r : run) (stream buf : list Z) :
  send_recv_mesg T is_client "r" item len start env = Some r ->
  retval r = 1 ->
  (Z.to_nat len <= length stream)%nat ->
  ((length (calls r) = 1)%nat ->
   received (calls r) stream buf
   = take (Z.to_nat len) stream ++ drop (Z.to_nat len) buf)
  /\ ((2 <= length (calls r))%nat ->
      forall k : nat,
        (Z.to_nat len - 1 <= k)%nat ->
        received (calls r) stream buf !! k = buf !! k).
Proof.
  intros H Hr Hs.
  destruct (run_calls _ _ _ _ _ _ _ _ H Hr) as (Hoff & Hpos & Ht).
  split.
  - intros H1. destruct (calls r) as [|c [|d l]]; try discriminate H1.
    apply Forall_cons in Hoff as [Ho _].
    unfold transferred in Ht. simpl in Ht.
    cbn [received read_call]. rewrite Ho.
    replace (ret c) with len by lia. reflexivity.
  - intros H2 k Hk.
    pose proof (each_call_below_total _ Hpos H2) as Hlt. rewrite Ht in Hlt.
    apply received_beyond.
    + rewrite Forall_forall in Hoff, Hlt |- *. intros c Hc.
      split; [now apply Hoff|]. specialize (Hlt c Hc). lia.
    + now rewrite Ht.
    + now apply positive_nonneg.
Qed.

(** X6 witness: twelve bytes that arrive as five and seven. *)
Lemma recv_mesg_stores_at_buffer_start_witness :
  send_recv_mesg 5 true "r" "results" 12 100
    [ {| now := 101; select_ret := 1; fd_isset := true; func_ret := 5 |};
      {| now := 102; select_ret := 1; fd_isset := true; func_ret := 7 |} ]
  = Some {| retval := 1; stderr := None;
            calls := [ {| offset := 0; count := 12; ret := 5 |};
                       {| offset := 0; count := 7; ret := 7 |} ] |}
  /\ received [ {| offset := 0; count := 12; ret := 5 |};
                {| offset := 0; count := 7; ret := 7 |} ]
       [1; 2; 3; 4; 5; 6; 7; 8; 9; 10; 11; 12] (repeat 0 12%nat)
     = [6; 7; 8; 9; 10; 11; 12; 0; 0; 0; 0; 0]
  /\ received [ {| offset := 0; count := 12; ret := 5 |};
                {| offset := 0; count := 7; ret := 7 |} ]
       [1; 2; 3; 4; 5; 6; 7; 8; 9; 10; 11; 12] (repeat 0 12%nat) !! 11%nat
     = repeat 0 12%nat !! 11%nat.
Proof.
  split; [reflexivity|]. split; [reflexivity|].
  apply (proj2 (recv_mesg_stores_at_buffer_start 5 true "results" 12 100%Q
                  [ {| now := 101; select_ret := 1; fd_isset := true;
                       func_ret := 5 |};
                    {| now := 102; select_ret := 1; fd_isset := true;
                       func_ret := 7 |} ]
                  {| retval := 1; stderr := None;
                     calls := [ {| offset := 0; count := 12; ret := 5 |};
                                {| offset := 0; count := 7; ret := 7 |} ] |}
                  [1; 2; 3; 4; 5; 6; 7; 8; 9; 10; 11; 12] (repeat 0 12%nat)
                  eq_refl eq_refl ltac:(simpl; lia))).
  - simpl. lia.
  - simpl. lia.
Defined.

(** X7.  In the other direction [send_recv_mesg] hands the same [buf]
    to every [write].  For a send that reports success, a message taken by
    one [write] goes out as it is; when the first [write] took only [n]
    bytes, the next one starts at the first byte of the buffer again, so
    the byte at position [n] of what was sent is byte 0 of the buffer, not
    byte [n]. *)
Theorem send_mesg_writes_from_buffer_start
  (T : Z) (is_client : bool) (item : string) (len : Z) (start : Q)
  (env : list turn) (r : run) (buf : list Z) :
  send_recv_mesg T is_client "s" item len start env = Some r ->
  retval r = 1 ->
  (Z.to_nat len <= length buf)%nat ->
  ((length (calls r) = 1)%nat ->
   sent (calls r) buf = take (Z.to_nat len) buf)
  /\ ((2 <= length (calls r))%nat ->
      exists c cs,
        calls r = c :: cs /\ 0 < ret c < len
        /\ sent (calls r) buf !! Z.to_nat (ret c) = buf !! 0%nat).
Proof.
  intros H Hr Hb.
  destruct (run_calls _ _ _ _ _ _ _ _ H Hr) as (Hoff & Hpos & Ht).
  split.
  - intros H1. destruct (calls r) as [|c [|d l]]; try discriminate H1.
    apply Forall_cons in Hoff as [Ho _].
    unfold transferred in Ht. simpl in Ht.
    unfold sent, write_call. simpl. rewrite Ho, app_nil_r.
    replace (ret c) with len by lia. reflexivity.
  - intros H2.
    pose proof (each_call_below_total _ Hpos H2) as Hlt. rewrite Ht in Hlt.
    destruct (calls r) as [|c [|d l]]; try (simpl in H2; lia).
    exists c, (d :: l). split; [reflexivity|].
    apply Forall_cons in Hlt as [Hc Hlt].
    apply Forall_cons in Hlt as [Hd _].
    apply Forall_cons in Hoff as [Ho Hoff].
    apply Forall_cons in Hoff as [Ho' _].
    split; [exact Hc|].
    unfold sent, write_call. cbn [map concat]. rewrite Ho, Ho'.
    change (Z.to_nat 0) with 0%nat. rewrite !drop_0.
    rewrite lookup_app_r by (rewrite length_take; lia).
    rewrite length_take.
    replace (Z.to_nat (ret c) - Z.to_nat (ret c) `min` length buf)%nat
      with 0%nat by lia.
    rewrite lookup_app_l by (rewrite length_take; lia).
    apply lookup_take_lt. lia.
Qed.

(** X7 witness: twelve bytes that leave as five and seven. *)
Lemma send_mesg_writes_from_buffer_start_witness :
  send_recv_mesg 5 false "s" "results" 12 100
    [ {| now := 101; select_ret := 1; fd_isset := true; func_ret := 5 |};
      {| now := 102; select_ret := 1; fd_isset := true; func_ret := 7 |} ]
  = Some {| retval := 1; stderr := None;
            calls := [ {| offset := 0; count := 12; ret := 5 |};
                       {| offset := 0; count := 7; ret := 7 |} ] |}
  /\ sent [ {| offset := 0; count := 12; ret := 5 |};
            {| offset := 0; count := 7; ret := 7 |} ]
       [1; 2; 3; 4; 5; 6; 7; 8; 9; 10; 11; 12]
     = [1; 2; 3; 4; 5; 1; 2; 3; 4; 5; 6; 7]
  /\ exists c cs,
       [ {| offset := 0; count := 12; ret := 5 |};
         {| offset := 0; count := 7; ret := 7 |} ] = c :: cs
       /\ 0 < ret c < 12
       /\ sent [ {| offset := 0; count := 12; ret := 5 |};
                 {| offset := 0; count := 7; ret := 7 |} ]
            [1; 2; 3; 4; 5; 6; 7; 8; 9; 10; 11; 12] !! Z.to_nat (ret c)
          = [1; 2; 3; 4; 5; 6; 7; 8; 9; 10; 11; 12] !! 0%nat.
Proof.
  split; [reflexivity|]. split; [reflexivity|].
  apply (proj2 (send_mesg_writes_from_buffer_start 5 false "results" 12
                  100%Q
                  [ {| now := 101; select_ret := 1; fd_isset := true;
                       func_ret := 5 |};
                    {| now := 102; select_ret := 1; fd_isset := true;
                       func_ret := 7 |} ]
                  {| retval := 1; stderr := None;
                     calls := [ {| offset := 0; count := 12; ret := 5 |};
                                {| offset := 0; count := 7; ret := 7 |} ] |}
                  [1; 2; 3; 4; 5; 6; 7; 8; 9; 10; 11; 12]
                  eq_refl eq_refl ltac:(simpl; lia))).
  simpl. lia.
Defined.

(** C3.  Success is reported on a message that has not been transferred.
    Five bytes [1 2 3 4 5] are on their way and arrive as three and two:
    [send_recv_mesg] returns 1 without a line on stderr, its two reads
    having returned [3 + 2 = len] bytes, yet the second read was given the
    same [buf] as the first, and the caller's buffer holds [4 5 3] and two
    bytes of what it held before, not the message.  In the other
    direction, with a first [write] that takes three bytes, the call
    returns 1 as well and what has gone out is [1 2 3 1 2]: the count is
    kept by [len -= n], but [buf] is not moved on with it. *)
Theorem send_recv_mesg_succeeds_on_a_broken_message :
  send_recv_mesg 5 true "r" "results" 5 100
    [ {| now := 101; select_ret := 1; fd_isset := true; func_ret := 3 |};
      {| now := 102; select_ret := 1; fd_isset := true; func_ret := 2 |} ]
  = Some {| retval := 1; stderr := None;
            calls := [ {| offset := 0; count := 5; ret := 3 |};
                       {| offset := 0; count := 2; ret := 2 |} ] |}
  /\ transferred [ {| offset := 0; count := 5; ret := 3 |};
                   {| offset := 0; count := 2; ret := 2 |} ] = 5
  /\ received [ {| offset := 0; count := 5; ret := 3 |};
                {| offset := 0; count := 2; ret := 2 |} ]
       [1; 2; 3; 4; 5] [0; 0; 0; 0; 0]
     = [4; 5; 3; 0; 0]
  /\ received [ {| offset := 0; count := 5; ret := 3 |};
                {| offset := 0; count := 2; ret := 2 |} ]
       [1; 2; 3; 4; 5] [0; 0; 0; 0; 0]
     <> [1; 2; 3; 4; 5]
  /\ send_recv_mesg 5 false "s" "results" 5 100
       [ {| now := 101; select_ret := 1; fd_isset := true; func_ret := 3 |};
         {| now := 102; select_ret := 1; fd_isset := true; func_ret := 2 |} ]
     = Some {| retval := 1; stderr := None;
               calls := [ {| offset := 0; count := 5; ret := 3 |};
                          {| offset := 0; count := 2; ret := 2 |} ] |}
  /\ sent [ {| offset := 0; count := 5; ret := 3 |};
            {| offset := 0; count := 2; ret := 2 |} ]
       [1; 2; 3; 4; 5]
     = [1; 2; 3; 1; 2].
Proof.
  repeat split; try reflexivity. discriminate.
Qed.

End BufferFacts.

(** ** F. From the client's request to the server's reaction *)

Module RequestFacts.

Import Codec Mesg Buffer Server Request.

Local Open Scope Z_scope.

(** A message that one [read] takes whole. *)
Lemma single_read (T : Z) (is_client : bool) (sr : ascii) (item : string)
  (len : Z) (start : Q) (t : turn) (later : list turn) :
  0 < len ->
  (now t < start + inject_Z T)%Q ->
  0 <= select_ret t -> fd_isset t = true -> func_ret t = len ->
  send_recv_mesg T is_client sr item len start (t :: later)
  = Some {| retval := 1; stderr := None;
            calls := [ {| offset := 0; count := len; ret := len |} ] |}.
Proof.
  intros Hlen Hnow Hsel Hfd Hret. unfold send_recv_mesg.
  cbn [mesg_loop].
  replace (len =? 0) with false by (symmetry; apply Z.eqb_neq; lia).
  assert (Ht : Qle_bool (start + inject_Z T - now t) 0 = false).
  { destruct (Qle_bool (start + inject_Z T - now t) 0) eqn:E; [|reflexivity].
    apply Qle_bool_iff in E. exfalso.
    apply Qlt_minus_iff in Hnow. unfold Qminus in E.
    exact (Qlt_not_le _ _ Hnow E). }
  rewrite Ht.
  replace (select_ret t <? 0) with false by (symmetry; apply Z.ltb_ge; lia).
  rewrite Hfd, Hret. cbn [negb app].
  replace (len <? 0) with false by (symmetry; apply Z.ltb_ge; lia).
  replace (len =? 0) with false by (symmetry; apply Z.eqb_neq; lia).
  rewrite Z.sub_diag. destruct later; reflexivity.
Qed.

(** With [Req.timeout = 0] the deadline is the moment of entry: the first
    look at the clock ends the call. *)
Lemma no_time_at_all (is_client : bool) (sr : ascii) (item : string)
  (len : Z) (start : Q) (t : turn) (later : list turn) :
  len <> 0 -> (start <= now t)%Q ->
  send_recv_mesg 0 is_client sr item len start (t :: later)
  = Some (failed ("failed to " ++ action sr ++ " " ++ item ++ ": timed out")
            []).
Proof.
  intros Hlen Hnow. unfold send_recv_mesg. cbn [mesg_loop].
  apply Z.eqb_neq in Hlen. rewrite Hlen.
  assert (Ht : Qle_bool (start + inject_Z 0 - now t) 0 = true).
  { apply Qle_bool_iff. apply Qle_minus_iff in Hnow.
    apply Qle_minus_iff.
    assert (Heq : (0 + - (start + inject_Z 0 - now t) == now t + - start)%Q)
      by ring.
    rewrite Heq. exact Hnow. }
  now rewrite Ht.
Qed.

Lemma length_enc_req (sz : SIZES) (q : REQ) :
  (48 <= length (enc_req sz q []))%nat.
Proof.
  unfold enc_req. rewrite !CodecFacts.enc_int_bytes. unfold enc_str.
  rewrite !length_app, !CodecFacts.length_bytes_of.
  unfold sizeof_uint32_t. lia.
Qed.

Section WithSizes.

Context (sz : SIZES) (Hsz : sizes_ok sz).
Variable sizeof_REQ : nat.
Variable verbs : bool.
Variable is_client : bool.

Local Abbreviation client_send_request := (client_send_request sz).
Local Abbreviation server_recv_request :=
  (server_recv_request sz sizeof_REQ is_client).
Local Abbreviation server_loop := (server_loop sz sizeof_REQ verbs is_client).

(** A request that fits, encoded at the start of a message of
    [sizeof(REQ)] bytes and taken from the connection by one [read] in
    time, is decoded into [Req], all but [rate]. *)
Lemma server_recv_request_whole (Req q : REQ) (c : connection)
  (m tail more : list Z) (t : turn) (later : list turn) :
  req_fits sz q -> length (id Req) = STRSIZE sz ->
  m = enc_req sz q [] ++ tail -> length m = sizeof_REQ ->
  accepted c = true -> stream c = m ++ more ->
  env c = t :: later ->
  (now t < start c + inject_Z (timeout Req))%Q ->
  0 <= select_ret t -> fd_isset t = true ->
  func_ret t = Z.of_nat sizeof_REQ ->
  server_recv_request Req c = Some (1, with_rate (rate Req) q).
Proof.
  intros Hq Hid Hm Hlen Hacc Hstream Henv Hnow Hsel Hfd Hret.
  unfold Request.server_recv_request. rewrite Hacc, Henv. cbn [negb].
  assert (Hpos : 0 < Z.of_nat sizeof_REQ).
  { pose proof (length_enc_req sz q) as L.
    rewrite <- Hlen, Hm, length_app. lia. }
  rewrite (single_read _ _ _ _ _ _ _ _ Hpos Hnow Hsel Hfd Hret).
  cbn [retval calls]. change (1 =? 0) with false. cbv iota.
  cbn [received read_call offset ret]. rewrite Nat2Z.id.
  change (Z.to_nat 0) with 0%nat.
  replace (take 0 (req c)) with (@nil Z) by reflexivity.
  cbn [app Nat.add]. rewrite Hstream, <- Hlen, take_app_length.
  rewrite Hm, <- app_assoc.
  now rewrite CodecFacts.dec_enc_req_with_rest.
Qed.

Lemma store_small (w : nat) (v : Z) :
  (1 <= w)%nat -> 0 <= v < 256 -> store w v = v.
Proof.
  intros Hw Hv. unfold store. apply Z.mod_small.
  assert (2 ^ 8 <= 2 ^ (8 * Z.of_nat w)) by (apply Z.pow_le_mono_r; lia).
  change (2 ^ 8) with 256 in *. lia.
Qed.

Lemma fits_small (w : nat) (v : Z) :
  (1 <= w)%nat -> 0 <= v < 256 -> fits w v.
Proof.
  intros Hw Hv. unfold fits.
  assert (2 ^ 8 <= 2 ^ (8 * Z.of_nat w)) by (apply Z.pow_le_mono_r; lia).
  change (2 ^ 8) with 256 in *. lia.
Qed.

Lemma find_test_from_lt (tests : list string) :
  forall i nm p,
    Main.find_test_from i tests nm = Some p -> (p < i + length tests)%nat.
Proof.
  induction tests as [|t tests IH]; intros i nm p H; [discriminate|].
  cbn [Main.find_test_from] in H.
  destruct (Args.streq nm t).
  - injection H as <-. simpl. lia.
  - apply IH in H. simpl. lia.
Qed.

Lemma Tests_few : (length (Tests verbs) < 256)%nat.
Proof. destruct verbs; simpl; lia. Qed.


(** With [Req.timeout = 0] no request is received any more. *)
Lemma server_loop_deaf (cs : list connection) :
  forall Req,
    timeout Req = 0 -> (0 < sizeof_REQ)%nat ->
    Forall (fun c => accepted c = true ->
                     exists t later, env c = t :: later
                                     /\ (start c <= now t)%Q) cs ->
    server_loop Req cs = Some (map (fun _ => NoRequest) cs).
Proof.
  induction cs as [|c cs IH]; intros Req HT Hlen Hcs; [reflexivity|].
  apply Forall_cons in Hcs as [Hc Hcs].
  cbn [Request.server_loop map].
  assert (E : server_recv_request Req c = Some (0, Req)).
  { unfold Request.server_recv_request.
    destruct (accepted c); [|reflexivity]. cbn [negb].
    destruct (Hc eq_refl) as (t & later & -> & Hnow).
    rewrite HT, no_time_at_all by (assumption || lia). reflexivity. }
  rewrite E, (IH Req HT Hlen Hcs). reflexivity.
Qed.


End WithSizes.



End RequestFacts.

(** ** D. The tables of options and tests, and how [do_args] ends *)

Module DriverFacts.

Import Main Driver.

Local Open Scope string_scope.
Local Open Scope Z_scope.

Lemma find_none_iff {A : Type} (f : A -> bool) (l : list A) :
  List.find f l = None <-> (forall x, In x l -> f x = false).
Proof.
  split; [apply find_none|].
  induction l as [|a l IH]; intros H; [reflexivity|]. simpl.
  rewrite (H a) by now left. apply IH. intros x Hx. apply H. now right.
Qed.

(** X9.  Every row of [Options] is found by its own name: no option is
    hidden behind an earlier row of the same name.  [find_option] returns
    a row only for the exact name, and the null pointer exactly for the
    names that are not in the table. *)
Theorem find_option_by_name :
  (forall o, In o Options -> find_option (name o) = Some o)
  /\ (forall nm o, find_option nm = Some o -> name o = nm /\ In o Options)
  /\ (forall nm, find_option nm = None <-> ~ In nm (map name Options)).
Proof.
  split; [|split].
  - intros o H. unfold Options in H. cbn [In] in H.
    repeat (destruct H as [<-|H]; [reflexivity|]). contradiction.
  - intros nm o H. unfold find_option in H. apply find_some in H as [Hin Hf].
    split; [|exact Hin]. symmetry. now apply String.eqb_eq.
  - intros nm. unfold find_option. rewrite find_none_iff. split.
    + intros H Hin. apply in_map_iff in Hin as (o & <- & Ho).
      specialize (H o Ho). unfold Args.streq in H.
      now rewrite String.eqb_refl in H.
    + intros H o Ho. unfold Args.streq.
      destruct (String.eqb nm (name o)) eqn:E; [|reflexivity].
      apply String.eqb_eq in E. exfalso. apply H. subst nm.
      now apply in_map.
Qed.

Lemma find_test_from_none (tests : list string) :
  forall i nm, find_test_from i tests nm = None <-> ~ In nm tests.
Proof.
  induction tests as [|t tests IH]; intros i nm; simpl.
  - split; [intros _ []|reflexivity].
  - unfold Args.streq. destruct (String.eqb nm t) eqn:E.
    + apply String.eqb_eq in E. split; [discriminate|].
      intros H. exfalso. apply H. now left.
    + apply String.eqb_neq in E. rewrite IH. split.
      * intros H [Ht|Hin]; [now apply E|now apply H].
      * intros H Hin. apply H. now right.
Qed.

(** X10.  [find_test] and the table [Tests] are inverse to each other:
    the name at position [p] is found at position [p] (no test name occurs
    twice), a name that is found stands at the position returned, which
    lies inside the table, and the null pointer is returned exactly for
    the names that are not test names. *)
Theorem find_test_by_name (verbs : bool) :
  (forall p, (p < length (Server.Tests verbs))%nat ->
             find_test verbs (nth p (Server.Tests verbs) "") = Some p)
  /\ (forall nm p, find_test verbs nm = Some p ->
                   (p < length (Server.Tests verbs))%nat
                   /\ nth p (Server.Tests verbs) "" = nm)
  /\ (forall nm, find_test verbs nm = None <-> ~ In nm (Server.Tests verbs)).
Proof.
  split; [|split].
  - intros p Hp. destruct verbs; simpl in Hp;
      do 31 (destruct p as [|p]; [first [reflexivity|lia]|]); lia.
  - intros nm p H. split.
    + apply RequestFacts.find_test_from_lt in H. lia.
    + now apply MainFacts.find_test_spec in H.
  - intros nm. apply find_test_from_none.
Qed.

(** X10 witness: [tcp_lat] is the eighth test. *)
Lemma find_test_by_name_witness :
  (7 < length (Server.Tests true))%nat
  /\ nth 7 (Server.Tests true) "" = "tcp_lat"
  /\ find_test true (nth 7 (Server.Tests true) "") = Some 7%nat.
Proof.
  split; [simpl; lia|]. split; [reflexivity|].
  apply (proj1 (find_test_by_name true) 7%nat). simpl. lia.
Defined.

Section WithEnvironment.

Variable STRSIZE : nat.
Variable Usage : list string.
Variable verbs : bool.
Variable run_client : string -> nat -> Par.state -> body_result.

Local Abbreviation call := (call STRSIZE Usage).
Local Abbreviation do_option := (do_option STRSIZE Usage).
Local Abbreviation do_args_loop :=
  (do_args_loop STRSIZE Usage verbs run_client).
Local Abbreviation do_args := (do_args STRSIZE Usage verbs run_client).

(** X11.  The long options [--verbose_more_conf], [--verbose_more_stat],
    [--verbose_more_time] and [--verbose_more_used] do what
    [--verbose_conf] and its likes do: their rows carry the lower-case
    second letter, so [opt_misc] sets the verbosity of that kind to 1.
    Only the short forms [-vC], [-vS], [-vT], [-vU] set it to 2. *)
Theorem verbose_more_long_options_set_level_1
  (rest : list string) (s : settings) :
  (do_option ("--verbose_more_conf" :: rest) s
   = Ret (rest, assign VerboseConf 1 s)
   /\ do_option ("--verbose_more_stat" :: rest) s
      = Ret (rest, assign VerboseStat 1 s)
   /\ do_option ("--verbose_more_time" :: rest) s
      = Ret (rest, assign VerboseTime 1 s)
   /\ do_option ("--verbose_more_used" :: rest) s
      = Ret (rest, assign VerboseUsed 1 s))
  /\ (do_option ("--verbose_conf" :: rest) s
      = do_option ("--verbose_more_conf" :: rest) s
      /\ do_option ("--verbose_stat" :: rest) s
         = do_option ("--verbose_more_stat" :: rest) s
      /\ do_option ("--verbose_time" :: rest) s
         = do_option ("--verbose_more_time" :: rest) s
      /\ do_option ("--verbose_used" :: rest) s
         = do_option ("--verbose_more_used" :: rest) s)
  /\ (do_option ("-vC" :: rest) s = Ret (rest, assign VerboseConf 2 s)
      /\ do_option ("-vS" :: rest) s = Ret (rest, assign VerboseStat 2 s)
      /\ do_option ("-vT" :: rest) s = Ret (rest, assign VerboseTime 2 s)
      /\ do_option ("-vU" :: rest) s = Ret (rest, assign VerboseUsed 2 s)).
Proof. repeat split; reflexivity. Qed.

(** Once a token has made the process a client it stays one. *)
Lemma do_args_loop_client_stays (fuel : nat) :
  forall args testSpecified g isClient' testSpecified' g',
    do_args_loop fuel args true testSpecified g
    = Ret (isClient', testSpecified', g') ->
    isClient' = true.
Proof.
  induction fuel as [|fuel IH]; intros args tS g isC' tS' g' H.
  - destruct args; [|discriminate]. now injection H as <- _ _.
  - destruct args as [|arg args]; [now injection H as <- _ _|].
    cbn [Main.do_args_loop] in H.
    destruct (starts_with_dash arg).
    + destruct (find_option arg) as [o|]; [|discriminate].
      apply MainFacts.bind_Ret_inv in H as ([args' s'] & _ & H).
      replace (if negb (server_valid o) then true else true) with true in H
        by now destruct (server_valid o).
      eapply IH. exact H.
    + destruct (ServerName (conf g)).
      * destruct (find_test verbs arg); [|discriminate].
        apply MainFacts.bind_Ret_inv in H as (g1 & _ & H).
        eapply IH. exact H.
      * eapply IH. exact H.
Qed.

(** The rows that are valid on a server: [--debug], [-D],
    [--listen_port], [-lp]. *)
Lemma server_valid_rows (o : OPTION) :
  In o Options -> server_valid o = true ->
  func o = opt_misc "D" None \/ func o = opt_misc "l" (Some "p"%char).
Proof.
  intros H Hv. unfold Options in H. cbn [In] in H.
  repeat (destruct H as [<-|H];
          [first [discriminate Hv | now left | now right]|]).
  contradiction.
Qed.

Lemma do_opt_misc_debug (o : OPTION) (argv : list string) (s : settings) :
  do_opt_misc o "D" None argv s = Ret (tl argv, assign Debug 1 s).
Proof. reflexivity. Qed.

Lemma do_opt_misc_listen_port (o : OPTION) (argv : list string)
  (s : settings) :
  do_opt_misc o "l" (Some "p"%char) argv s
  = ('(l, argv) ← Args.arg_long argv;
     Ret (argv, assign ListenPort (to_int l) s)).
Proof. reflexivity. Qed.

Lemma do_args_loop_server (fuel : nat) :
  forall args testSpecified g testSpecified' g',
    do_args_loop fuel args false testSpecified g
    = Ret (false, testSpecified', g') ->
    pars (conf g') = pars (conf g)
    /\ ServerName (conf g') = ServerName (conf g)
    /\ (forall v, v <> Debug -> v <> ListenPort ->
                  vars (conf g') v = vars (conf g) v)
    /\ ExitStatus g' = ExitStatus g
    /\ tests_run g' = tests_run g.
Proof.
  induction fuel as [|fuel IH]; intros args tS g tS' g' H.
  - destruct args; [|discriminate]. injection H as _ <-. auto.
  - destruct args as [|arg args]; [injection H as _ <-; auto|].
    cbn [Main.do_args_loop] in H.
    destruct (starts_with_dash arg).
    + destruct (find_option arg) as [o|] eqn:Eo; [|discriminate].
      apply MainFacts.bind_Ret_inv in H as ([args' s'] & Hcall & H).
      destruct (server_valid o) eqn:Ev; cbn [negb] in H;
        [|now apply do_args_loop_client_stays in H].
      apply find_some in Eo as [Hin _].
      assert (Hs : pars s' = pars (conf g)
                   /\ ServerName s' = ServerName (conf g)
                   /\ (forall v, v <> Debug -> v <> ListenPort ->
                                 vars s' v = vars (conf g) v)).
      { unfold Main.call in Hcall.
        destruct (server_valid_rows o Hin Ev) as [Ef|Ef]; rewrite Ef in Hcall.
        - rewrite do_opt_misc_debug in Hcall. injection Hcall as _ <-.
          repeat split. intros v Hd _. unfold assign. cbn [vars].
          destruct (VAR_eq_dec Debug v); [congruence|reflexivity].
        - rewrite do_opt_misc_listen_port in Hcall.
          apply MainFacts.bind_Ret_inv in Hcall as ([l a] & _ & Hcall).
          injection Hcall as _ <-.
          repeat split. intros v _ Hl. unfold assign. cbn [vars].
          destruct (VAR_eq_dec ListenPort v); [congruence|reflexivity]. }
      destruct Hs as (Ps & Ns & Vs).
      apply IH in H as (P & N & V & X & R).
      cbn [conf ExitStatus tests_run] in *.
      rewrite P, N, X, R.
      repeat split; try assumption.
      intros v Hd Hl. now rewrite V, Vs.
    + exfalso.
      destruct (ServerName (conf g)).
      * destruct (find_test verbs arg); [|discriminate].
        apply MainFacts.bind_Ret_inv in H as (g1 & _ & H).
        now apply do_args_loop_client_stays in H.
      * now apply do_args_loop_client_stays in H.
Qed.

(** X12.  When [do_args] ends in [server()], the command line has changed
    nothing but [Debug] and [ListenPort]: every token was one of
    [--debug], [-D], [--listen_port], [-lp] (with its number), the only
    rows that are valid on a server.  The parameter table, [ServerName],
    the exit status and every other variable are as they were, the
    server timeout among them: the option that sets it belongs to the
    client. *)
Theorem server_mode_changes_debug_and_listen_port_only
  (args : list string) (g : progress) :
  do_args args g = Ret Serving ->
  exists testSpecified' g',
    do_args_loop (length args) args false false g
    = Ret (false, testSpecified', g')
    /\ pars (conf g') = pars (conf g)
    /\ ServerName (conf g') = ServerName (conf g)
    /\ (forall v, v <> Debug -> v <> ListenPort ->
                  vars (conf g') v = vars (conf g) v)
    /\ ExitStatus g' = ExitStatus g
    /\ tests_run g' = tests_run g.
Proof.
  intros H. unfold Main.do_args in H.
  apply MainFacts.bind_Ret_inv in H as ([[isC tS] g1] & Hl & H).
  destruct isC; cbn [negb] in H.
  - exfalso. destruct tS; cbn [negb] in H; [discriminate|].
    destruct (ServerName (conf g1)) as [h|]; [|discriminate].
    destruct (find_test verbs h); discriminate.
  - exists tS, g1. split; [exact Hl|].
    now apply do_args_loop_server in Hl.
Qed.

End WithEnvironment.

(** X12 witness: [qperf --listen_port 4000 -D]. *)
Lemma server_mode_changes_debug_and_listen_port_only_witness :
  Main.do_args 64 [] false (fun _ _ p => Returns true p)
    [ "--listen_port"; "4000"; "-D" ] progress0 = Ret Serving
  /\ exists testSpecified' g',
       Main.do_args_loop 64 [] false (fun _ _ p => Returns true p) 3
         [ "--listen_port"; "4000"; "-D" ] false false progress0
       = Ret (false, testSpecified', g')
       /\ pars (conf g') = pars (conf progress0)
       /\ ServerName (conf g') = ServerName (conf progress0)
       /\ (forall v, v <> Debug -> v <> ListenPort ->
                     vars (conf g') v = vars (conf progress0) v)
       /\ ExitStatus g' = ExitStatus progress0
       /\ tests_run g' = tests_run progress0.
Proof.
  split; [vm_compute; reflexivity|].
  apply (server_mode_changes_debug_and_listen_port_only 64 [] false
           (fun _ _ p => Returns true p)
           [ "--listen_port"; "4000"; "-D" ] progress0).
  vm_compute. reflexivity.
Defined.

End DriverFacts.

(** ** D. The other argument parsers: [arg_long], [arg_time], [opt_long] *)

Module ArgsMore.

Import Args.

Local Open Scope string_scope.
Local Open Scope Z_scope.

Lemma str_cons (c : ascii) (l : list ascii) : str (c :: l) = String c (str l).
Proof. reflexivity. Qed.

(** [strtol] on a run of digits: the number, held at [LONG_MAX], and what
    follows the digits. *)
Lemma strtol_digits (ds sfx : list ascii) :
  ds <> [] -> forallb isdigit ds = true ->
  match sfx with [] => True | c :: _ => isdigit c = false end ->
  strtol (str (ds ++ sfx)%list)
  = (Z.min (digits_val 10 ds) LONG_MAX, str sfx).
Proof.
  intros Hne Hd Hs. unfold strtol, str.
  rewrite list_ascii_of_string_of_list_ascii.
  destruct ds as [|d ds]; [contradiction|].
  pose proof Hd as Hd'. cbn [forallb] in Hd'.
  apply andb_true_iff in Hd' as [Hd1 _].
  destruct (ArgsFacts.digit_props d Hd1) as (Hsp & _ & _ & _ & _ & Hm & Hp & _).
  cbn [app span]. rewrite Hsp. cbn [snd].
  assert (Hsign : (match d :: ds ++ sfx with
                   | "-"%char :: l2 => (true, l2)
                   | "+"%char :: l2 => (false, l2)
                   | _ => (false, d :: ds ++ sfx)
                   end) = (false, d :: ds ++ sfx)).
  { destruct d as [[] [] [] [] [] [] [] []]; try reflexivity; discriminate. }
  rewrite Hsign.
  change (d :: (ds ++ sfx)%list) with ((d :: ds) ++ sfx)%list.
  rewrite TimesFacts.span_prefix by assumption.
  pose proof (ArgsFacts.digits_val_nonneg 10 (d :: ds) ltac:(lia)) as Hn.
  f_equal. unfold LONG_MIN, LONG_MAX in *. lia.
Qed.

Lemma strtol_minus_digits (ds : list ascii) :
  ds <> [] -> forallb isdigit ds = true ->
  strtol (str ("-"%char :: ds))
  = (Z.max LONG_MIN (- digits_val 10 ds), "").
Proof.
  intros Hne Hd. unfold strtol, str.
  rewrite list_ascii_of_string_of_list_ascii.
  cbn [span]. change (isspace "-") with false. cbn [snd].
  rewrite <- (app_nil_r ds) at 1.
  rewrite TimesFacts.span_prefix by (assumption || exact I).
  destruct ds as [|d ds]; [contradiction|].
  pose proof (ArgsFacts.digits_val_nonneg 10 (d :: ds) ltac:(lia)) as Hn.
  f_equal. unfold LONG_MIN, LONG_MAX in *. lia.
Qed.

(** [arg_long] on a run of digits, the empty one included. *)
Lemma arg_long_digits (argv0 : string) (ds : list ascii)
  (rest : list string) :
  forallb isdigit ds = true ->
  arg_long (argv0 :: str ds :: rest)
  = Ret (Z.min (digits_val 10 ds) LONG_MAX, rest).
Proof.
  intros Hd. unfold arg_long.
  destruct ds as [|d ds]; [reflexivity|].
  rewrite <- (app_nil_r (d :: ds)).
  rewrite strtol_digits by (assumption || discriminate || exact I).
  rewrite app_nil_r. cbn [str string_of_list_ascii streq String.eqb negb].
  pose proof (ArgsFacts.digits_val_nonneg 10 (d :: ds) ltac:(lia)) as Hn.
  replace (Z.min (digits_val 10 (d :: ds)) LONG_MAX <? 0) with false;
    [reflexivity|].
  symmetry. apply Z.ltb_ge. unfold LONG_MAX. lia.
Qed.

(** X14.  [arg_long] takes a run of decimal digits for the number it
    writes, held at [LONG_MAX] when it is larger; the empty string is
    taken for 0.  A minus sign before a number above 0 ends the process
    with [<option> requires a non-negative number], any character that is
    no digit behind the digits with [Bad argument: <argument>], and a
    missing argument with [Missing argument to <option>]. *)
Theorem arg_long_reads_decimal (argv0 : string) (ds : list ascii)
  (rest : list string) :
  forallb isdigit ds = true ->
  arg_long (argv0 :: str ds :: rest)
  = Ret (Z.min (digits_val 10 ds) LONG_MAX, rest)
  /\ (0 < digits_val 10 ds ->
      arg_long (argv0 :: str ("-"%char :: ds) :: rest)
      = Die (argv0 ++ " requires a non-negative number"))
  /\ (ds <> [] ->
      forall c sfx, isdigit c = false ->
        arg_long (argv0 :: str (ds ++ c :: sfx)%list :: rest)
        = Die ("Bad argument: " ++ str (ds ++ c :: sfx)%list))
  /\ arg_long [argv0] = Die ("Missing argument to " ++ argv0).
Proof.
  intros Hd. split; [now apply arg_long_digits|].
  split; [|split; [|reflexivity]].
  - intros Hpos. unfold arg_long.
    assert (Hne : ds <> []) by (intros ->; cbv in Hpos; discriminate).
    rewrite strtol_minus_digits by assumption.
    cbn [streq String.eqb negb].
    replace (Z.max LONG_MIN (- digits_val 10 ds) <? 0) with true;
      [reflexivity|].
    symmetry. apply Z.ltb_lt. unfold LONG_MIN. lia.
  - intros Hne c sfx Hc. unfold arg_long.
    rewrite strtol_digits by assumption.
    rewrite str_cons. reflexivity.
Qed.

(** X14 witness: [--port 19766], [--port -1], [--port 80x]. *)
Lemma arg_long_reads_decimal_witness :
  arg_long [ "--port"; "19766"; "tcp_bw" ] = Ret (19766, [ "tcp_bw" ])
  /\ arg_long [ "--port"; "-1" ]
     = Die "--port requires a non-negative number"
  /\ arg_long [ "--port"; "80x" ] = Die "Bad argument: 80x".
Proof.
  split.
  - apply (proj1 (arg_long_reads_decimal "--port"
                    (list_ascii_of_string "19766") [ "tcp_bw" ] eq_refl)).
  - split.
    + apply (proj1 (proj2 (arg_long_reads_decimal "--port"
                             (list_ascii_of_string "1") [] eq_refl))).
      reflexivity.
    + apply (proj1 (proj2 (proj2 (arg_long_reads_decimal "--port"
                                    (list_ascii_of_string "80") []
                                    eq_refl)))
               ltac:(discriminate) "x"%char [] eq_refl).
Defined.

(** [arg_time] on a whole number followed by what may end a number: the
    value [strtold] hands back is the number itself. *)
Lemma arg_time_whole (argv0 : string) (ds sfx : list ascii)
  (rest : list string) :
  ds <> [] -> forallb isdigit ds = true -> ends_number sfx ->
  digits_val 10 ds < 2 ^ 64 ->
  exists sc,
    0 <= sc
    /\ arg_time (argv0 :: str (ds ++ sfx)%list :: rest)
       = (l ← match str sfx with
              | EmptyString =>
                  to_long (Fin (digits_val 10 ds * 2 ^ sc
                                # Z.to_pos (2 ^ sc)))
              | String u p1 =>
                  if negb (streq p1 "")
                  then Die ("Bad argument: " ++ str (ds ++ sfx)%list)
                  else if Ascii.eqb u "s" || Ascii.eqb u "S"
                  then to_long (Fin (digits_val 10 ds * 2 ^ sc
                                     # Z.to_pos (2 ^ sc)))
                  else if Ascii.eqb u "m" || Ascii.eqb u "M"
                  then to_long (ld_mul (Fin (digits_val 10 ds * 2 ^ sc
                                             # Z.to_pos (2 ^ sc))) 60)
                  else if Ascii.eqb u "h" || Ascii.eqb u "H"
                  then to_long (ld_mul (Fin (digits_val 10 ds * 2 ^ sc
                                             # Z.to_pos (2 ^ sc)))
                                  (60 * 60))
                  else if Ascii.eqb u "d" || Ascii.eqb u "D"
                  then to_long (ld_mul (Fin (digits_val 10 ds * 2 ^ sc
                                             # Z.to_pos (2 ^ sc)))
                                  (60 * 60 * 24))
                  else Die ("Bad argument: " ++ str (ds ++ sfx)%list)
              end;
          Ret (l, rest)).
Proof.
  intros Hne Hd Hs Hn.
  pose proof (ArgsFacts.digits_val_nonneg 10 ds ltac:(lia)) as Hnn.
  destruct (ArgsFacts.ld_of_Z_exact (digits_val 10 ds) ltac:(lia))
    as (sc & Hsc & E).
  exists sc. split; [exact Hsc|].
  unfold arg_time. rewrite ArgsFacts.strtold_whole by assumption.
  rewrite E. cbn [ld_neg0 Qnum].
  replace (digits_val 10 ds * 2 ^ sc <? 0) with false; [reflexivity|].
  symmetry. apply Z.ltb_ge. apply Z.mul_nonneg_nonneg; [exact Hnn|].
  apply Z.pow_nonneg. lia.
Qed.

(** The value after a unit: the exact product. *)
Lemma to_long_product (n sc k : Z) (rest : list string) :
  0 <= n -> 0 <= sc -> 0 < k -> n * k < 2 ^ 63 ->
  (l ← to_long (ld_mul (Fin (n * 2 ^ sc # Z.to_pos (2 ^ sc))) k);
   Ret (l, rest))
  = Ret (n * k, rest).
Proof.
  intros Hn Hsc Hk Hfit.
  destruct (ArgsFacts.ld_mul_exact n sc k) as (sc' & Hsc' & E); try lia.
  rewrite E, ArgsFacts.to_long_exact; [reflexivity| |exact Hsc'].
  split; [apply Z.mul_nonneg_nonneg; lia|exact Hfit].
Qed.

Ltac time_unit H :=
  destruct H as [<-|[<-|[]]];
  (edestruct arg_time_whole as (sc & Hsc & E);
   [eassumption|eassumption| |
    |rewrite E; cbn [str string_of_list_ascii];
     cbv beta iota delta [streq String.eqb negb Ascii.eqb Bool.eqb orb];
     first [ apply to_long_product; lia
           | rewrite ArgsFacts.to_long_exact by lia; reflexivity ]];
   [cbv; intuition discriminate|lia]).

(** X15.  [arg_time] reads a whole number of seconds, or a whole number
    followed by one letter: [s] or [S] for seconds, [m] or [M] for minutes,
    [h] or [H] for hours, [d] or [D] for days; the value returned is the
    number of seconds, exactly, whenever it fits a [long].  Two or more
    characters behind the number are a bad argument, whatever they are. *)
Theorem arg_time_units (argv0 : string) (ds : list ascii)
  (rest : list string) :
  ds <> [] -> forallb isdigit ds = true ->
  (digits_val 10 ds < 2 ^ 63 ->
   arg_time (argv0 :: str ds :: rest) = Ret (digits_val 10 ds, rest))
  /\ (forall u, In u [ "s"; "S" ]%char ->
      digits_val 10 ds < 2 ^ 63 ->
      arg_time (argv0 :: str (ds ++ [u])%list :: rest)
      = Ret (digits_val 10 ds, rest))
  /\ (forall u, In u [ "m"; "M" ]%char ->
      digits_val 10 ds * 60 < 2 ^ 63 ->
      arg_time (argv0 :: str (ds ++ [u])%list :: rest)
      = Ret (digits_val 10 ds * 60, rest))
  /\ (forall u, In u [ "h"; "H" ]%char ->
      digits_val 10 ds * 3600 < 2 ^ 63 ->
      arg_time (argv0 :: str (ds ++ [u])%list :: rest)
      = Ret (digits_val 10 ds * 3600, rest))
  /\ (forall u, In u [ "d"; "D" ]%char ->
      digits_val 10 ds * 86400 < 2 ^ 63 ->
      arg_time (argv0 :: str (ds ++ [u])%list :: rest)
      = Ret (digits_val 10 ds * 86400, rest))
  /\ (forall u v sfx, ends_number [u] ->
      digits_val 10 ds < 2 ^ 64 ->
      arg_time (argv0 :: str (ds ++ u :: v :: sfx)%list :: rest)
      = Die ("Bad argument: " ++ str (ds ++ u :: v :: sfx)%list)).
Proof.
  intros Hne Hd.
  pose proof (ArgsFacts.digits_val_nonneg 10 ds ltac:(lia)) as Hnn.
  split; [|split; [|split; [|split; [|split]]]].
  - intros Hfit.
    destruct (arg_time_whole argv0 ds [] rest Hne Hd I ltac:(lia))
      as (sc & Hsc & E).
    rewrite app_nil_r in E. rewrite E. cbn [str string_of_list_ascii].
    rewrite ArgsFacts.to_long_exact by lia. reflexivity.
  - intros u Hu Hfit. time_unit Hu.
  - intros u Hu Hfit. time_unit Hu.
  - intros u Hu Hfit. time_unit Hu.
  - intros u Hu Hfit. time_unit Hu.
  - intros u v sfx Hu Hfit.
    destruct (arg_time_whole argv0 ds (u :: v :: sfx) rest Hne Hd Hu Hfit)
      as (sc & Hsc & E).
    rewrite E. rewrite !str_cons. reflexivity.
Qed.

(** X15 witness: [--time 90m], and [--time 5ms], which is refused. *)
Lemma arg_time_units_witness :
  arg_time [ "--time"; "90m"; "tcp_bw" ] = Ret (5400, [ "tcp_bw" ])
  /\ arg_time [ "--time"; "5ms" ] = Die "Bad argument: 5ms".
Proof.
  split.
  - apply (proj1 (proj2 (proj2 (arg_time_units "--time"
                                  (list_ascii_of_string "90") [ "tcp_bw" ]
                                  ltac:(discriminate) eq_refl)))
             "m"%char ltac:(left; reflexivity) ltac:(vm_compute; reflexivity)).
  - apply (proj2 (proj2 (proj2 (proj2 (proj2 (arg_time_units "--time"
                                  (list_ascii_of_string "5") []
                                  ltac:(discriminate) eq_refl)))))
             "m"%char "s"%char []
             ltac:(cbv; intuition discriminate)
             ltac:(vm_compute; reflexivity)).
Defined.

End ArgsMore.

(** ** D. A numeric option from the command line to the table *)

Module OptionFacts.

Import Par.

Local Open Scope string_scope.
Local Open Scope Z_scope.

(** A user-level [setp_u32] on a row other than [P_NULL]: it returns, the
    row holds the value and the name, the other rows and members are as
    before. *)
Lemma setp_u32_named (nm : string) (i : PAR_INDEX) (l : Z) (st : state) :
  i <> P_NULL ->
  exists st',
    setp_u32 (Some nm) i l st = Ret st'
    /\ value st' i = Some (V_u32 (l mod 2 ^ 32))
    /\ name (ParInfo st' i) = Some nm
    /\ set (ParInfo st' i) = true
    /\ (forall j, j <> i -> ParInfo st' j = ParInfo st j
                            /\ value st' j = value st j).
Proof.
  intros Hi.
  assert (E : exists st', setp_u32 (Some nm) i l st = Ret st'
                          /\ value st' i = Some (V_u32 (l mod 2 ^ 32))
                          /\ name (ParInfo st' i) = Some nm
                          /\ set (ParInfo st' i) = true)
    by (destruct i; try contradiction; eexists; repeat split; reflexivity).
  destruct E as (st' & E & V & N & S). exists st'.
  repeat split; try assumption;
    (eapply ParFacts.setp_u32_named_frame; [exact E|congruence]).
Qed.

(** Both indices of a numeric option. *)
Lemma set_both_u32_spec (nm : string) (arg1 arg2 : PAR_INDEX) (l : Z)
  (s : Main.settings) :
  arg1 <> P_NULL ->
  exists s',
    Main.set_both_u32 nm arg1 arg2 l s = Ret s'
    /\ Main.ServerName s' = Main.ServerName s
    /\ Main.vars s' = Main.vars s
    /\ (forall i, i = arg1 \/ (i = arg2 /\ arg2 <> P_NULL) ->
          value (Main.pars s') i = Some (V_u32 (l mod 2 ^ 32))
          /\ name (ParInfo (Main.pars s') i) = Some nm
          /\ set (ParInfo (Main.pars s') i) = true)
    /\ (forall j, j <> arg1 -> j <> arg2 ->
          ParInfo (Main.pars s') j = ParInfo (Main.pars s) j
          /\ value (Main.pars s') j = value (Main.pars s) j).
Proof.
  intros H1. unfold Main.set_both_u32.
  destruct (setp_u32_named nm arg1 l (Main.pars s) H1)
    as (p1 & E1 & V1 & N1 & S1 & F1).
  rewrite E1, bind_Ret.
  destruct (PAR_INDEX_eq_dec arg2 P_NULL) as [->|H2].
  - change (setp_u32 (Some nm) P_NULL l p1) with (Ret p1).
    rewrite bind_Ret. eexists. split; [reflexivity|].
    cbn [Main.with_pars Main.pars Main.ServerName Main.vars].
    repeat split; try reflexivity.
    + destruct H as [->|[_ []]]; [exact V1|reflexivity].
    + destruct H as [->|[_ []]]; [exact N1|reflexivity].
    + destruct H as [->|[_ []]]; [exact S1|reflexivity].
    + now apply F1.
    + now apply F1.
  - destruct (setp_u32_named nm arg2 l p1 H2)
      as (p2 & E2 & V2 & N2 & S2 & F2).
    rewrite E2, bind_Ret. eexists. split; [reflexivity|].
    cbn [Main.with_pars Main.pars Main.ServerName Main.vars].
    split; [reflexivity|]. split; [reflexivity|]. split.
    + intros i Hi.
      destruct (PAR_INDEX_eq_dec i arg2) as [->|Hne];
        [repeat split; assumption|].
      destruct Hi as [->|[-> _]]; [|contradiction].
      destruct (F2 arg1 Hne) as [FP FV]. rewrite FP, FV.
      repeat split; assumption.
    + intros j Hj1 Hj2.
      destruct (F2 j Hj2) as [FP FV]. destruct (F1 j Hj1) as [GP GV].
      rewrite FP, FV. split; assumption.
Qed.

(** X16.  An option handled by [opt_long], given with a run of decimal
    digits: the handler returns with the tokens behind the value, and both
    rows of the option ([arg2] may be [P_NULL], for the one-sided options)
    hold the number reduced modulo [2^32], held at [LONG_MAX] before that,
    carry the name of the option and are marked as set.  The other rows,
    [ServerName] and the variables of [opt_misc] are as before. *)
Theorem opt_long_stores_modulo_2_32
  (STRSIZE : nat) (Usage : list string) (o : Main.OPTION)
  (arg1 arg2 : PAR_INDEX) (ds : list ascii) (rest : list string)
  (s : Main.settings) :
  Main.func o = Main.opt_long arg1 arg2 -> arg1 <> P_NULL ->
  forallb isdigit ds = true ->
  exists s',
    Main.call STRSIZE Usage o (Main.name o :: str ds :: rest) s
    = Ret (rest, s')
    /\ Main.ServerName s' = Main.ServerName s
    /\ Main.vars s' = Main.vars s
    /\ (forall i, i = arg1 \/ (i = arg2 /\ arg2 <> P_NULL) ->
          value (Main.pars s') i
          = Some (V_u32 (Z.min (Args.digits_val 10 ds) Args.LONG_MAX
                         mod 2 ^ 32))
          /\ name (ParInfo (Main.pars s') i) = Some (Main.name o)
          /\ set (ParInfo (Main.pars s') i) = true)
    /\ (forall j, j <> arg1 -> j <> arg2 ->
          ParInfo (Main.pars s') j = ParInfo (Main.pars s) j
          /\ value (Main.pars s') j = value (Main.pars s) j).
Proof.
  intros Hf H1 Hd. unfold Main.call. rewrite Hf.
  rewrite ArgsMore.arg_long_digits by exact Hd. rewrite bind_Ret.
  destruct (set_both_u32_spec (Main.name o) arg1 arg2
              (Z.min (Args.digits_val 10 ds) Args.LONG_MAX) s H1)
    as (s' & E & HS & HV & Hset & Hframe).
  exists s'. rewrite E, bind_Ret. repeat split; try assumption;
    try (now apply Hset); now apply Hframe.
Qed.

(** X16 witness: [--no_msgs 4294967297] leaves 1 in [Req.no_msgs] and in
    [RReq.no_msgs]. *)
Lemma opt_long_stores_modulo_2_32_witness :
  Main.find_option "--no_msgs"
  = Some (Main.opt "--no_msgs" false (Main.opt_long L_NO_MSGS R_NO_MSGS))
  /\ exists s',
       Main.call 64 []
         (Main.opt "--no_msgs" false (Main.opt_long L_NO_MSGS R_NO_MSGS))
         [ "--no_msgs"; "4294967297"; "tcp_bw" ] Main.settings0
       = Ret ([ "tcp_bw" ], s')
       /\ value (Main.pars s') L_NO_MSGS = Some (V_u32 1)
       /\ value (Main.pars s') R_NO_MSGS = Some (V_u32 1)
       /\ name (ParInfo (Main.pars s') R_NO_MSGS) = Some "--no_msgs".
Proof.
  split; [reflexivity|].
  destruct (opt_long_stores_modulo_2_32 64 []
              (Main.opt "--no_msgs" false
                 (Main.opt_long L_NO_MSGS R_NO_MSGS))
              L_NO_MSGS R_NO_MSGS (list_ascii_of_string "4294967297")
              [ "tcp_bw" ] Main.settings0 eq_refl ltac:(discriminate)
              eq_refl)
    as (s' & E & _ & _ & Hset & _).
  exists s'. split; [exact E|].
  destruct (Hset L_NO_MSGS ltac:(left; reflexivity)) as (V1 & _ & _).
  destruct (Hset R_NO_MSGS ltac:(right; split; [reflexivity|discriminate]))
    as (V2 & N2 & _).
  split; [exact V1|]. split; [exact V2|exact N2].
Defined.

End OptionFacts.

(** ** D. How [do_args] ends when no test is named *)

Module EndingFacts.

Import Par Main Driver.

Local Open Scope string_scope.
Local Open Scope Z_scope.

(** The rows of the numeric options: none is valid on a server, each has
    a first index, is found under its name, and its name starts with a
    dash. *)
Lemma numeric_rows :
  Forall (fun o =>
            match func o with
            | opt_long a1 _ | opt_size a1 _ | opt_time a1 _ =>
                a1 <> P_NULL /\ server_valid o = false
                /\ find_option (name o) = Some o
                /\ starts_with_dash (name o) = true
            | _ => True
            end) Options.
Proof.
  unfold Options.
  repeat (apply Forall_cons; split;
          [cbn [func];
           first [exact I
                 |split; [discriminate|];
                  split; [reflexivity|]; split; reflexivity]|]).
  constructor.
Qed.

Section WithEnvironment.

Variable STRSIZE : nat.
Variable Usage : list string.
Variable verbs : bool.
Variable run_client : string -> nat -> Par.state -> body_result.

Local Abbreviation do_args := (do_args STRSIZE Usage verbs run_client).

(** A numeric option and its value, and nothing else. *)
Lemma lone_numeric_option (o : OPTION) (a1 a2 : PAR_INDEX) (w : string)
  (l : Z) :
  a1 <> P_NULL -> server_valid o = false ->
  find_option (name o) = Some o -> starts_with_dash (name o) = true ->
  Main.call STRSIZE Usage o [name o; w] settings0
  = (s ← set_both_u32 (name o) a1 a2 l settings0; Ret ([], s)) ->
  do_args [name o; w] progress0
  = Die ("You used a client only option but did not specify the "
         ++ "server name." ++ String "010" ""
         ++ "Do you want to be a client or server?").
Proof.
  intros Ha Hv Hf Hd Hcall.
  destruct (OptionFacts.set_both_u32_spec (name o) a1 a2 l settings0 Ha)
    as (s' & E & HS & _).
  rewrite E, bind_Ret in Hcall.
  unfold Main.do_args. cbn [length Main.do_args_loop].
  rewrite Hd, Hf. cbn [conf progress0]. rewrite Hcall, bind_Ret.
  cbn [Main.do_args_loop]. rewrite bind_Ret, Hv.
  cbn [negb conf]. rewrite HS. reflexivity.
Qed.

(** The host option and its value, and nothing else. *)
Lemma lone_host_option (o : OPTION) (w : string) :
  server_valid o = false ->
  find_option (name o) = Some o -> starts_with_dash (name o) = true ->
  Main.call STRSIZE Usage o [name o; w] settings0
  = Ret ([], {| pars := pars settings0; ServerName := Some w;
                vars := vars settings0 |}) ->
  do_args [name o; w] progress0
  = Die (match find_test verbs w with
         | Some _ => "Must specify host name first; try qperf --help"
         | None => "Must specify a test type; try qperf --help"
         end).
Proof.
  intros Hv Hf Hd Hcall.
  unfold Main.do_args. cbn [length Main.do_args_loop].
  rewrite Hd, Hf. cbn [conf progress0]. rewrite Hcall, bind_Ret.
  cbn [Main.do_args_loop]. rewrite bind_Ret, Hv.
  cbn [negb conf ServerName]. now destruct (find_test verbs w).
Qed.

(** X13.  How [do_args] ends when no test is named.  Without arguments
    the process becomes a server.  A single word that is no option is
    taken for the host name, and the process ends with
    [Must specify host name first] when that word is a test name and with
    [Must specify a test type] when it is not; [--host w] and [-H w]
    alone end in the same two ways.  A numeric option of the table (one
    handled by [opt_long], [opt_size] or [opt_time]) with a value that
    its parser takes, and nothing else, ends with the complaint that a
    client-only option was used without the server name.  In none of
    these cases is a test run. *)
Theorem do_args_without_a_test (w : string) :
  do_args [] progress0 = Ret Serving
  /\ (starts_with_dash w = false ->
      do_args [w] progress0
      = Die (match find_test verbs w with
             | Some _ => "Must specify host name first; try qperf --help"
             | None => "Must specify a test type; try qperf --help"
             end))
  /\ do_args [ "--host"; w ] progress0
     = Die (match find_test verbs w with
            | Some _ => "Must specify host name first; try qperf --help"
            | None => "Must specify a test type; try qperf --help"
            end)
  /\ do_args [ "-H"; w ] progress0
     = Die (match find_test verbs w with
            | Some _ => "Must specify host name first; try qperf --help"
            | None => "Must specify a test type; try qperf --help"
            end)
  /\ (forall (o : OPTION) (a1 a2 : PAR_INDEX) (l : Z),
        In o Options ->
        (func o = opt_long a1 a2
         /\ Args.arg_long [name o; w] = Ret (l, []))
        \/ (func o = opt_size a1 a2
            /\ Args.arg_size [name o; w] = Ret (l, []))
        \/ (func o = opt_time a1 a2
            /\ Args.arg_time [name o; w] = Ret (l, [])) ->
        do_args [name o; w] progress0
        = Die ("You used a client only option but did not specify the "
               ++ "server name." ++ String "010" ""
               ++ "Do you want to be a client or server?")).
Proof.
  split; [reflexivity|]. split; [|split; [|split]].
  - intros Hw. unfold Main.do_args. cbn [length Main.do_args_loop].
    rewrite Hw.
    cbn [ServerName conf progress0 settings0 tl Main.do_args_loop].
    rewrite bind_Ret. cbn [negb ServerName conf].
    now destruct (find_test verbs w).
  - apply (lone_host_option (opt "--host" false (opt_misc "H" None)) w);
      reflexivity.
  - apply (lone_host_option (opt "-H" false (opt_misc "H" None)) w);
      reflexivity.
  - intros o a1 a2 l Hin H.
    pose proof numeric_rows as Hrows.
    rewrite Forall_forall in Hrows. specialize (Hrows o).
    assert (Ho : o ∈ Options) by (now apply list_elem_of_In).
    specialize (Hrows Ho).
    destruct H as [[Hf Ha]|[[Hf Ha]|[Hf Ha]]]; rewrite Hf in Hrows;
      destruct Hrows as (H1 & H2 & H3 & H4);
      apply (lone_numeric_option o a1 a2 w l H1 H2 H3 H4);
      unfold Main.call; rewrite Hf, Ha, bind_Ret; reflexivity.
Qed.

End WithEnvironment.

(** X13 witness: [qperf tcp_bw], and [qperf --time 5]. *)
Lemma do_args_without_a_test_witness :
  (starts_with_dash "tcp_bw" = false
   /\ Main.do_args 64 [] false (fun _ _ p => Returns true p) [ "tcp_bw" ]
        progress0
      = Die "Must specify host name first; try qperf --help")
  /\ (In (opt "--time" false (opt_time L_TIME R_TIME)) Options
      /\ Args.arg_time [ "--time"; "5" ] = Ret (5, [])
      /\ Main.do_args 64 [] false (fun _ _ p => Returns true p)
           [ "--time"; "5" ] progress0
         = Die ("You used a client only option but did not specify the "
                ++ "server name." ++ String "010" ""
                ++ "Do you want to be a client or server?")).
Proof.
  assert (Hin : In (opt "--time" false (opt_time L_TIME R_TIME)) Options)
    by (unfold Options; cbn [In]; tauto).
  assert (Ht : Args.arg_time [ "--time"; "5" ] = Ret (5, []))
    by (vm_compute; reflexivity).
  split; [split; [reflexivity|]|split; [exact Hin|split; [exact Ht|]]].
  - apply (proj1 (proj2 (do_args_without_a_test 64 [] false
                           (fun _ _ p => Returns true p) "tcp_bw"))).
    reflexivity.
  - apply (proj2 (proj2 (proj2 (proj2
             (do_args_without_a_test 64 [] false
                (fun _ _ p => Returns true p) "5"))))
             (opt "--time" false (opt_time L_TIME R_TIME))
             L_TIME R_TIME 5 Hin).
    right. right. split; [reflexivity|exact Ht].
Defined.

End EndingFacts.

(** ** C. [opt_check], [setv_u32] and the flags of the table *)

Module CheckFacts.

Import Par Check.

Local Open Scope string_scope.

Lemma same_name_eq (a b : option string) : same_name a b = true <-> a = b.
Proof.
  destruct a as [x|], b as [y|]; simpl; try (split; congruence).
  rewrite String.eqb_eq. split; congruence.
Qed.

Lemma index_eqb_eq (i j : PAR_INDEX) : index_eqb i j = true <-> i = j.
Proof.
  unfold index_eqb. destruct (PAR_INDEX_eq_dec i j); split; congruence.
Qed.

(** The inner loop clears [set] on the rows behind [p] that are set under
    the same name, and does nothing else. *)
Lemma clear_set_spec (nm : option string) (later : list PAR_INDEX) :
  forall st j,
    name (ParInfo (clear_set nm later st) j) = name (ParInfo st j)
    /\ used (ParInfo (clear_set nm later st) j) = used (ParInfo st j)
    /\ inuse (ParInfo (clear_set nm later st) j) = inuse (ParInfo st j)
    /\ Mem (clear_set nm later st) = Mem st
    /\ set (ParInfo (clear_set nm later st) j)
       = set (ParInfo st j)
         && negb (existsb (fun q => index_eqb q j) later
                  && same_name (name (ParInfo st j)) nm).
Proof.
  induction later as [|q later IH]; intros st j.
  - simpl. now rewrite andb_true_r.
  - cbn [clear_set existsb].
    set (st1 := if set (ParInfo st q) && same_name (name (ParInfo st q)) nm
                then upd_info q (fun r =>
                       {| name := name r; set := false;
                          used := used r; inuse := inuse r |}) st
                else st).
    destruct (IH st1 j) as (N & U & I & M & S).
    assert (K : name (ParInfo st1 j) = name (ParInfo st j)
                /\ used (ParInfo st1 j) = used (ParInfo st j)
                /\ inuse (ParInfo st1 j) = inuse (ParInfo st j)
                /\ Mem st1 = Mem st
                /\ set (ParInfo st1 j)
                   = set (ParInfo st j)
                     && negb (index_eqb q j
                              && same_name (name (ParInfo st j)) nm)).
    { subst st1. unfold index_eqb.
      destruct (set (ParInfo st q) && same_name (name (ParInfo st q)) nm)
        eqn:C; cbn [upd_info ParInfo Mem];
        destruct (PAR_INDEX_eq_dec q j) as [->|Hne];
        cbn [name used inuse set andb negb];
        rewrite ?andb_true_r; repeat split; try reflexivity.
      - apply andb_true_iff in C as [C1 C2]. now rewrite C1, C2.
      - destruct (set (ParInfo st j)); [|reflexivity].
        simpl in C. now rewrite C. }
    destruct K as (N1 & U1 & I1 & M1 & S1).
    rewrite N, U, I, M, S, N1, U1, I1, M1, S1.
    repeat split; try reflexivity.
    destruct (set (ParInfo st j)), (index_eqb q j),
      (existsb (fun q0 => index_eqb q0 j) later),
      (same_name (name (ParInfo st j)) nm); reflexivity.
Qed.

Lemma existsb_index (j : PAR_INDEX) (l : list PAR_INDEX) :
  In j l -> existsb (fun q => index_eqb q j) l = true.
Proof.
  intros H. apply existsb_exists. exists j. split; [exact H|].
  now apply index_eqb_eq.
Qed.

(** The outer loop from any row on. *)
Lemma opt_check_from_spec (TestName : string) (rows : list PAR_INDEX) :
  forall st st' ws,
    opt_check_from rows TestName st = (st', ws) ->
    (forall n, In n (map fst ws) <->
               exists p, In p rows /\ set (ParInfo st p) = true
                         /\ used (ParInfo st p) = false
                         /\ name (ParInfo st p) = n)
    /\ List.NoDup (map fst ws)
    /\ Forall (fun w => snd w = TestName) ws
    /\ Mem st' = Mem st
    /\ (forall j, name (ParInfo st' j) = name (ParInfo st j)
                  /\ used (ParInfo st' j) = used (ParInfo st j)
                  /\ inuse (ParInfo st' j) = inuse (ParInfo st j)
                  /\ (set (ParInfo st' j) = true ->
                      set (ParInfo st j) = true)).
Proof.
  induction rows as [|p rows IH]; intros st st' ws H.
  - injection H as <- <-. simpl. split; [|split; [|split; [|split]]].
    + intros n. split; [intros []|intros (p & [] & _)].
    + constructor.
    + constructor.
    + reflexivity.
    + intros j. auto.
  - cbn [opt_check_from] in H.
    destruct (used (ParInfo st p) || negb (set (ParInfo st p))) eqn:C.
    + destruct (IH st st' ws H) as (A & B & T & M & F).
      split; [|auto].
      intros n. rewrite A. split.
      * intros (q & Hq & R). exists q. split; [now right|exact R].
      * intros (q & [<-|Hq] & S & U & N).
        -- rewrite S, U in C. discriminate C.
        -- exists q. auto.
    + apply orb_false_iff in C as [CU CS].
      apply negb_false_iff in CS.
      set (nm := name (ParInfo st p)) in *.
      destruct (opt_check_from rows TestName (clear_set nm rows st))
        as [st1 ws1] eqn:E.
      injection H as <- <-.
      destruct (IH _ _ _ E) as (A & B & T & M & F).
      pose proof (clear_set_spec nm rows st) as K.
      cbn [map fst]. split; [|split; [|split; [|split]]].
      * intros n. cbn [In]. rewrite A. split.
        -- intros [<-|(q & Hq & S & U & N)].
           ++ exists p. split; [now left|auto].
           ++ destruct (K q) as (KN & KU & _ & _ & KS).
              exists q. split; [now right|].
              rewrite KS in S. apply andb_true_iff in S as [S _].
              rewrite <- KU, <- KN. auto.
        -- intros (q & Hq & S & U & N).
           destruct (same_name (name (ParInfo st q)) nm) eqn:Q.
           ++ left. apply same_name_eq in Q. now rewrite <- N, Q.
           ++ right. destruct Hq as [<-|Hq].
              { assert (same_name nm nm = true) by now apply same_name_eq.
                subst nm. congruence. }
              destruct (K q) as (KN & KU & _ & _ & KS).
              exists q. split; [exact Hq|].
              rewrite KS, KU, KN, S, Q, andb_false_r. auto.
      * constructor; [|exact B].
        intros Hin. apply A in Hin as (q & Hq & S & _ & N).
        destruct (K q) as (KN & _ & _ & _ & KS).
        rewrite KS in S. apply andb_true_iff in S as [_ S].
        rewrite existsb_index in S by exact Hq.
        rewrite KN in N. apply same_name_eq in N.
        now rewrite N in S.
      * constructor; [reflexivity|exact T].
      * destruct (K p) as (_ & _ & _ & KM & _). now rewrite M, KM.
      * intros j. destruct (F j) as (FN & FU & FI & FS).
        destruct (K j) as (KN & KU & KI & _ & KS).
        rewrite FN, FU, FI, KN, KU, KI. repeat split.
        intros S. apply FS in S. rewrite KS in S.
        now apply andb_true_iff in S as [S _].
Qed.

Lemma every_index_listed (p : PAR_INDEX) : In p indices.
Proof. destruct p; simpl; tauto. Qed.

(** X17.  [opt_check] writes one warning for every option name under
    which some row is set and not used, and no more than one: an option
    that set the local and the remote parameter is reported once.  Every
    warning names the current test.  The check itself changes nothing
    but [set] flags, which it only clears. *)
Theorem opt_check_warns_once_per_name (TestName : string) (st : state) :
  (forall n, In n (map fst (snd (opt_check TestName st))) <->
             exists p, set (ParInfo st p) = true
                       /\ used (ParInfo st p) = false
                       /\ name (ParInfo st p) = n)
  /\ List.NoDup (map fst (snd (opt_check TestName st)))
  /\ Forall (fun w => snd w = TestName) (snd (opt_check TestName st))
  /\ Mem (fst (opt_check TestName st)) = Mem st
  /\ (forall j,
        name (ParInfo (fst (opt_check TestName st)) j) = name (ParInfo st j)
        /\ used (ParInfo (fst (opt_check TestName st)) j)
           = used (ParInfo st j)
        /\ inuse (ParInfo (fst (opt_check TestName st)) j)
           = inuse (ParInfo st j)
        /\ (set (ParInfo (fst (opt_check TestName st)) j) = true ->
            set (ParInfo st j) = true)).
Proof.
  unfold opt_check.
  destruct (opt_check_from indices TestName st) as [st' ws] eqn:E.
  destruct (opt_check_from_spec TestName indices st st' ws E)
    as (A & B & T & M & F).
  cbn [fst snd]. split; [|auto].
  intros n. rewrite A. split.
  - intros (p & _ & R). eauto.
  - intros (p & R). exists p. split; [apply every_index_listed|exact R].
Qed.

(** *** The flags at test start *)

Ltac flags_by_rows j :=
  intros j; destruct j; cbn;
  rewrite ?orb_true_r, ?orb_false_r;
  repeat split; try reflexivity; try (intros H; now contradiction H).

Lemma clear_inuse_flags (st : state) (j : PAR_INDEX) :
  name (ParInfo (clear_inuse st) j) = name (ParInfo st j)
  /\ set (ParInfo (clear_inuse st) j) = set (ParInfo st j)
  /\ used (ParInfo (clear_inuse st) j) = used (ParInfo st j)
  /\ inuse (ParInfo (clear_inuse st) j) = false
  /\ value (clear_inuse st) j = value st j.
Proof. destruct j; repeat split; reflexivity. Qed.

Lemma setp_u32_default_flags (i : PAR_INDEX) (l : Z) (st : state) :
  i <> P_NULL ->
  exists st',
    setp_u32 None i l st = Ret st'
    /\ forall j,
         name (ParInfo st' j) = name (ParInfo st j)
         /\ set (ParInfo st' j) = set (ParInfo st j)
         /\ used (ParInfo st' j) = used (ParInfo st j) || index_eqb i j
         /\ inuse (ParInfo st' j) = inuse (ParInfo st j) || index_eqb i j
         /\ (j <> i -> value st' j = value st j).
Proof.
  intros Hi. unfold setp_u32, par_set. rewrite ParFacts.par_info_ok.
  destruct (name (ParInfo st i)) eqn:E;
    destruct i; try contradiction;
    (cbn; rewrite E; eexists; (split; [reflexivity|]);
     flags_by_rows j).
Qed.

Lemma par_use_flags (i : PAR_INDEX) (st : state) :
  exists st',
    par_use i st = Ret st'
    /\ forall j,
         name (ParInfo st' j) = name (ParInfo st j)
         /\ set (ParInfo st' j) = set (ParInfo st j)
         /\ used (ParInfo st' j) = used (ParInfo st j) || index_eqb i j
         /\ inuse (ParInfo st' j) = inuse (ParInfo st j) || index_eqb i j
         /\ value st' j = value st j.
Proof.
  unfold par_use. rewrite ParFacts.par_info_ok. eexists.
  split; [reflexivity|].
  destruct i; flags_by_rows j.
Qed.

Lemma default_unless_flags (b : bool) (i : PAR_INDEX) (l : Z) (st : state) :
  i <> P_NULL ->
  exists st',
    (if negb b then setp_u32 None i l st else Ret st) = Ret st'
    /\ forall j,
         name (ParInfo st' j) = name (ParInfo st j)
         /\ set (ParInfo st' j) = set (ParInfo st j)
         /\ used (ParInfo st' j)
            = used (ParInfo st j) || (negb b && index_eqb i j)
         /\ inuse (ParInfo st' j)
            = inuse (ParInfo st j) || (negb b && index_eqb i j)
         /\ (j <> i -> value st' j = value st j).
Proof.
  intros Hi. destruct b; cbn [negb andb].
  - exists st. split; [reflexivity|]. intros j.
    now rewrite !orb_false_r.
  - apply setp_u32_default_flags, Hi.
Qed.

(** X18.  The head of [client], on any table: it returns; it touches no
    name and no [set] flag; afterwards exactly six rows are in use, the
    two of [AFFINITY], of [TIME] and of [TIMEOUT], whatever was in use in
    the test before; these six are marked used, and no row loses its
    [used] mark; no member other than the four of [TIME] and [TIMEOUT]
    changes its value. *)
Theorem client_start_marks_six_rows (st : state) :
  exists st',
    client_start st = Ret st'
    /\ forall j,
         name (ParInfo st' j) = name (ParInfo st j)
         /\ set (ParInfo st' j) = set (ParInfo st j)
         /\ inuse (ParInfo st' j)
            = existsb (index_eqb j)
                [ L_AFFINITY; R_AFFINITY; L_TIME; R_TIME;
                  L_TIMEOUT; R_TIMEOUT ]
         /\ used (ParInfo st' j)
            = used (ParInfo st j) || inuse (ParInfo st' j)
         /\ (~ In j [ L_TIME; R_TIME; L_TIMEOUT; R_TIMEOUT ] ->
             value st' j = value st j).
Proof.
  unfold client_start.
  pose proof (clear_inuse_flags st) as K0.
  set (s0 := clear_inuse st) in *.
  rewrite ParFacts.par_isset_name, bind_Ret.
  destruct (default_unless_flags
              (match name (ParInfo s0 L_NO_MSGS) with
               | Some _ => true | None => false end) L_TIME 2 s0)
    as (s1 & E1 & K1); [discriminate|]. rewrite E1, bind_Ret.
  rewrite ParFacts.par_isset_name, bind_Ret.
  destruct (default_unless_flags
              (match name (ParInfo s1 R_NO_MSGS) with
               | Some _ => true | None => false end) R_TIME 2 s1)
    as (s2 & E2 & K2); [discriminate|]. rewrite E2, bind_Ret.
  destruct (setp_u32_default_flags L_TIMEOUT 5 s2) as (s3 & E3 & K3);
    [discriminate|]. rewrite E3, bind_Ret.
  destruct (setp_u32_default_flags R_TIMEOUT 5 s3) as (s4 & E4 & K4);
    [discriminate|]. rewrite E4, bind_Ret.
  destruct (par_use_flags L_AFFINITY s4) as (s5 & E5 & K5).
  rewrite E5, bind_Ret.
  destruct (par_use_flags R_AFFINITY s5) as (s6 & E6 & K6).
  rewrite E6, bind_Ret.
  destruct (par_use_flags L_TIME s6) as (s7 & E7 & K7).
  rewrite E7, bind_Ret.
  destruct (par_use_flags R_TIME s7) as (s8 & E8 & K8).
  exists s8. split; [exact E8|]. intros j.
  destruct (K0 j) as (N0 & S0 & U0 & I0 & V0).
  destruct (K1 j) as (N1 & S1 & U1 & I1 & V1).
  destruct (K2 j) as (N2 & S2 & U2 & I2 & V2).
  destruct (K3 j) as (N3 & S3 & U3 & I3 & V3).
  destruct (K4 j) as (N4 & S4 & U4 & I4 & V4).
  destruct (K5 j) as (N5 & S5 & U5 & I5 & V5).
  destruct (K6 j) as (N6 & S6 & U6 & I6 & V6).
  destruct (K7 j) as (N7 & S7 & U7 & I7 & V7).
  destruct (K8 j) as (N8 & S8 & U8 & I8 & V8).
  split; [congruence|]. split; [congruence|].
  rewrite I8, I7, I6, I5, I4, I3, I2, I1, I0.
  rewrite U8, U7, U6, U5, U4, U3, U2, U1, U0.
  split; [|split].
  - destruct j,
      (match name (ParInfo s0 L_NO_MSGS) with
       | Some _ => true | None => false end),
      (match name (ParInfo s1 R_NO_MSGS) with
       | Some _ => true | None => false end); reflexivity.
  - destruct (used (ParInfo st j)), j,
      (match name (ParInfo s0 L_NO_MSGS) with
       | Some _ => true | None => false end),
      (match name (ParInfo s1 R_NO_MSGS) with
       | Some _ => true | None => false end); reflexivity.
  - intros Hj. rewrite V8, V7, V6, V5.
    rewrite V4 by (intros ->; apply Hj; do 3 right; now left).
    rewrite V3 by (intros ->; apply Hj; do 2 right; now left).
    rewrite V2 by (intros ->; apply Hj; right; now left).
    rewrite V1 by (intros ->; apply Hj; now left).
    exact V0.
Qed.

(** X19.  [setv_u32] stores a value behind the back of the table: the
    member changes, no flag and no name does, so [par_isset] answers as
    before for every row; and because the row is still without a name, a
    default given afterwards through [setp_u32] with a null name replaces
    the value.  On [P_NULL] the store would go through a null pointer. *)
Theorem setv_u32_marks_nothing (i : PAR_INDEX) (l d : Z) (st : state) :
  i <> P_NULL ->
  exists st',
    setv_u32 i l st = Ret st'
    /\ value st' i = Some (V_u32 (l mod 2 ^ 32))
    /\ ParInfo st' = ParInfo st
    /\ (forall j, par_isset j st' = par_isset j st)
    /\ (forall j, j <> i -> value st' j = value st j)
    /\ (name (ParInfo st i) = None ->
        exists st'',
          setp_u32 None i d st' = Ret st''
          /\ value st'' i = Some (V_u32 (d mod 2 ^ 32))).
Proof.
  intros Hi. unfold setv_u32. rewrite ParFacts.par_info_ok, bind_Ret.
  destruct i; try contradiction;
    (eexists; split; [reflexivity|];
     split; [reflexivity|]; split; [reflexivity|];
     split; [intros j; reflexivity|];
     split; [intros j Hj; destruct j; try reflexivity; now contradiction Hj|];
     intros Hn;
     unfold setp_u32, par_set; rewrite ParFacts.par_info_ok;
     cbn; rewrite Hn; eexists; split; reflexivity).
Qed.

(** X19 witness: a test that presets the message size, and the default
    that comes after it. *)
Lemma setv_u32_marks_nothing_witness :
  L_MSG_SIZE <> P_NULL
  /\ exists st',
       setv_u32 L_MSG_SIZE 65536 state0 = Ret st'
       /\ value st' L_MSG_SIZE = Some (V_u32 65536)
       /\ par_isset L_MSG_SIZE st' = Ret false
       /\ exists st'',
            setp_u32 None L_MSG_SIZE 1 st' = Ret st''
            /\ value st'' L_MSG_SIZE = Some (V_u32 1).
Proof.
  split; [discriminate|].
  destruct (setv_u32_marks_nothing L_MSG_SIZE 65536 1 state0
              ltac:(discriminate))
    as (st' & E & V & _ & I & _ & D).
  exists st'. split; [exact E|]. split; [exact V|].
  split; [now rewrite I|]. now apply D.
Defined.

End CheckFacts.

(** ** G. Helpers *)

Module TextFacts.

Import Show Text.

Local Open Scope Z_scope.

(** X20.  [left_to_send] for a count [sent] that is not negative.
    Without a limit ([Req.no_msgs = 0]) the answer is [room] as it came.
    With a limit it is 0 once the limit is reached, else the smaller of
    [room] and [no_msgs - sent].  The difference is cut to an [int]
    before it is looked at, so as long as [2^31] messages or more are
    left the answer is 0 as well.  For a [room] that is not negative the
    answer therefore lies between 0 and [room]; a negative [room] is not
    raised to 0: as long as [sent] is not [2^31] or more beyond the limit,
    it is handed back when there is no limit or between 1 and [2^31 - 1]
    messages are left, and 0 is the answer otherwise. *)
Theorem left_to_send_bounds (no_msgs sent room : Z) :
  0 <= no_msgs < 2 ^ 32 -> 0 <= sent -> - 2 ^ 31 <= room < 2 ^ 31 ->
  (0 <= room -> 0 <= left_to_send no_msgs sent room <= room)
  /\ (no_msgs = 0 -> left_to_send no_msgs sent room = room)
  /\ (no_msgs <> 0 -> - 2 ^ 31 <= no_msgs - sent < 2 ^ 31 ->
      left_to_send no_msgs sent room
      = if no_msgs - sent <=? 0 then 0 else Z.min room (no_msgs - sent))
  /\ (2 ^ 31 <= no_msgs - sent -> left_to_send no_msgs sent room = 0)
  /\ (room < 0 -> - 2 ^ 31 <= no_msgs - sent ->
      left_to_send no_msgs sent room
      = if (no_msgs =? 0) || (0 <? no_msgs - sent) && (no_msgs - sent <? 2 ^ 31)
        then room else 0).
Proof.
  intros Hn Hs Hr. unfold left_to_send, Main.to_int.
  destruct (no_msgs =? 0) eqn:E0.
  - apply Z.eqb_eq in E0. subst no_msgs.
    repeat split; lia.
  - apply Z.eqb_neq in E0. cbn [orb].
    set (x := no_msgs - sent) in *.
    assert (Hm : 0 <= (x + 2 ^ 31) mod 2 ^ 32 < 2 ^ 32)
      by (apply Z.mod_pos_bound; lia).
    assert (Hsmall : - 2 ^ 31 <= x < 2 ^ 31 ->
                     (x + 2 ^ 31) mod 2 ^ 32 - 2 ^ 31 = x)
      by (intros Hx; rewrite Z.mod_small; lia).
    assert (Hlarge : 2 ^ 31 <= x ->
                     (x + 2 ^ 31) mod 2 ^ 32 - 2 ^ 31 = x - 2 ^ 32).
    { intros Hx.
      replace (x + 2 ^ 31) with (x - 2 ^ 31 + 1 * 2 ^ 32) by lia.
      rewrite Z_mod_plus_full, Z.mod_small; lia. }
    set (n := (x + 2 ^ 31) mod 2 ^ 32 - 2 ^ 31) in *.
    split; [|split; [|split; [|split]]].
    + intros Hr0. destruct (n <=? 0) eqn:E1; [lia|].
      destruct (n >? room) eqn:E2; [lia|].
      apply Z.leb_gt in E1. rewrite Z.gtb_ltb in E2. apply Z.ltb_ge in E2.
      lia.
    + intros ->. contradiction.
    + intros _ Hx. rewrite (Hsmall Hx).
      destruct (x <=? 0) eqn:E1; [reflexivity|].
      destruct (x >? room) eqn:E2; rewrite Z.gtb_ltb in E2;
        [apply Z.ltb_lt in E2|apply Z.ltb_ge in E2]; lia.
    + intros Hx. rewrite (Hlarge Hx).
      replace (x - 2 ^ 32 <=? 0) with true; [reflexivity|].
      symmetry. apply Z.leb_le. lia.
    + intros Hneg Hlow.
      destruct (Z.ltb_spec x (2 ^ 31)) as [Hx|Hx].
      * rewrite Hsmall by lia. rewrite andb_true_r.
        destruct (Z.ltb_spec 0 x) as [H0|H0].
        -- replace (x <=? 0) with false by (symmetry; apply Z.leb_gt; lia).
           replace (x >? room) with true; [reflexivity|].
           symmetry. rewrite Z.gtb_ltb. apply Z.ltb_lt. lia.
        -- replace (x <=? 0) with true; [reflexivity|].
           symmetry. apply Z.leb_le. lia.
      * rewrite (Hlarge Hx). rewrite andb_false_r.
        replace (x - 2 ^ 32 <=? 0) with true; [reflexivity|].
        symmetry. apply Z.leb_le. lia.
Qed.

(** X20 witness: ten messages wanted, seven sent, room for eight; a limit
    of three thousand million; and a negative room. *)
Lemma left_to_send_bounds_witness :
  left_to_send 10 7 8 = 3 /\ left_to_send 3000000000 0 8 = 0
  /\ left_to_send 0 0 (-5) = -5 /\ left_to_send 10 10 (-5) = 0.
Proof.
  split; [|split; [|split]].
  - rewrite (proj1 (proj2 (proj2 (left_to_send_bounds 10 7 8
               ltac:(lia) ltac:(lia) ltac:(lia))))
               ltac:(lia) ltac:(lia)).
    reflexivity.
  - apply (proj1 (proj2 (proj2 (proj2 (left_to_send_bounds 3000000000 0 8
               ltac:(lia) ltac:(lia) ltac:(lia)))))).
    lia.
  - apply (proj1 (proj2 (left_to_send_bounds 0 0 (-5)
               ltac:(lia) ltac:(lia) ltac:(lia)))).
    reflexivity.
  - rewrite (proj2 (proj2 (proj2 (proj2 (left_to_send_bounds 10 10 (-5)
               ltac:(lia) ltac:(lia) ltac:(lia))))) ltac:(lia) ltac:(lia)).
    reflexivity.
Defined.

(** *** C strings *)

Lemma c_str_cons (c : ascii) (l : list ascii) :
  c_str (c :: l) = if Ascii.eqb c NUL then [] else c :: c_str l.
Proof.
  unfold c_str. cbn [Args.span].
  destruct (Ascii.eqb c NUL); cbn [negb]; [reflexivity|].
  now destruct (Args.span (fun c0 => negb (Ascii.eqb c0 NUL)) l).
Qed.

Lemma c_str_no_nul (l : list ascii) : Forall (fun c => c <> NUL) (c_str l).
Proof.
  induction l as [|c l IH]; [constructor|].
  rewrite c_str_cons. destruct (Ascii.eqb c NUL) eqn:E; [constructor|].
  constructor; [|exact IH]. now apply Ascii.eqb_neq.
Qed.

(** The string ends where the NUL stands. *)
Lemma c_str_app_stop (a t : list ascii) :
  Forall (fun c => c <> NUL) a -> hd NUL t = NUL -> c_str (a ++ t) = a.
Proof.
  intros Ha Ht. induction a as [|c a IH]; simpl.
  - destruct t as [|x t]; [reflexivity|]. simpl in Ht. subst x.
    now rewrite c_str_cons.
  - apply Forall_cons in Ha as [Hc Ha].
    rewrite c_str_cons. apply Ascii.eqb_neq in Hc. rewrite Hc.
    now rewrite (IH Ha).
Qed.

Lemma tolower_nul (c : ascii) : c <> NUL -> Args.tolower c <> NUL.
Proof.
  intros H. destruct c as [[] [] [] [] [] [] [] []];
    first [discriminate | now contradiction H].
Qed.

(** X21.  [cmpsub(s2, s1)] is 1 exactly when [s1], letter case aside, is
    a beginning of [s2]: the lower-cased characters of [s1] are the first
    characters of the lower-cased [s2].  The empty [s1] is a beginning of
    every string, and no string begins with a longer one. *)
Theorem cmpsub_is_prefix_without_case (s2 s1 : list ascii) :
  cmpsub s2 s1 = true
  <-> exists rest,
        map Args.tolower (c_str s2) = map Args.tolower (c_str s1) ++ rest.
Proof.
  revert s2. induction s1 as [|c1 s1 IH]; intros s2.
  - split; [intros _; now eexists|now destruct s2].
  - rewrite (c_str_cons c1).
    destruct (Ascii.eqb c1 NUL) eqn:E1.
    { split; [intros _; now eexists|destruct s2; simpl; now rewrite E1]. }
    destruct s2 as [|c2 s2]; simpl; rewrite E1.
    { split; [discriminate|]. intros (rest & H). discriminate H. }
    rewrite (c_str_cons c2).
    destruct (Ascii.eqb c2 NUL) eqn:E2.
    { split; [discriminate|]. intros (rest & H). discriminate H. }
    cbn [map app].
    destruct (Ascii.eqb (Args.tolower c1) (Args.tolower c2)) eqn:E;
      cbn [negb].
    + apply Ascii.eqb_eq in E. rewrite IH, E. split.
      * intros (rest & H). exists rest. now rewrite H.
      * intros (rest & H). exists rest. now injection H.
    + apply Ascii.eqb_neq in E. split; [discriminate|].
      intros (rest & H). injection H as H _. now symmetry in H.
Qed.

Lemma span_spec (f : ascii -> bool) (l : list ascii) :
  l = fst (Args.span f l) ++ snd (Args.span f l)
  /\ forallb f (fst (Args.span f l)) = true
  /\ match snd (Args.span f l) with
     | [] => True
     | c :: _ => f c = false
     end.
Proof.
  induction l as [|c l IH]; simpl; [auto|].
  destruct (f c) eqn:E.
  - destruct (Args.span f l) as [a b]. simpl in *.
    destruct IH as (-> & Ha & Hb). rewrite E. auto.
  - simpl. auto.
Qed.

Lemma all_spaces (a : list ascii) :
  forallb Times.is_space a = true -> a = repeat " "%char (length a).
Proof.
  induction a as [|c a IH]; [reflexivity|]. simpl. intros H.
  apply andb_true_iff in H as [Hc Ha].
  apply Ascii.eqb_eq in Hc. subst c. now rewrite <- (IH Ha).
Qed.

(** X22.  [skip_colon] returns the null pointer exactly for a string
    without a colon; otherwise it returns the place behind the first
    colon and behind every space that follows it at once: what lies
    before is colon-free text, the colon and a run of spaces, and what is
    returned does not begin with a space. *)
Theorem skip_colon_finds_the_value (s : list ascii) :
  (skip_colon s = None <-> ~ In ":"%char (c_str s))
  /\ (forall q,
        skip_colon s = Some q ->
        exists pre k,
          s = pre ++ ":"%char :: repeat " "%char k ++ q
          /\ ~ In ":"%char pre /\ ~ In NUL pre
          /\ hd NUL q <> " "%char).
Proof.
  induction s as [|c s [IHn IHs]]; [split|split].
  - simpl. split; [intros _ []|reflexivity].
  - discriminate.
  - cbn [skip_colon]. rewrite c_str_cons.
    destruct (Ascii.eqb c ":") eqn:Ec.
    + apply Ascii.eqb_eq in Ec. subst c. cbn [Ascii.eqb]. simpl.
      split; [discriminate|]. intros H. exfalso. apply H. now left.
    + apply Ascii.eqb_neq in Ec.
      destruct (Ascii.eqb c NUL) eqn:En.
      * split; [intros _ []|reflexivity].
      * rewrite IHn. simpl. split.
        -- intros H [Hc|Hin]; [now apply Ec|now apply H].
        -- intros H Hin. apply H. now right.
  - intros q H. cbn [skip_colon] in H.
    destruct (Ascii.eqb c ":") eqn:Ec.
    + apply Ascii.eqb_eq in Ec. subst c. injection H as <-.
      unfold Times.skip_spaces.
      destruct (span_spec Times.is_space s) as (Hs & Ha & Hb).
      exists [], (length (fst (Args.span Times.is_space s))).
      rewrite <- (all_spaces _ Ha). cbn [app].
      split; [now rewrite <- Hs|]. split; [intros []|]. split; [intros []|].
      destruct (snd (Args.span Times.is_space s)) as [|x t];
        [discriminate|].
      simpl. intros ->. discriminate Hb.
    + destruct (Ascii.eqb c NUL) eqn:En; [discriminate|].
      apply Ascii.eqb_neq in Ec, En.
      destruct (IHs q H) as (pre & k & -> & Hc & Hn & Hq).
      exists (c :: pre), k. split; [reflexivity|].
      split; [intros [E|Hin]; [now apply Ec|now apply Hc]|].
      split; [intros [E|Hin]; [now apply En|now apply Hn]|exact Hq].
Qed.

(** X22 witness: a line of [/proc/cpuinfo]. *)
Lemma skip_colon_finds_the_value_witness :
  skip_colon (list_ascii_of_string "cpu MHz  :   2400.000")
  = Some (list_ascii_of_string "2400.000")
  /\ exists pre k,
       list_ascii_of_string "cpu MHz  :   2400.000"
       = pre ++ ":"%char :: repeat " "%char k
             ++ list_ascii_of_string "2400.000"
       /\ ~ In ":"%char pre /\ ~ In NUL pre
       /\ hd NUL (list_ascii_of_string "2400.000") <> " "%char.
Proof.
  split; [reflexivity|].
  apply (proj2 (skip_colon_finds_the_value
                  (list_ascii_of_string "cpu MHz  :   2400.000"))).
  reflexivity.
Defined.

(** X23.  [strncopy(d, s, n)] with [1 <= n <= sizeof d] always leaves a
    terminated string in [d]: the first [n - 1] characters of [s], or all
    of [s] if it is shorter.  The size of [d] and what lies behind its
    first [n] characters are as before. *)
Theorem strncopy_terminates_the_copy (d s : list ascii) (n : nat) :
  (1 <= n <= length d)%nat ->
  exists r,
    strncopy d s n = Some r
    /\ length r = length d
    /\ c_str r = take (n - 1) (c_str s)
    /\ drop n r = drop n d.
Proof.
  intros [H1 H2]. destruct n as [|m]; [lia|].
  unfold strncopy.
  replace (length d <? S m)%nat with false
    by (symmetry; apply Nat.ltb_ge; lia).
  eexists. split; [reflexivity|].
  set (cs := c_str s).
  set (X := cs ++ repeat NUL (S m)).
  assert (HX : (S m <= length X)%nat)
    by (subst X; rewrite length_app, repeat_length; lia).
  assert (Hx : exists x, X !! m = Some x)
    by (apply lookup_lt_is_Some; lia).
  destruct Hx as [x Hx].
  rewrite (take_S_r X m x Hx).
  assert (Lm : length (take m X) = m) by (rewrite length_take; lia).
  rewrite <- app_assoc.
  rewrite insert_app_r_alt by lia. rewrite Lm, Nat.sub_diag.
  cbn [app insert list_insert].
  assert (Etake : take m X
                  = take m cs ++ take (m - length cs) (repeat NUL (S m)))
    by (subst X; apply take_app).
  split; [|split].
  - rewrite length_app. cbn [length]. rewrite Lm, length_drop. lia.
  - replace (S m - 1)%nat with m by lia.
    rewrite Etake, <- app_assoc. apply c_str_app_stop.
    + apply Forall_take. apply c_str_no_nul.
    + destruct (m - length cs)%nat; reflexivity.
  - change (take m X ++ NUL :: drop (S m) d)
      with (take m X ++ [NUL] ++ drop (S m) d).
    rewrite app_assoc. apply drop_app_length'.
    rewrite length_app. cbn [length]. lia.
Qed.

(** X23 witness: the node name of [get_conf], into a buffer of eight. *)
Lemma strncopy_terminates_the_copy_witness :
  strncopy (repeat "#"%char 8) (list_ascii_of_string "node-17.example")
    8
  = Some (list_ascii_of_string "node-17" ++ [NUL])
  /\ exists r,
       strncopy (repeat "#"%char 8)
         (list_ascii_of_string "node-17.example") 8 = Some r
       /\ length r = length (repeat "#"%char 8)
       /\ c_str r
          = take (8 - 1) (c_str (list_ascii_of_string "node-17.example"))
       /\ drop 8 r = drop 8 (repeat "#"%char 8).
Proof.
  split; [reflexivity|].
  apply (strncopy_terminates_the_copy (repeat "#"%char 8)
           (list_ascii_of_string "node-17.example") 8).
  simpl. lia.
Defined.

End TextFacts.

(** ** I. [commify] *)

Module CommifyFacts.

Import Show Text.

Local Open Scope Z_scope.

Ltac div_lia := zify; Z.to_euclidean_division_equations; lia.

Ltac list_norm :=
  repeat (progress (cbn [app]) || rewrite <- app_assoc); reflexivity.

Lemma at_middle (front rest : list ascii) (c : ascii) (s : Z) :
  s = Z.of_nat (length front) -> at_ (front ++ c :: rest) s = c.
Proof.
  intros ->. unfold at_.
  replace (Z.of_nat (length front) <? 0) with false
    by (symmetry; apply Z.ltb_ge; lia).
  rewrite Nat2Z.id, app_nth2 by lia. now rewrite Nat.sub_diag.
Qed.

Lemma scan_back_S (fuel : nat) (data : list ascii) (seqS : Z) :
  scan_back (S fuel) data seqS
  = if seqS - 1 >=? 0
    then if negb (isdigit (at_ data (seqS - 1))) then seqS - 1
         else scan_back fuel data (seqS - 1)
    else seqS - 1.
Proof. reflexivity. Qed.

(** The scan runs over a row of digits and stops before it. *)
Lemma scan_back_digits (front : list ascii) :
  (forall c, last front = Some c -> isdigit c = false) ->
  forall ds rest fuel seqS,
    forallb isdigit ds = true ->
    (length ds < fuel)%nat ->
    seqS = Z.of_nat (length front + length ds) ->
    scan_back fuel (front ++ ds ++ rest) seqS = Z.of_nat (length front) - 1.
Proof.
  intros Hfront ds. induction ds as [|x ds IH] using rev_ind;
    intros rest fuel seqS Hds Hfuel ->.
  - destruct fuel as [|fuel]; [simpl in Hfuel; lia|].
    rewrite scan_back_S. cbn [length app]. rewrite Nat.add_0_r.
    destruct (Z.of_nat (length front) - 1 >=? 0) eqn:E; [|reflexivity].
    destruct front as [|c front _] using rev_ind;
      [simpl in E; discriminate|].
    rewrite <- app_assoc. cbn [app].
    rewrite at_middle by (rewrite length_app; simpl; lia).
    rewrite (Hfront c (last_snoc _ _)). reflexivity.
  - destruct fuel as [|fuel]; [simpl in Hfuel; lia|].
    rewrite length_app in Hfuel. simpl in Hfuel.
    rewrite forallb_app in Hds. apply andb_true_iff in Hds as [Hds Hx].
    simpl in Hx. rewrite andb_true_r in Hx.
    rewrite scan_back_S.
    replace (Z.of_nat (length front + length (ds ++ [x])) - 1 >=? 0)
      with true by (symmetry; apply Z.geb_le; rewrite length_app; simpl;
                    lia).
    replace (front ++ (ds ++ [x]) ++ rest)
      with ((front ++ ds) ++ x :: rest)
      by (list_norm).
    rewrite at_middle by (rewrite !length_app; simpl; lia).
    rewrite Hx. cbn [negb]. rewrite <- app_assoc.
    apply IH; [exact Hds|lia|rewrite length_app; simpl; lia].
Qed.

Lemma insert_commas_S (fuel : nat) (data : list ascii)
  (s d seqE noCommas : Z) :
  insert_commas (S fuel) data s d seqE noCommas
  = if (seqE - (s - 1) >? 0) && (Z.rem (seqE - (s - 1)) 3 =? 0)
    then
      if noCommas - 1 =? 0
      then <[Z.to_nat (d - 1) := ","%char]>
             (<[Z.to_nat d := at_ data s]> data)
      else insert_commas fuel
             (<[Z.to_nat (d - 1) := ","%char]>
                (<[Z.to_nat d := at_ data s]> data))
             (s - 1) (d - 1 - 1) seqE (noCommas - 1)
    else insert_commas fuel (<[Z.to_nat d := at_ data s]> data)
           (s - 1) (d - 1) seqE noCommas.
Proof. reflexivity. Qed.

(** A store into the last of the free places between what is still to be
    copied and what has been copied. *)
Lemma insert_at_end (front j out : list ascii) (y x : ascii) (d : Z) :
  d = Z.of_nat (length front + length j) ->
  <[Z.to_nat d := x]> (front ++ (j ++ [y]) ++ out) = front ++ j ++ x :: out.
Proof.
  intros ->. rewrite Nat2Z.id.
  rewrite insert_app_r_alt by lia.
  replace (length front + length j - length front)%nat with (length j)
    by lia.
  rewrite <- app_assoc. rewrite insert_app_r_alt by lia.
  now rewrite Nat.sub_diag.
Qed.

Lemma snoc_of_length (k : nat) (junk : list ascii) :
  length junk = S k -> exists j y, junk = j ++ [y] /\ length j = k.
Proof.
  intros H. destruct junk as [|y j _] using rev_ind; [discriminate|].
  exists j, y. split; [reflexivity|].
  rewrite length_app in H. simpl in H. lia.
Qed.

(** One character copied: the free places move down by one. *)
Lemma copy_step (front j out : list ascii) (c y : ascii) (s d : Z) :
  s = Z.of_nat (length front) ->
  d = s + Z.of_nat (S (length j)) ->
  <[Z.to_nat d := at_ (front ++ c :: (j ++ [y]) ++ out) s]>
    (front ++ c :: (j ++ [y]) ++ out)
  = front ++ (c :: j) ++ c :: out.
Proof.
  intros Hs Hd. rewrite (at_middle _ _ _ _ Hs).
  change (front ++ c :: (j ++ [y]) ++ out)
    with (front ++ [c] ++ (j ++ [y]) ++ out).
  rewrite app_assoc.
  rewrite insert_at_end by (rewrite length_app; simpl; lia).
  now rewrite <- app_assoc.
Qed.

(** One comma written: one free place less. *)
Lemma comma_step (front j out : list ascii) (c : ascii) (d : Z) :
  d = Z.of_nat (length front + length j) ->
  exists j',
    length j' = length j
    /\ <[Z.to_nat d := ","%char]> (front ++ (c :: j) ++ c :: out)
       = front ++ j' ++ ","%char :: c :: out.
Proof.
  intros Hd.
  destruct (snoc_of_length (length j) (c :: j) eq_refl)
    as (j' & z & E & L).
  exists j'. split; [exact L|]. rewrite E.
  apply insert_at_end. lia.
Qed.

Lemma comma_before_yes (r : list ascii) :
  0 < Z.of_nat (length r) -> Z.of_nat (length r) mod 3 = 0 ->
  comma_before r = [","%char].
Proof.
  intros H1 H2. unfold comma_before.
  replace (0 <? Z.of_nat (length r)) with true
    by (symmetry; apply Z.ltb_lt; lia).
  now rewrite H2.
Qed.

Lemma comma_before_no (r : list ascii) :
  Z.of_nat (length r) mod 3 <> 0 -> comma_before r = [].
Proof.
  intros H. unfold comma_before. apply Z.eqb_neq in H. rewrite H.
  now rewrite andb_false_r.
Qed.

(** One to three digits before full groups of three. *)
Lemma group3_short_head (x y : list ascii) :
  (1 <= length x <= 3)%nat ->
  0 < Z.of_nat (length y) -> Z.of_nat (length y) mod 3 = 0 ->
  group3 (x ++ y) = x ++ ","%char :: group3 y.
Proof.
  intros Hx H1 H2.
  destruct x as [|x1 [|x2 [|x3 [|]]]]; simpl in Hx; try lia;
    cbn [app group3];
    rewrite ?(comma_before_no (_ :: _ :: y))
      by (cbn [length]; div_lia);
    rewrite ?(comma_before_no (_ :: y)) by (cbn [length]; div_lia);
    rewrite (comma_before_yes y H1 H2); reflexivity.
Qed.

(** Up to three digits stay as they are. *)
Lemma group3_small (ds : list ascii) :
  (length ds <= 3)%nat -> group3 ds = ds.
Proof.
  intros H. destruct ds as [|x1 [|x2 [|x3 [|]]]]; simpl in H; try lia;
    reflexivity.
Qed.

Lemma rem_is_mod (n : nat) :
  (Z.rem (Z.of_nat n) 3 =? 0) = (Z.of_nat n mod 3 =? 0).
Proof.
  destruct (Z.eqb_spec (Z.rem (Z.of_nat n) 3) 0),
    (Z.eqb_spec (Z.of_nat n mod 3) 0); try reflexivity; exfalso; div_lia.
Qed.

(** The loop over the digits: [ra] are the digits still to be copied, the
    last one first, [b] the digits copied, [junk] the free places, as many
    as commas are left to write. *)
Lemma insert_commas_digits (pre tail : list ascii) :
  forall ra b junk fuel k s d seqE,
    length junk = k -> (1 <= k)%nat ->
    (Z.of_nat (length ra + length b) - 1) / 3
    = Z.of_nat k + Z.of_nat (length b) / 3 ->
    (length ra <= fuel)%nat ->
    s = Z.of_nat (length pre + length ra) - 1 ->
    d = s + Z.of_nat k ->
    seqE = Z.of_nat (length pre + length ra + length b) - 1 ->
    insert_commas fuel
      (pre ++ rev ra ++ junk ++ comma_before b ++ group3 b ++ tail)
      s d seqE (Z.of_nat k)
    = pre ++ group3 (rev ra ++ b) ++ tail.
Proof.
  induction ra as [|c ra IH];
    intros b junk fuel k s d seqE Hj Hk Hdiv Hfuel Hs Hd HE.
  { exfalso. simpl in Hdiv. div_lia. }
  destruct fuel as [|fuel]; [simpl in Hfuel; lia|].
  simpl in Hfuel.
  destruct k as [|k]; [lia|].
  destruct (snoc_of_length k junk Hj) as (j & y & -> & Lj).
  cbn [rev length] in *.
  set (out := comma_before b ++ group3 b ++ tail).
  replace (pre ++ (rev ra ++ [c]) ++ (j ++ [y]) ++ out)
    with ((pre ++ rev ra) ++ c :: (j ++ [y]) ++ out)
    by (list_norm).
  assert (Lf : Z.of_nat (length (pre ++ rev ra))
               = Z.of_nat (length pre + length ra))
    by (now rewrite length_app, length_rev).
  rewrite insert_commas_S.
  rewrite copy_step by lia.
  replace (seqE - (s - 1)) with (Z.of_nat (length (c :: b)))
    by (cbn [length]; lia).
  replace (Z.of_nat (length (c :: b)) >? 0) with true
    by (symmetry; apply Z.gtb_lt; cbn [length]; lia).
  rewrite rem_is_mod. cbn [andb].
  replace (group3 ((rev ra ++ [c]) ++ b)) with (group3 (rev ra ++ c :: b))
    by (now rewrite <- app_assoc).
  destruct (Z.eqb_spec (Z.of_nat (length (c :: b)) mod 3) 0) as [E|E].
  - destruct (comma_step (pre ++ rev ra) j out c (d - 1))
      as (j' & Lj' & ->); [lia|].
    assert (Hc : comma_before (c :: b) = [","%char])
      by (apply comma_before_yes; [cbn [length]; lia|exact E]).
    destruct (Z.eqb_spec (Z.of_nat (S k) - 1) 0) as [K1|K1].
    + assert (Hj0 : j' = []) by (apply nil_length_inv; lia). subst j'.
      rewrite (group3_short_head (rev ra) (c :: b)).
      * subst out. cbn [app group3]. list_norm.
      * rewrite length_rev. cbn [length] in E. div_lia.
      * cbn [length]. lia.
      * exact E.
    + replace ((pre ++ rev ra) ++ j' ++ ","%char :: c :: out)
        with (pre ++ rev ra ++ j' ++ comma_before (c :: b)
                ++ group3 (c :: b) ++ tail)
        by (rewrite Hc; subst out; cbn [app group3];
            list_norm).
      replace (Z.of_nat (S k) - 1) with (Z.of_nat k) by lia.
      apply IH; cbn [length] in *; try lia. div_lia.
  - assert (Hc : comma_before (c :: b) = [])
      by (now apply comma_before_no).
    replace ((pre ++ rev ra) ++ (c :: j) ++ c :: out)
      with (pre ++ rev ra ++ (c :: j) ++ comma_before (c :: b)
              ++ group3 (c :: b) ++ tail)
      by (rewrite Hc; subst out; cbn [app group3];
          list_norm).
    apply IH; cbn [length] in *; try lia. div_lia.
Qed.

(** The loop over what follows the digits: it is moved as it is. *)
Lemma insert_commas_tail (front out R : list ascii) (k : nat)
  (seqE : Z) :
  (1 <= k)%nat -> seqE + 1 <= Z.of_nat (length front) ->
  forall t junk fuel s d,
    length junk = k ->
    s = Z.of_nat (length front + length t) - 1 ->
    d = s + Z.of_nat k ->
    (forall junk',
        length junk' = k ->
        insert_commas fuel (front ++ junk' ++ t ++ out)
          (Z.of_nat (length front) - 1)
          (Z.of_nat (length front) - 1 + Z.of_nat k) seqE (Z.of_nat k)
        = R) ->
    insert_commas (length t + fuel) (front ++ t ++ junk ++ out)
      s d seqE (Z.of_nat k)
    = R.
Proof.
  intros Hk HE t. revert out.
  induction t as [|c t IH] using rev_ind;
    intros out junk fuel s d Hj Hs Hd Hrest.
  - cbn [length app Nat.add] in *. rewrite Nat.add_0_r in Hs.
    subst s d. now apply Hrest.
  - destruct junk as [|y j _] using rev_ind; [simpl in Hj; lia|].
    rewrite length_app in Hj, Hs. cbn [length] in Hj, Hs.
    replace (length (t ++ [c]) + fuel)%nat with (S (length t + fuel))
      by (rewrite length_app; simpl; lia).
    replace (front ++ (t ++ [c]) ++ (j ++ [y]) ++ out)
      with ((front ++ t) ++ c :: (j ++ [y]) ++ out)
      by (list_norm).
    rewrite insert_commas_S.
    rewrite copy_step by (rewrite ?length_app; lia).
    replace (seqE - (s - 1) >? 0) with false
      by (symmetry; rewrite Z.gtb_ltb; apply Z.ltb_ge; lia).
    cbn [andb]. rewrite <- app_assoc.
    apply IH.
    + cbn [length]. lia.
    + lia.
    + lia.
    + intros junk' Hj'.
      replace (front ++ junk' ++ t ++ c :: out)
        with (front ++ junk' ++ (t ++ [c]) ++ out)
        by (list_norm).
      now apply Hrest.
Qed.

Lemma digit_not_nul (c : ascii) : isdigit c = true -> c <> NUL.
Proof. intros H ->. discriminate H. Qed.

Lemma digits_no_nul (ds : list ascii) :
  forallb isdigit ds = true -> Forall (fun c => c <> NUL) ds.
Proof.
  induction ds as [|c ds IH]; [constructor|]. simpl. intros H.
  apply andb_true_iff in H as [Hc Hds].
  constructor; [now apply digit_not_nul|now apply IH].
Qed.

Lemma group3_no_nul (ds : list ascii) :
  Forall (fun c => c <> NUL) ds -> Forall (fun c => c <> NUL) (group3 ds).
Proof.
  induction ds as [|c ds IH]; [constructor|]. intros H.
  apply Forall_cons in H as [Hc Hds]. cbn [group3].
  constructor; [exact Hc|]. apply Forall_app. split; [|now apply IH].
  unfold comma_before.
  destruct ((0 <? _) && _); [|constructor].
  constructor; [discriminate|constructor].
Qed.

(** What [commify] does once the row of digits is found. *)
Lemma commify_from_the_row (pre ds post : list ascii) (seqS seqE : Z) :
  Forall (fun c => c <> NUL) (pre ++ ds ++ post) ->
  seqS = Z.of_nat (length pre) - 1 ->
  seqE = Z.of_nat (length pre + length ds) ->
  (if Z.quot (seqE - 1 - (seqS + 1)) 3 =? 0
   then Some (pre ++ ds ++ post)
   else
     Some (c_str
             (insert_commas (S (length (pre ++ ds ++ post)))
                ((pre ++ ds ++ post) ++ [NUL]
                   ++ repeat NUL
                        (Z.to_nat (Z.quot (seqE - 1 - (seqS + 1)) 3)))
                (Z.of_nat (length (pre ++ ds ++ post)))
                (Z.of_nat (length (pre ++ ds ++ post))
                 + Z.quot (seqE - 1 - (seqS + 1)) 3)
                (seqE - 1)
                (Z.quot (seqE - 1 - (seqS + 1)) 3))))
  = Some (pre ++ group3 ds ++ post).
Proof.
  intros Hnul -> ->.
  replace (Z.of_nat (length pre + length ds) - 1
           - (Z.of_nat (length pre) - 1 + 1))
    with (Z.of_nat (length ds) - 1) by lia.
  set (K := Z.quot (Z.of_nat (length ds) - 1) 3).
  destruct (Z.eqb_spec K 0) as [E|E].
  - rewrite group3_small; [reflexivity|]. subst K. div_lia.
  - assert (HK : 1 <= K) by (subst K; div_lia).
    f_equal.
    replace (K) with (Z.of_nat (Z.to_nat K)) at 2 3 by lia.
    replace ((pre ++ ds ++ post) ++ [NUL] ++ repeat NUL (Z.to_nat K))
      with ((pre ++ ds) ++ (post ++ [NUL]) ++ repeat NUL (Z.to_nat K) ++ [])
      by (rewrite app_nil_r; list_norm).
    replace (S (length (pre ++ ds ++ post)))
      with (length (post ++ [NUL]) + (length pre + length ds))%nat
      by (rewrite !length_app; simpl; lia).
    rewrite (insert_commas_tail (pre ++ ds) []
               (pre ++ group3 ds ++ post ++ [NUL]) (Z.to_nat K)).
    + replace (pre ++ group3 ds ++ post ++ [NUL])
        with ((pre ++ group3 ds ++ post) ++ [NUL])
        by (list_norm).
      apply TextFacts.c_str_app_stop; [|reflexivity].
      rewrite !Forall_app in Hnul. destruct Hnul as (Hp & Hd & Hq).
      rewrite !Forall_app. repeat split; try assumption.
      now apply group3_no_nul.
    + lia.
    + rewrite length_app. lia.
    + apply repeat_length.
    + rewrite !length_app. simpl. lia.
    + lia.
    + intros junk' Hj'.
      replace ((pre ++ ds) ++ junk' ++ (post ++ [NUL]) ++ [])
        with (pre ++ rev (rev ds) ++ junk' ++ comma_before []
                ++ group3 [] ++ post ++ [NUL])
        by (rewrite rev_involutive, app_nil_r; cbn [group3 app];
            unfold comma_before; cbn [length app];
            list_norm).
      rewrite (insert_commas_digits pre (post ++ [NUL]) (rev ds) []
                 junk' (length pre + length ds) (Z.to_nat K)
                 (Z.of_nat (length (pre ++ ds)) - 1)
                 (Z.of_nat (length (pre ++ ds)) - 1
                  + Z.of_nat (Z.to_nat K))
                 (Z.of_nat (length pre + length ds) - 1)).
      * now rewrite rev_involutive, app_nil_r.
      * exact Hj'.
      * lia.
      * rewrite length_rev. cbn [length]. subst K. div_lia.
      * rewrite length_rev. lia.
      * rewrite length_app, length_rev. lia.
      * reflexivity.
      * rewrite length_rev. cbn [length]. lia.
Qed.

(** X24.  [commify] puts commas into the last whole number of a string:
    the row of digits [ds] that ends the string or stands before its
    last point, where only digits follow the point.  The digits come out
    in groups of three counted from the right, a comma between two
    groups; what stands before and behind the row is not changed, and a
    row of up to three digits is not changed either. *)
Theorem commify_groups_by_three (pre ds post : list ascii) :
  Forall (fun c => c <> NUL) pre ->
  (forall c, last pre = Some c -> isdigit c = false) ->
  forallb isdigit ds = true ->
  (post = [] /\ last pre <> Some "."%char
   \/ exists frac, post = "."%char :: frac /\ forallb isdigit frac = true) ->
  commify false (Some (pre ++ ds ++ post))
  = Some (pre ++ group3 ds ++ post).
Proof.
  intros Hpre Hlast Hds Hpost.
  assert (Hnul : Forall (fun c => c <> NUL) (pre ++ ds ++ post)).
  { rewrite !Forall_app. repeat split;
      [exact Hpre|now apply digits_no_nul|].
    destruct Hpost as [[-> _]|(frac & -> & Hf)]; [constructor|].
    constructor; [discriminate|now apply digits_no_nul]. }
  unfold commify. cbv zeta.
  destruct Hpost as [[-> Hdot]|(frac & -> & Hfrac)].
  - rewrite (scan_back_digits pre Hlast ds [] _ _ Hds)
      by (rewrite ?length_app, ?app_nil_r, ?length_app; simpl; lia).
    replace ((Z.of_nat (length pre) - 1 >=? 0)
             && Ascii.eqb (at_ (pre ++ ds ++ []) (Z.of_nat (length pre) - 1))
                  ".")
      with false.
    + apply (commify_from_the_row pre ds [] _ _ Hnul); [reflexivity|].
      rewrite app_nil_r, length_app. reflexivity.
    + symmetry. destruct pre as [|c pre _] using rev_ind;
        [reflexivity|].
      rewrite <- app_assoc. cbn [app].
      rewrite at_middle by (rewrite length_app; simpl; lia).
      rewrite last_snoc in Hdot.
      destruct (Ascii.eqb_spec c "."); [now subst c|].
      apply andb_false_r.
  - assert (S1 : scan_back (S (length (pre ++ ds ++ "."%char :: frac)))
                   (pre ++ ds ++ "."%char :: frac)
                   (Z.of_nat (length (pre ++ ds ++ "."%char :: frac)))
                 = Z.of_nat (length pre + length ds)).
    { replace (pre ++ ds ++ "."%char :: frac)
        with ((pre ++ ds ++ ["."%char]) ++ frac ++ [])
        by (rewrite app_nil_r; list_norm).
      rewrite (scan_back_digits (pre ++ ds ++ ["."%char])) with (ds := frac).
      - rewrite !length_app. simpl. lia.
      - intros c Hc. rewrite !app_assoc, last_snoc in Hc.
        now injection Hc as <-.
      - exact Hfrac.
      - rewrite !length_app. simpl. lia.
      - rewrite app_nil_r, !length_app. simpl. lia. }
    rewrite S1.
    replace ((Z.of_nat (length pre + length ds) >=? 0)
             && Ascii.eqb
                  (at_ (pre ++ ds ++ "."%char :: frac)
                     (Z.of_nat (length pre + length ds))) ".")
      with true.
    + rewrite (scan_back_digits pre Hlast ds ("."%char :: frac) _ _ Hds)
        by (rewrite ?length_app; simpl; lia).
      now apply (commify_from_the_row pre ds ("."%char :: frac) _ _ Hnul).
    + symmetry. rewrite app_assoc.
      rewrite at_middle by (now rewrite length_app).
      apply andb_true_iff. split; [apply Z.geb_le; lia|reflexivity].
Qed.

(** X24 witness: a count with its unit, and a number with a fraction. *)
Lemma commify_groups_by_three_witness :
  commify false (Some (list_ascii_of_string "bw = 1234567"))
  = Some (list_ascii_of_string "bw = 1,234,567")
  /\ commify false (Some (list_ascii_of_string "1234.5678"))
     = Some (list_ascii_of_string "1,234.5678").
Proof.
  split.
  - apply (commify_groups_by_three (list_ascii_of_string "bw = ")
             (list_ascii_of_string "1234567") []).
    + repeat constructor; discriminate.
    + simpl. intros c Hc. injection Hc as <-. reflexivity.
    + reflexivity.
    + left. split; [reflexivity|]. simpl. discriminate.
  - apply (commify_groups_by_three []
             (list_ascii_of_string "1234")
             (list_ascii_of_string ".5678")).
    + constructor.
    + simpl. discriminate.
    + reflexivity.
    + right. exists (list_ascii_of_string "5678"). split; reflexivity.
Defined.

End CommifyFacts.

(** ** I. [place_show] *)

Module TableFacts.

Import Show Table.

Lemma list_max_cons (x : nat) (l : list nat) :
  list_max (x :: l) = Nat.max x (list_max l).
Proof. reflexivity. Qed.

(** The width of the names and, for the rows with a unit, of the values. *)
Lemma place_show_sizes_max (rows : list SHOW) :
  forall n0 d0 u0 N D U,
    place_show_sizes rows n0 d0 u0 = Some (N, D, U) ->
    N = Nat.max n0
          (list_max
             (map (fun show => (pref_len show + strlen (name show))%nat)
                rows))
    /\ D = Nat.max d0
             (list_max
                (map (fun show =>
                        match unit show, data show with
                        | Some _, Some dt => strlen dt
                        | _, _ => 0%nat
                        end) rows)).
Proof.
  induction rows as [|show rows IH]; intros n0 d0 u0 N D U H.
  - injection H as <- <- <-. simpl. lia.
  - cbn [place_show_sizes] in H. cbn [map]. rewrite !list_max_cons.
    destruct (data show) as [dt|]; [|discriminate].
    destruct (unit show) as [u|];
      apply IH in H as [-> ->];
      repeat match goal with
             | |- context [(?a <? ?b)%nat] =>
                 destruct (Nat.ltb_spec a b)
             end; lia.
Qed.

Lemma list_max_bounds {A : Type} (f : A -> nat) (l : list A) (x : A) :
  In x l -> (f x <= list_max (map f l))%nat.
Proof.
  induction l as [|y l IH]; [intros []|].
  cbn [map]. rewrite list_max_cons. intros [->|Hin]; [lia|].
  specialize (IH Hin). lia.
Qed.

(** X25.  [place_show] prints one line for each row of the table, and
    the lines stand in columns: each begins with four spaces, the prefix
    and the name, filled up with spaces to the longest prefix and name of
    the table, so that every [=] stands in the same column; in the rows
    that have a unit the value is moved to the right to the width of the
    longest value of such a row, so that their units begin in one column.
    A row without a unit shows its value as it is. *)
Theorem place_show_columns (ShowTable : list SHOW)
  (lines : list (list ascii)) :
  place_show ShowTable = Some lines ->
  let N := list_max
             (map (fun show => (pref_len show + strlen (name show))%nat)
                ShowTable) in
  let D := list_max
             (map (fun show =>
                     match unit show, data show with
                     | Some _, Some dt => strlen dt
                     | _, _ => 0%nat
                     end) ShowTable) in
  Forall2
    (fun show line =>
       exists dt fill,
         data show = Some dt
         /\ (pref_len show + strlen (name show) + fill = N)%nat
         /\ line
            = chars "    "
              ++ match pref show with Some p => chars p | None => [] end
              ++ chars (name show) ++ spaces fill
              ++ chars "  =  "
              ++ match unit show with
                 | Some u =>
                     spaces (D - strlen dt) ++ chars dt
                     ++ chars " " ++ chars u
                 | None => chars dt
                 end
              ++ match altn show with
                 | Some a => chars " (" ++ chars a ++ chars ")"
                 | None => []
                 end
         /\ (unit show <> None -> (strlen dt <= D)%nat))
    ShowTable lines.
Proof.
  intros H N D. unfold place_show in H.
  destruct (place_show_sizes ShowTable 0 0 0) as [[[N' D'] U]|] eqn:E;
    [|discriminate].
  apply place_show_sizes_max in E as [EN ED].
  rewrite !Nat.max_0_l in EN, ED. fold N in EN. fold D in ED. subst N' D'.
  apply mapM_Some in H.
  assert (HN : forall show, In show ShowTable ->
                 (pref_len show + strlen (name show) <= N)%nat)
    by (intros show Hin;
        apply (list_max_bounds
                 (fun show => (pref_len show + strlen (name show))%nat)
                 _ _ Hin)).
  assert (HD : forall show, In show ShowTable ->
                 (match unit show, data show with
                  | Some _, Some dt => strlen dt
                  | _, _ => 0%nat
                  end <= D)%nat)
    by (intros show Hin;
        apply (list_max_bounds
                 (fun show => match unit show, data show with
                              | Some _, Some dt => strlen dt
                              | _, _ => 0%nat
                              end) _ _ Hin)).
  clearbody N D.
  induction H as [|show line rows lines Hline _ IH]; [constructor|].
  constructor.
  - specialize (HN show (or_introl eq_refl)).
    specialize (HD show (or_introl eq_refl)).
    unfold place_show_line in Hline.
    destruct (data show) as [dt|]; [|discriminate].
    injection Hline as <-.
    exists dt, (N - (pref_len show + strlen (name show)))%nat.
    split; [reflexivity|]. split; [lia|]. split.
    + unfold left_justified, right_justified.
      replace (Z.to_nat (Z.abs (Z.of_nat N - Z.of_nat (pref_len show)))
               - strlen (name show))%nat
        with (N - (pref_len show + strlen (name show)))%nat by lia.
      unfold chars.
      destruct (unit show);
        repeat (progress (cbn [app list_ascii_of_string])
                || rewrite <- app_assoc);
        reflexivity.
    + destruct (unit show); [intros _; exact HD|intros C; now contradiction C].
  - apply IH; intros s Hin; [apply HN|apply HD]; now right.
Qed.

(** X25 witness: three rows, one of them without a unit. *)
Lemma place_show_columns_witness :
  place_show
    [ {| pref := None; name := "bw"%string; data := Some "1.18"%string;
         unit := Some "GB/sec"%string; altn := None |};
      {| pref := Some "loc_"%string;
         name := "cpus_used"%string;
         data := Some "57"%string;
         unit := Some "% cpus"%string;
         altn := None |};
      {| pref := None;
         name := "loc_id"%string;
         data := Some "node1"%string;
         unit := None;
         altn := None |} ]
  = Some [ list_ascii_of_string "    bw             =  1.18 GB/sec";
           list_ascii_of_string "    loc_cpus_used  =    57 % cpus";
           list_ascii_of_string "    loc_id         =  node1" ]
  /\ Forall2 (fun show line => exists dt fill, data show = Some dt
        /\ (pref_len show + strlen (name show) + fill = 13)%nat
        /\ line
           = chars "    "
             ++ match pref show with Some p => chars p | None => [] end
             ++ chars (name show) ++ spaces fill
             ++ chars "  =  "
             ++ match unit show with
                | Some u =>
                    spaces (4 - strlen dt) ++ chars dt
                    ++ chars " " ++ chars u
                | None => chars dt
                end
             ++ match altn show with
                | Some a => chars " (" ++ chars a ++ chars ")"
                | None => []
                end
        /\ (unit show <> None -> (strlen dt <= 4)%nat))
       [ {| pref := None; name := "bw"%string; data := Some "1.18"%string;
            unit := Some "GB/sec"%string; altn := None |};
         {| pref := Some "loc_"%string;
            name := "cpus_used"%string;
            data := Some "57"%string;
            unit := Some "% cpus"%string;
            altn := None |};
         {| pref := None;
            name := "loc_id"%string;
            data := Some "node1"%string;
            unit := None;
            altn := None |} ]
       [ list_ascii_of_string "    bw             =  1.18 GB/sec";
         list_ascii_of_string "    loc_cpus_used  =    57 % cpus";
         list_ascii_of_string "    loc_id         =  node1" ].
Proof.
  split; [reflexivity|].
  apply (place_show_columns
           [ {| pref := None; name := "bw"%string; data := Some "1.18"%string;
                unit := Some "GB/sec"%string; altn := None |};
             {| pref := Some "loc_"%string;
                name := "cpus_used"%string;
                data := Some "57"%string;
                unit := Some "% cpus"%string;
                altn := None |};
             {| pref := None;
                name := "loc_id"%string;
                data := Some "node1"%string;
                unit := None;
                altn := None |} ]).
  reflexivity.
Defined.

End TableFacts.
